(** * bible-story-bilder: classification engine and acquisition orchestrator

    A shallow embedding of the fileset classifier ([sort_cache_data.py],
    class [IndependentCacheDataSorter]) and of the acquisition orchestrator
    ([download_language_content.py]), with the properties of the
    specification stated and proved over the embedded code.

    Identifiers are Python [str] values; they are modelled as [string].
    A Python [set] of identifiers is a [gset string], a [dict] keyed by
    identifiers a [gmap string _], and the insertion-ordered
    [defaultdict(list)] of the dramatization filter an association list. *)

From Stdlib Require Import String Ascii.
From stdpp Require Import base list strings gmap sorting.

(** ** Python string primitives *)

Module Py.

(** [s[:n]] for [n >= 0]. *)
Fixpoint take (n : nat) (s : string) : string :=
  match n, s with
  | S n', String c s' => String c (take n' s')
  | _, _ => ""
  end.

(** [s[n:]] for [n >= 0]. *)
Fixpoint drop (n : nat) (s : string) : string :=
  match n, s with
  | S n', String _ s' => drop n' s'
  | _, _ => s
  end.

(** [s[i:j]] for [0 <= i], [0 <= j]. *)
Definition slice (i j : nat) (s : string) : string := take (j - i) (drop i s).

(** [s[:-k]] for [k > 0]: the subtraction is truncated at zero, as Python
    clamps the slice bound. *)
Definition drop_last (k : nat) (s : string) : string :=
  take (String.length s - k) s.

(** [s[-k:]] for [k > 0]. *)
Definition take_last (k : nat) (s : string) : string :=
  drop (String.length s - k) s.

(** [s[-k]] for [0 < k <= len(s)]; [None] stands for [IndexError]. *)
Definition get_last (k : nat) (s : string) : option ascii :=
  if decide (k ≤ String.length s)%nat then String.get (String.length s - k) s
  else None.

(** [s.endswith(suffix)] *)
Definition endswith (s suffix : string) : bool :=
  bool_decide (String.length suffix ≤ String.length s)%nat
  && String.eqb (take_last (String.length suffix) s) suffix.

(** [s.startswith(p)] *)
Definition startswith (s p : string) : bool := String.prefix p s.

(** [sub in s] *)
Fixpoint contains (sub s : string) : bool :=
  String.prefix sub s ||
  match s with
  | "" => false
  | String _ s' => contains sub s'
  end.

(** [x in xs] for a list of strings. *)
Definition mem (x : string) (xs : list string) : bool := bool_decide (x ∈ xs).

(** [sorted(xs)] on strings: code-point lexicographic order. *)
Definition sorted (xs : list string) : list string := merge_sort String.le xs.

(** The last character of a string, if any. *)
Fixpoint last_char (s : string) : option ascii :=
  match s with
  | "" => None
  | String a "" => Some a
  | String _ s' => last_char s'
  end.

End Py.

(** ** The classifier, [sort_cache_data.py] *)

Module Sorter.

(** [determine_book_set(fileset_id, size)]. The local [book_set] starts as
    [None]; the function returns [book_set or "VARIOUS"]. *)
Definition determine_book_set (fileset_id size : string) : string :=
  let book_set : option string :=
    if decide (7 ≤ String.length fileset_id)%nat then
      match String.get 6 fileset_id with
      | Some "O"%char => Some "OT"
      | Some "N"%char => Some "NT"
      | Some "C"%char => Some "FULL"
      | Some "P"%char => Some "PARTIAL"
      | Some "S"%char => Some "STORY"
      | _ => None
      end
    else None in
  let book_set : option string :=
    if decide (book_set = Some "PARTIAL") then book_set
    else if Py.mem size ["C"; "NTOTP"] then Some "FULL"
    else if Py.mem size ["NT"; "NTP"] then
      if negb (bool_decide (book_set ∈ [Some "OT"; Some "FULL"]))
      then Some "NT" else book_set
    else if Py.mem size ["OT"; "OTP"] then
      if negb (bool_decide (book_set ∈ [Some "NT"; Some "FULL"]))
      then Some "OT" else book_set
    else book_set in
  match book_set with
  | Some b => b
  | None => "VARIOUS"
  end.

(** The shared loop of both suffix strippers:
    [for suffix in suffixes: if s.endswith(suffix): return s[:-len(suffix)]];
    [None] when the loop falls through. *)
Fixpoint strip_first_suffix (suffixes : list string) (s : string)
  : option string :=
  match suffixes with
  | [] => None
  | suffix :: rest =>
      if Py.endswith s suffix
      then Some (Py.drop_last (String.length suffix) s)
      else strip_first_suffix rest s
  end.

(** [normalize_fileset_id(fileset_id)] of the classifier. *)
Definition suffixes : list string :=
  ["-opus16"; "-opus32"; "-mp3"; "-64"; "-128"; "16"].

Definition normalize_fileset_id (fileset_id : string) : string :=
  default fileset_id (strip_first_suffix suffixes fileset_id).

(** *** Dramatization filter *)

(** [base_groups[base].append(fs_id)] on an insertion-ordered dictionary of
    lists: an existing key keeps its position, a new key goes last. *)
Fixpoint group_append (base fs_id : string)
    (base_groups : list (string * list string))
  : list (string * list string) :=
  match base_groups with
  | [] => [(base, [fs_id])]
  | (k, fs_list) :: rest =>
      if decide (k = base) then (k, fs_list ++ [fs_id]) :: rest
      else (k, fs_list) :: group_append base fs_id rest
  end.

(** [fs_id[:-3] + fs_id[-2:]] *)
Definition base_key (fs_id : string) : string :=
  Py.drop_last 3 fs_id +:+ Py.take_last 2 fs_id.

(** First loop of [filter_dramatized_versions]. *)
Definition group_step (base_groups : list (string * list string))
    (fs_id : string) : list (string * list string) :=
  if decide (3 ≤ String.length fs_id)%nat
  then group_append (base_key fs_id) fs_id base_groups
  else base_groups.

Definition base_groups_of (filesets : list string)
  : list (string * list string) :=
  foldl group_step [] filesets.

(** [len(fs) >= 3 and fs[-3] == v] *)
Definition is_version (v : ascii) (fs : string) : bool :=
  bool_decide (3 ≤ String.length fs)%nat
  && bool_decide (Py.get_last 3 fs = Some v).

(** Body of the second loop, for one group. *)
Definition filter_group (fs_list : list string) : list string :=
  let has_version_1 := existsb (is_version "1") fs_list in
  let version_2_ids := filter (λ fs, is_version "2" fs) fs_list in
  if has_version_1 && negb (bool_decide (version_2_ids = []))
  then filter (λ fs, fs ∉ version_2_ids) fs_list
  else fs_list.

(** [filter_dramatized_versions(filesets)] *)
Definition filter_dramatized_versions (filesets : list string)
  : list string :=
  base_groups_of filesets ≫= (λ g, filter_group g.2).

(** *** Prefix matching *)

(** The test of the loop body of [match_audio_to_text]. *)
Definition prefix_match (audio_fileset_id text_id : string) : Prop :=
  let compare_length := 7 `min` String.length text_id in
  (compare_length ≤ String.length audio_fileset_id)%nat
  ∧ Py.take compare_length audio_fileset_id = Py.take compare_length text_id.

Global Instance prefix_match_dec a t : Decision (prefix_match a t).
Proof. unfold prefix_match. apply _. Defined.

(** [match_audio_to_text(audio_fileset_id, text_filesets)] *)
Definition match_audio_to_text (audio_fileset_id : string)
    (text_filesets : list string) : list string :=
  if decide (String.length audio_fileset_id < 6)%nat then []
  else Py.sorted (filter (prefix_match audio_fileset_id) text_filesets).

(** *** Syncable pairs *)

(** One entry of the list returned by [compute_syncable_pairs]:
    the dictionary with keys ["audio_fileset_id"] and ["text_fileset_id"]. *)
Record SyncPair := {
  audio_fileset_id : string;
  text_fileset_id : list string
}.

Global Instance SyncPair_eq_dec : EqDecision SyncPair.
Proof. solve_decision. Defined.

(** The part of [self.language_data[iso]] the matcher reads. *)
Record LangData := {
  audio_filesets : list string;
  text_filesets : list string
}.

Section with_timing.
(** [self.timing_filesets] *)
Variable timing_filesets : gset string.

(** [compute_syncable_pairs(iso)], on [lang_data = self.language_data[iso]]. *)
Definition compute_syncable_pairs (lang_data : LangData) : list SyncPair :=
  let audio_without_timing :=
    filter (λ fs, normalize_fileset_id fs ∉ timing_filesets)
           (audio_filesets lang_data) in
  let audio_filtered := filter_dramatized_versions audio_without_timing in
  audio_filtered ≫=
    (λ audio_id,
       let matching_text :=
         match_audio_to_text audio_id (text_filesets lang_data) in
       match matching_text with
       | [] => []
       | _ => [ {| audio_fileset_id := audio_id;
                   text_fileset_id := matching_text |} ]
       end).

(** [is_syncable(fileset_id, syncable_pairs)] *)
Definition is_syncable (fileset_id : string)
    (syncable_pairs : list SyncPair) : bool :=
  existsb (λ pair, bool_decide (audio_fileset_id pair = fileset_id))
          syncable_pairs.

(** [determine_data_source(fileset_id, is_audio, syncable_pairs)] *)
Definition determine_data_source (fileset_id : string) (is_audio : bool)
    (syncable_pairs : list SyncPair) : option string :=
  if negb is_audio then
    if existsb (λ pair, Py.mem fileset_id (text_fileset_id pair))
               syncable_pairs
    then Some "sync" else None
  else if bool_decide (normalize_fileset_id fileset_id ∈ timing_filesets)
  then Some "timing"
  else if existsb (λ pair, bool_decide (audio_fileset_id pair = fileset_id))
                  syncable_pairs
  then Some "sync" else None.

(** One catalog fileset entry and the work (Bible) that owns it: the
    fields of [fileset_detail] that [create_metadata] reads for the
    categorization. *)
Record FilesetDetail := {
  d_id : string;        (* fileset["id"] *)
  d_type : string;      (* fileset["type"] *)
  d_size : string;      (* fileset["size"] *)
  d_abbr : string;      (* bible["abbr"] *)
  d_name : string;      (* bible["name"] *)
  d_book_set : string   (* fileset_detail["book_set"] *)
}.

(** The metadata document of one fileset ([metadata.json]). The fields
    [language], [volume], [date], [collection] and the two
    [download_ready] identifiers take no part in any decision and are
    left out. *)
Record Metadata := {
  bible_abbr : string;
  bible_name : string;
  fs_id : string;
  fs_type : string;
  fs_size : string;
  has_text : bool;
  has_audio : bool;
  has_timing : bool;
  data_source : option string;
  book_set : string;
  syncable : bool;
  audio_text_pairs : list SyncPair;
  timing_available : bool   (* download_ready["timing_available"] *)
}.

Definition audio_types : list string :=
  ["audio"; "audio_drama"; "audio_stream"; "audio_drama_stream"].

(** [create_metadata(iso, fileset_detail, syncable_pairs)] *)
Definition create_metadata (fileset_detail : FilesetDetail)
    (syncable_pairs : list SyncPair) : Metadata :=
  let fileset_id := d_id fileset_detail in
  let fileset_type := d_type fileset_detail in
  let is_audio := Py.mem fileset_type audio_types in
  let is_text := Py.startswith fileset_type "text" in
  let audio_text_pairs :=
    if is_audio && is_syncable fileset_id syncable_pairs
    then filter (λ pair, audio_fileset_id pair = fileset_id) syncable_pairs
    else [] in
  let has_timing :=
    bool_decide (normalize_fileset_id fileset_id ∈ timing_filesets) in
  {| bible_abbr := d_abbr fileset_detail;
     bible_name := d_name fileset_detail;
     fs_id := fileset_id;
     fs_type := fileset_type;
     fs_size := d_size fileset_detail;
     has_text := is_text;
     has_audio := is_audio;
     has_timing := has_timing;
     data_source :=
       determine_data_source fileset_id is_audio syncable_pairs;
     book_set := d_book_set fileset_detail;
     syncable := is_syncable fileset_id syncable_pairs;
     audio_text_pairs := audio_text_pairs;
     timing_available := has_timing |}.
End with_timing.

End Sorter.

(** ** Book-set resolution as the specification words it *)

Module BookSetSpec.

(** The scope signalled by the character at position 7 (1-indexed). *)
Inductive marker := MOT | MNT | MFULL | MPARTIAL | MSTORY | MUnresolved.

Definition marker_of (c : ascii) : marker :=
  if decide (c = "O"%char) then MOT
  else if decide (c = "N"%char) then MNT
  else if decide (c = "C"%char) then MFULL
  else if decide (c = "P"%char) then MPARTIAL
  else if decide (c = "S"%char) then MSTORY
  else MUnresolved.

(** The scope signalled by the declared size code. *)
Inductive size_signal := SzFULL | SzNT | SzOT | SzNone.

Definition size_signal_of (size : string) : size_signal :=
  if decide (size = "C" ∨ size = "NTOTP") then SzFULL
  else if decide (size = "NT" ∨ size = "NTP") then SzNT
  else if decide (size = "OT" ∨ size = "OTP") then SzOT
  else SzNone.

(** Reconciliation table: rows are the identifier marker, columns the
    size signal. *)
Definition reconcile (m : marker) (z : size_signal) : string :=
  match m, z with
  | MPARTIAL, _ => "PARTIAL"
  | _, SzFULL => "FULL"
  | MOT, SzNT => "OT"
  | MFULL, SzNT => "FULL"
  | _, SzNT => "NT"
  | MNT, SzOT => "NT"
  | MFULL, SzOT => "FULL"
  | _, SzOT => "OT"
  | MOT, SzNone => "OT"
  | MNT, SzNone => "NT"
  | MFULL, SzNone => "FULL"
  | MSTORY, SzNone => "STORY"
  | MUnresolved, SzNone => "VARIOUS"
  end.

End BookSetSpec.

(** ** The acquisition orchestrator, [download_language_content.py] *)

Module Downloader.
Import Sorter.

(** *** Book tables *)

Definition OT_BOOKS : list (string * nat) :=
  [("GEN", 50); ("EXO", 40); ("LEV", 27); ("NUM", 36); ("DEU", 34);
   ("JOS", 24); ("JDG", 21); ("RUT", 4); ("1SA", 31); ("2SA", 24);
   ("1KI", 22); ("2KI", 25); ("1CH", 29); ("2CH", 36); ("EZR", 10);
   ("NEH", 13); ("EST", 10); ("JOB", 42); ("PSA", 150); ("PRO", 31);
   ("ECC", 12); ("SNG", 8); ("ISA", 66); ("JER", 52); ("LAM", 5);
   ("EZK", 48); ("DAN", 12); ("HOS", 14); ("JOL", 3); ("AMO", 9);
   ("OBA", 1); ("JON", 4); ("MIC", 7); ("NAM", 3); ("HAB", 3);
   ("ZEP", 3); ("HAG", 2); ("ZEC", 14); ("MAL", 4)].

Definition NT_BOOKS : list (string * nat) :=
  [("MAT", 28); ("MRK", 16); ("LUK", 24); ("JHN", 21); ("ACT", 28);
   ("ROM", 16); ("1CO", 16); ("2CO", 13); ("GAL", 6); ("EPH", 6);
   ("PHP", 4); ("COL", 4); ("1TH", 5); ("2TH", 3); ("1TI", 6);
   ("2TI", 4); ("TIT", 3); ("PHM", 1); ("HEB", 13); ("JAS", 5);
   ("1PE", 5); ("2PE", 3); ("1JN", 5); ("2JN", 1); ("3JN", 1);
   ("JUD", 1); ("REV", 22)].

(** [{**OT_BOOKS, **NT_BOOKS}]; the two key sets are disjoint. *)
Definition ALL_BOOKS : list (string * nat) := OT_BOOKS ++ NT_BOOKS.

(** [book_id in BOOKS] for a dictionary: membership among the keys. *)
Definition is_book (book_id : string) (books : list (string * nat)) : bool :=
  bool_decide (book_id ∈ books.*1).

(** [_EXCLUSIONS] after [load_exclusions()]. *)
Record Exclusions := {
  sa_versions : gset string;
  partial_content : gset string;
  story_adaptations : gset string
}.

(** *** Candidate selection *)

(** The [if / elif / elif] chain on [book_set]; [true] is [append]. *)
Definition covers_book (book_set : string) (is_ot : bool) : bool :=
  if decide (book_set = "FULL") then true
  else if bool_decide (book_set = "OT") && is_ot then true
  else if bool_decide (book_set = "NT") && negb is_ot then true
  else false.

(** Loop body of [get_audio_filesets] and [get_text_filesets];
    [has_type] is [cat["has_audio"]], respectively [cat["has_text"]]. *)
Definition is_candidate (has_type : Metadata → bool) (excl : Exclusions)
    (is_ot : bool) (fileset_id : string) (data : Metadata) : bool :=
  if negb (has_type data) then false
  else if bool_decide (fileset_id ∈ sa_versions excl) then false
  else if bool_decide (fileset_id ∈ story_adaptations excl) then false
  else covers_book (book_set data) is_ot.

Definition select (has_type : Metadata → bool) (excl : Exclusions)
    (metadata : gmap string Metadata) (book_id : string) : list Metadata :=
  let is_ot := is_book book_id OT_BOOKS in
  (filter (λ item, is_candidate has_type excl is_ot item.1 item.2)
          (map_to_list metadata)).*2.

(** Python orders tuples lexicographically, [False < True]. *)
Definition bool_lt (a b : bool) : Prop := a = false ∧ b = true.

(** [audio_priority(data)] *)
Definition audio_priority (data : Metadata) : bool * bool * string :=
  let fileset_id := fs_id data in
  let is_dramatized := Py.contains "2DA" fileset_id in
  let is_opus := Py.contains "-opus" fileset_id in
  (is_dramatized, is_opus, fileset_id).

Definition audio_key_le (k1 k2 : bool * bool * string) : Prop :=
  bool_lt k1.1.1 k2.1.1
  ∨ (k1.1.1 = k2.1.1
     ∧ (bool_lt k1.1.2 k2.1.2
        ∨ (k1.1.2 = k2.1.2 ∧ String.le k1.2 k2.2))).

Global Instance audio_key_le_dec : RelDecision audio_key_le.
Proof. intros k1 k2. unfold audio_key_le, bool_lt. apply _. Defined.

(** [text_priority(data)] *)
Definition text_priority (data : Metadata) : nat * string :=
  let fileset_id := fs_id data in
  if Py.endswith fileset_id "_ET" && negb (Py.contains "-" fileset_id)
  then (0, fileset_id)
  else if Py.endswith fileset_id "-usx" then (1, fileset_id)
  else if Py.endswith fileset_id "-json" then (2, fileset_id)
  else (3, fileset_id).

Definition text_key_le (k1 k2 : nat * string) : Prop :=
  (k1.1 < k2.1)%nat ∨ (k1.1 = k2.1 ∧ String.le k1.2 k2.2).

Global Instance text_key_le_dec : RelDecision text_key_le.
Proof. intros k1 k2. unfold text_key_le. apply _. Defined.

(** [get_audio_filesets(iso, book_id)], on
    [metadata = load_language_metadata(iso)]. The sort key ends with the
    identifier, so candidates with distinct identifiers are totally
    ordered and every sorting algorithm returns the same list. *)
Definition get_audio_filesets (excl : Exclusions)
    (metadata : gmap string Metadata) (book_id : string) : list Metadata :=
  merge_sort (λ d1 d2, audio_key_le (audio_priority d1) (audio_priority d2))
             (select has_audio excl metadata book_id).

(** [get_text_filesets(iso, book_id)] *)
Definition get_text_filesets (excl : Exclusions)
    (metadata : gmap string Metadata) (book_id : string) : list Metadata :=
  merge_sort (λ d1 d2, text_key_le (text_priority d1) (text_priority d2))
             (select has_text excl metadata book_id).

(** [has_timing_available(iso, audio_fileset_id)] *)
Definition has_timing_available (metadata : gmap string Metadata)
    (audio_fileset_id : string) : bool :=
  match metadata !! audio_fileset_id with
  | None => false
  | Some data => timing_available data
  end.

(** [normalize_fileset_id(fileset_id)] of the orchestrator. *)
Definition audio_suffixes : list string :=
  ["-opus16"; "-opus32"; "-mp3-64"; "-mp3-128"; "-mp3"].

Definition text_suffixes : list string := ["-json"; "-usx"].

Definition normalize_fileset_id (fileset_id : string) : string :=
  match strip_first_suffix audio_suffixes fileset_id with
  | Some base => base
  | None =>
      match strip_first_suffix text_suffixes fileset_id with
      | Some base => base
      | None => fileset_id
      end
  end.

(** [get_distinct_id_from_metadata(metadata)] *)
Definition get_distinct_id_from_metadata (metadata : Metadata) : string :=
  let bible_abbr := bible_abbr metadata in
  if negb (bool_decide (bible_abbr = "")) then bible_abbr
  else
    let fileset_id := fs_id metadata in
    let base := fileset_id in
    let base := default base (strip_first_suffix audio_suffixes base) in
    let base :=
      default base (strip_first_suffix ["_ET-json"; "_ET-usx"; "_ET"] base) in
    if decide (6 < String.length base)%nat then
      let n := String.length base in
      if Py.mem (Py.slice (n - 4) (n - 2) base) ["N1"; "O1"; "N2"; "O2"]
         && bool_decide (Py.take_last 2 base = "DA")
      then Py.drop_last 4 base
      else if Py.endswith (Py.take_last 3 base) "DA"
      then Py.drop_last 3 base
      else base
    else base.

(** *** Downloading one chapter

    [download_book_chapter] runs for a fixed language, book and chapter.
    Its effects are made explicit: the files of the chapter on durable
    storage, and the trace of calls made to collaborators. *)

Inductive file_kind := Mp3 | TimingJson | Txt.

(** The file [{book}_{chapter}_{fileset}{ext}] in the directory
    [downloads/BB/{iso}/{work}/{book}/]. *)
Record File := {
  f_work : string;
  f_kind : file_kind;
  f_fileset : string
}.

Global Instance file_kind_eq_dec : EqDecision file_kind.
Proof. solve_decision. Defined.
Global Instance File_eq_dec : EqDecision File.
Proof. solve_decision. Defined.

(** A writer returns [True] after a complete write; when it returns
    [False] it may have left a partial file behind. *)
Inductive write_outcome := Written | WriteFailed (file_left : bool).

Inductive content_type := CAudio | CText | CTiming.

Inductive Call :=
| GetAudioPath (fileset_id : string)
| DownloadAudioFile (fileset_id url : string) (result : write_outcome)
| GetTimingData (base_fileset_id : string)
| GetTextContent (fileset_id : string)
| LogDownloadError (ct : content_type) (error_type fileset_id : string).

(** A call, tagged with the work identity on whose behalf it is made. *)
Definition Event : Type := string * Call.

(** The calls that go to the network; the error ledger is local. *)
Definition is_network (c : Call) : bool :=
  match c with
  | LogDownloadError _ _ _ => false
  | _ => true
  end.

(** The collaborators. An answer may depend on everything that happened
    before the call. *)
Record World := {
  get_audio_path : list Event → string → option string;
  download_audio_file : list Event → string → write_outcome;
  get_timing_data : list Event → string → bool;
  save_timing_file : list Event → File → write_outcome;
  get_text_content : list Event → string → option string;
  save_text_file : list Event → File → write_outcome
}.

Record State := mkState {
  files : list File;
  trace : list Event;
  downloaded_distinct_ids : gset string;
  downloaded_text_distinct_ids : gset string;
  any_audio_success : bool;
  any_text_success : bool;
  any_timing_success : bool
}.

Definition emit (d : string) (c : Call) (st : State) : State :=
  mkState (files st) (trace st ++ [(d, c)]) (downloaded_distinct_ids st)
    (downloaded_text_distinct_ids st) (any_audio_success st)
    (any_text_success st) (any_timing_success st).

Definition leave_file (f : File) (st : State) : State :=
  mkState (if decide (f ∈ files st) then files st else files st ++ [f])
    (trace st) (downloaded_distinct_ids st)
    (downloaded_text_distinct_ids st) (any_audio_success st)
    (any_text_success st) (any_timing_success st).

Definition after_write (o : write_outcome) (f : File) (st : State) : State :=
  match o with
  | Written | WriteFailed true => leave_file f st
  | WriteFailed false => st
  end.

Definition audio_succeeded (st : State) : State :=
  mkState (files st) (trace st) (downloaded_distinct_ids st)
    (downloaded_text_distinct_ids st) true
    (any_text_success st) (any_timing_success st).

Definition text_succeeded (st : State) : State :=
  mkState (files st) (trace st) (downloaded_distinct_ids st)
    (downloaded_text_distinct_ids st) (any_audio_success st)
    true (any_timing_success st).

Definition timing_succeeded (st : State) : State :=
  mkState (files st) (trace st) (downloaded_distinct_ids st)
    (downloaded_text_distinct_ids st) (any_audio_success st)
    (any_text_success st) true.

Definition audio_done (d : string) (st : State) : State :=
  mkState (files st) (trace st) ({[d]} ∪ downloaded_distinct_ids st)
    (downloaded_text_distinct_ids st) (any_audio_success st)
    (any_text_success st) (any_timing_success st).

Definition text_done (d : string) (st : State) : State :=
  mkState (files st) (trace st) (downloaded_distinct_ids st)
    ({[d]} ∪ downloaded_text_distinct_ids st) (any_audio_success st)
    (any_text_success st) (any_timing_success st).

(** [book_dir.glob(f"{book_id}_{chapter_str}_*{ext}")] in the directory of
    work [d]: the fileset identifiers of the matching files, in directory
    order. *)
Definition glob (d : string) (k : file_kind) (fs : list File) : list string :=
  f_fileset <$> filter (λ f, f_work f = d ∧ f_kind f = k) fs.

(** [if not x] for an optional string: [None] and [""] are falsy. *)
Definition truthy (x : option string) : option string :=
  match x with
  | Some s => if decide (s = "") then None else Some s
  | None => None
  end.

Section chapter.
Variable w : World.
(** [load_language_metadata(iso)], as read by [has_timing_available]. *)
Variable metadata : gmap string Metadata.
Variable force : bool.

(** Timing for an audio file that is already on disk. *)
Definition timing_for_existing (d existing_fileset_id : string)
    (st : State) : State :=
  let timing_path :=
    {| f_work := d; f_kind := TimingJson;
       f_fileset := existing_fileset_id |} in
  if decide (timing_path ∈ files st) then timing_succeeded st
  else if has_timing_available metadata existing_fileset_id then
    let base := normalize_fileset_id existing_fileset_id in
    let timing_data := get_timing_data w (trace st) base in
    let st := emit d (GetTimingData base) st in
    if timing_data then
      match save_timing_file w (trace st) timing_path with
      | Written => timing_succeeded (leave_file timing_path st)
      | WriteFailed partial => after_write (WriteFailed partial) timing_path st
      end
    else st
  else st.

(** Timing after a fresh audio download. *)
Definition timing_for_download (d audio_fileset_id : string)
    (st : State) : State :=
  if has_timing_available metadata audio_fileset_id then
    let timing_path :=
      {| f_work := d; f_kind := TimingJson;
         f_fileset := audio_fileset_id |} in
    if negb (bool_decide (timing_path ∈ files st)) || force then
      let base := normalize_fileset_id audio_fileset_id in
      let timing_data := get_timing_data w (trace st) base in
      let st := emit d (GetTimingData base) st in
      if timing_data then
        match save_timing_file w (trace st) timing_path with
        | Written => timing_succeeded (leave_file timing_path st)
        | WriteFailed partial =>
            emit d (LogDownloadError CTiming "timing_save_failed"
                      audio_fileset_id)
                 (after_write (WriteFailed partial) timing_path st)
        end
      else
        emit d (LogDownloadError CTiming "no_timing_available"
                  audio_fileset_id) st
    else timing_succeeded st
  else st.

(** The audio loop body from [audio_filename = ...] on: ask for the
    location, download, then fetch timing. *)
Definition fetch_audio (distinct_id : string) (audio_metadata : Metadata)
    (st : State) : State :=
  let audio_fileset_id := fs_id audio_metadata in
  let audio_path :=
    {| f_work := distinct_id; f_kind := Mp3;
       f_fileset := audio_fileset_id |} in
  let audio_url := get_audio_path w (trace st) audio_fileset_id in
  let st := emit distinct_id (GetAudioPath audio_fileset_id) st in
  match truthy audio_url with
  | None =>
      emit distinct_id
        (LogDownloadError CAudio "no_audio_available" audio_fileset_id) st
  | Some url =>
      let result := download_audio_file w (trace st) url in
      let st :=
        emit distinct_id
          (DownloadAudioFile audio_fileset_id url result) st in
      match result with
      | Written =>
          let st := audio_succeeded (leave_file audio_path st) in
          let st := timing_for_download distinct_id audio_fileset_id st in
          audio_done distinct_id st
      | WriteFailed partial =>
          emit distinct_id
            (LogDownloadError CAudio "audio_download_failed"
               audio_fileset_id)
            (after_write (WriteFailed partial) audio_path st)
      end
  end.

(** Body of the audio loop. *)
Definition audio_step (st : State) (audio_metadata : Metadata) : State :=
  let distinct_id := get_distinct_id_from_metadata audio_metadata in
  if decide (distinct_id ∈ downloaded_distinct_ids st) then st
  else
    let existing_audio := glob distinct_id Mp3 (files st) in
    match existing_audio, force with
    | existing_fileset_id :: _, false =>
        let st := audio_succeeded st in
        let st := timing_for_existing distinct_id existing_fileset_id st in
        audio_done distinct_id st
    | _, _ => fetch_audio distinct_id audio_metadata st
    end.

(** The text loop body from [text_filename = ...] on. *)
Definition fetch_text (distinct_id : string) (text_metadata : Metadata)
    (st : State) : State :=
  let text_fileset_id := fs_id text_metadata in
  let text_path :=
    {| f_work := distinct_id; f_kind := Txt;
       f_fileset := text_fileset_id |} in
  let text_content := get_text_content w (trace st) text_fileset_id in
  let st := emit distinct_id (GetTextContent text_fileset_id) st in
  match truthy text_content with
  | None =>
      emit distinct_id
        (LogDownloadError CText "no_text_available" text_fileset_id) st
  | Some _ =>
      match save_text_file w (trace st) text_path with
      | Written =>
          text_done distinct_id (text_succeeded (leave_file text_path st))
      | WriteFailed partial =>
          emit distinct_id
            (LogDownloadError CText "text_save_failed" text_fileset_id)
            (after_write (WriteFailed partial) text_path st)
      end
  end.

(** Body of the text loop. *)
Definition text_step (st : State) (text_metadata : Metadata) : State :=
  let distinct_id := get_distinct_id_from_metadata text_metadata in
  if decide (distinct_id ∈ downloaded_text_distinct_ids st) then st
  else
    let existing_text := glob distinct_id Txt (files st) in
    match existing_text, force with
    | _ :: _, false => text_done distinct_id (text_succeeded st)
    | _, _ => fetch_text distinct_id text_metadata st
    end.

(** The state at function entry, on the files found on disk. *)
Definition initial (fs : list File) : State :=
  mkState fs [] ∅ ∅ false false false.

Definition audio_loop (st : State) (audio_filesets : list Metadata)
  : State := foldl audio_step st audio_filesets.

Definition text_loop (st : State) (text_filesets : list Metadata)
  : State := foldl text_step st text_filesets.

(** [download_book_chapter(iso, book_id, chapter, audio_filesets,
    text_filesets, force)], as the final state; the returned tuple is
    [(any_audio_success, any_text_success, any_timing_success)]. *)
Definition download_book_chapter (fs : list File)
    (audio_filesets text_filesets : list Metadata) : State :=
  text_loop (audio_loop (initial fs) audio_filesets) text_filesets.

Definition returned (st : State) : bool * bool * bool :=
  (any_audio_success st, any_text_success st, any_timing_success st).
End chapter.

End Downloader.

(** ** Traces of a chapter run *)

Module Trace.
Import Downloader.

(** The calls that fetch audio content. *)
Definition audio_content_call (c : Call) : bool :=
  match c with
  | GetAudioPath _ | DownloadAudioFile _ _ _ => true
  | _ => false
  end.

(** The calls that fetch text content. *)
Definition text_content_call (c : Call) : bool :=
  match c with
  | GetTextContent _ => true
  | _ => false
  end.

(** The calls that belong to timing acquisition. *)
Definition timing_call (c : Call) : bool :=
  match c with
  | GetTimingData _ | LogDownloadError CTiming _ _ => true
  | _ => false
  end.

(** A download that returned [True]. *)
Definition saved_download (c : Call) : bool :=
  match c with
  | DownloadAudioFile _ _ Written => true
  | _ => false
  end.

(** The work identities of the successful audio downloads of a trace, one
    entry per download. *)
Definition saved_audio_works (tr : list Event) : list string :=
  (filter (λ e, saved_download e.2) tr).*1.

(** The events of a trace made on behalf of work [d]. *)
Definition on_behalf_of (d : string) (tr : list Event) : list Event :=
  filter (λ e, e.1 = d) tr.

(** A content fetch addressed to fileset [x]. *)
Definition fetches (x : string) (c : Call) : Prop :=
  match c with
  | GetAudioPath f | DownloadAudioFile f _ _ | GetTextContent f => f = x
  | _ => False
  end.

(** What one iteration of the audio loop does to the state, by outcome. *)
Inductive audio_outcome (force : bool) (m : Sorter.Metadata)
    (st st' : State) : Prop :=
| audio_skipped :
    get_distinct_id_from_metadata m ∈ downloaded_distinct_ids st →
    st' = st →
    audio_outcome force m st st'
| audio_counted (existing : string) (others : list string)
    (evs : list Event) :
    let d := get_distinct_id_from_metadata m in
    d ∉ downloaded_distinct_ids st →
    force = false →
    glob d Mp3 (files st) = existing :: others →
    trace st' = trace st ++ evs →
    evs = [] ∨ evs = [(d, GetTimingData (normalize_fileset_id existing))] →
    downloaded_distinct_ids st' = {[d]} ∪ downloaded_distinct_ids st →
    any_audio_success st' = true →
    audio_outcome force m st st'
| audio_saved (url : string) (evs : list Event) :
    let d := get_distinct_id_from_metadata m in
    d ∉ downloaded_distinct_ids st →
    force = true ∨ glob d Mp3 (files st) = [] →
    trace st' =
      trace st ++ (d, GetAudioPath (Sorter.fs_id m))
               :: (d, DownloadAudioFile (Sorter.fs_id m) url Written)
               :: evs →
    Forall (λ e, e.1 = d ∧ timing_call e.2 = true) evs →
    downloaded_distinct_ids st' = {[d]} ∪ downloaded_distinct_ids st →
    any_audio_success st' = true →
    audio_outcome force m st st'
| audio_failed (evs : list Event) :
    let d := get_distinct_id_from_metadata m in
    d ∉ downloaded_distinct_ids st →
    force = true ∨ glob d Mp3 (files st) = [] →
    trace st' = trace st ++ (d, GetAudioPath (Sorter.fs_id m)) :: evs →
    Forall (λ e, e.1 = d ∧ saved_download e.2 = false
                 ∧ text_content_call e.2 = false
                 ∧ ∀ x, fetches x e.2 → x = Sorter.fs_id m) evs →
    downloaded_distinct_ids st' = downloaded_distinct_ids st →
    any_audio_success st' = any_audio_success st →
    audio_outcome force m st st'.

(** What one iteration of the text loop does to the state, by outcome. *)
Inductive text_outcome (force : bool) (m : Sorter.Metadata)
    (st st' : State) : Prop :=
| text_skipped :
    get_distinct_id_from_metadata m ∈ downloaded_text_distinct_ids st →
    st' = st →
    text_outcome force m st st'
| text_counted :
    let d := get_distinct_id_from_metadata m in
    d ∉ downloaded_text_distinct_ids st →
    force = false →
    glob d Txt (files st) ≠ [] →
    trace st' = trace st →
    downloaded_text_distinct_ids st' =
      {[d]} ∪ downloaded_text_distinct_ids st →
    any_text_success st' = true →
    text_outcome force m st st'
| text_saved :
    let d := get_distinct_id_from_metadata m in
    d ∉ downloaded_text_distinct_ids st →
    force = true ∨ glob d Txt (files st) = [] →
    trace st' = trace st ++ [(d, GetTextContent (Sorter.fs_id m))] →
    downloaded_text_distinct_ids st' =
      {[d]} ∪ downloaded_text_distinct_ids st →
    any_text_success st' = true →
    text_outcome force m st st'
| text_failed (error_type : string) :
    let d := get_distinct_id_from_metadata m in
    d ∉ downloaded_text_distinct_ids st →
    force = true ∨ glob d Txt (files st) = [] →
    trace st' =
      trace st ++ [(d, GetTextContent (Sorter.fs_id m));
                   (d, LogDownloadError CText error_type (Sorter.fs_id m))] →
    downloaded_text_distinct_ids st' = downloaded_text_distinct_ids st →
    any_text_success st' = any_text_success st →
    text_outcome force m st st'.

(** The parts of the state a timing step leaves alone. *)
Definition same_bookkeeping (st st' : State) : Prop :=
  downloaded_distinct_ids st' = downloaded_distinct_ids st
  ∧ downloaded_text_distinct_ids st' = downloaded_text_distinct_ids st
  ∧ any_audio_success st' = any_audio_success st
  ∧ any_text_success st' = any_text_success st
  ∧ files st `prefix_of` files st'.

(** Events an audio iteration on [m] can add. *)
Definition audio_event (m : Sorter.Metadata) (e : Event) : Prop :=
  e.1 = get_distinct_id_from_metadata m
  ∧ text_content_call e.2 = false
  ∧ ∀ x, fetches x e.2 → x = Sorter.fs_id m.

(** Events a text iteration on [m] can add. *)
Definition text_event (m : Sorter.Metadata) (e : Event) : Prop :=
  e.1 = get_distinct_id_from_metadata m
  ∧ audio_content_call e.2 = false
  ∧ saved_download e.2 = false
  ∧ timing_call e.2 = false
  ∧ ∀ x, fetches x e.2 → x = Sorter.fs_id m.

(** Every successful download is recorded, and no work identity has two. *)
Definition downloads_recorded (st : State) : Prop :=
  NoDup (saved_audio_works (trace st))
  ∧ ∀ d, d ∈ saved_audio_works (trace st) → d ∈ downloaded_distinct_ids st.
End Trace.

(** ** Notions used to state the properties *)

(** The identifiers on which the classifier and the orchestrator strip the
    same suffix: those that end with an opus tag or with [-mp3], and those
    that end with none of the suffixes only one of the two tables treats. *)
Definition common_suffix_domain (s : string) : Prop :=
  Py.endswith s "-opus16" = true
  ∨ Py.endswith s "-opus32" = true
  ∨ Py.endswith s "-mp3" = true
  ∨ (Py.endswith s "-64" = false
     ∧ Py.endswith s "-128" = false
     ∧ Py.endswith s "16" = false
     ∧ Py.endswith s "-json" = false
     ∧ Py.endswith s "-usx" = false).

(** What the grouping dictionary holds after the first loop has consumed
    the identifiers [seen]. *)
Record groups_of (seen : list string) (g : list (string * list string))
  : Prop := {
  groups_sound : ∀ k vs x, (k, vs) ∈ g → x ∈ vs →
    x ∈ seen ∧ (3 ≤ String.length x)%nat ∧ Sorter.base_key x = k;
  groups_complete : ∀ x, x ∈ seen → (3 ≤ String.length x)%nat →
    ∃ vs, (Sorter.base_key x, vs) ∈ g ∧ x ∈ vs;
  groups_keys : NoDup g.*1
}.


(** Coverage of a book by a book-set scope, as the code decides it. *)
Definition scope_covers (book_set book_id : string) : Prop :=
  book_set = "FULL"
  ∨ (book_set = "OT" ∧ book_id ∈ Downloader.OT_BOOKS.*1)
  ∨ (book_set = "NT" ∧ book_id ∉ Downloader.OT_BOOKS.*1).

(** Coverage as the specification states it. *)
Definition scope_covers_stated (book_set book_id : string) : Prop :=
  book_set = "FULL"
  ∨ (book_set = "OT" ∧ book_id ∈ Downloader.OT_BOOKS.*1)
  ∨ (book_set = "NT" ∧ book_id ∈ Downloader.NT_BOOKS.*1).

Definition in_exclusion_category (excl : Downloader.Exclusions)
    (fileset_id : string) : Prop :=
  fileset_id ∈ Downloader.sa_versions excl
  ∨ fileset_id ∈ Downloader.partial_content excl
  ∨ fileset_id ∈ Downloader.story_adaptations excl.

(** ** Sample catalogs, ledgers and collaborators *)

Module Examples.
Import Sorter Downloader.

(** A full-Bible audio fileset that the exclusion ledger lists under
    partial content. *)
Definition full_audio : Metadata :=
  {| bible_abbr := "ENGESV"; bible_name := "English Standard Version";
     fs_id := "ENGESVC1DA"; fs_type := "audio"; fs_size := "C";
     has_text := false; has_audio := true; has_timing := false;
     data_source := None; book_set := "FULL"; syncable := false;
     audio_text_pairs := []; timing_available := false |}.

Definition ledger_listing_full_audio : Exclusions :=
  {| sa_versions := ∅; partial_content := {["ENGESVC1DA"]};
     story_adaptations := ∅ |}.

(** A New-Testament audio fileset. *)
Definition nt_audio : Metadata :=
  {| bible_abbr := "ENGESV"; bible_name := "English Standard Version";
     fs_id := "ENGESVN1DA"; fs_type := "audio"; fs_size := "NT";
     has_text := false; has_audio := true; has_timing := false;
     data_source := None; book_set := "NT"; syncable := false;
     audio_text_pairs := []; timing_available := false |}.

Definition no_exclusions : Exclusions :=
  {| sa_versions := ∅; partial_content := ∅; story_adaptations := ∅ |}.

(** A catalog in which every request is answered and every write
    succeeds. *)
Definition generous : World :=
  {| get_audio_path := λ _ fileset_id, Some ("https://cdn/" +:+ fileset_id);
     download_audio_file := λ _ _, Written;
     get_timing_data := λ _ _, true;
     save_timing_file := λ _ _, Written;
     get_text_content := λ _ _, Some "In the beginning";
     save_text_file := λ _ _, Written |}.

Definition audio_of (abbr fileset_id : string) : Metadata :=
  {| bible_abbr := abbr; bible_name := abbr;
     fs_id := fileset_id; fs_type := "audio"; fs_size := "NT";
     has_text := false; has_audio := true; has_timing := false;
     data_source := None; book_set := "NT"; syncable := false;
     audio_text_pairs := []; timing_available := false |}.

(** The same audio fileset with timing data available. *)
Definition timed_audio_of (abbr fileset_id : string) : Metadata :=
  {| bible_abbr := abbr; bible_name := abbr;
     fs_id := fileset_id; fs_type := "audio"; fs_size := "NT";
     has_text := false; has_audio := true; has_timing := true;
     data_source := Some "timing"; book_set := "NT"; syncable := false;
     audio_text_pairs := []; timing_available := true |}.

(** The audio of ENGESV for the chapter is on disk; its timing file is
    not. *)
Definition audio_on_disk : list File :=
  [ {| f_work := "ENGESV"; f_kind := Mp3; f_fileset := "ENGESVN1DA" |} ].

Definition timed_metadata : gmap string Metadata :=
  {["ENGESVN1DA" := timed_audio_of "ENGESV" "ENGESVN1DA"]}.

(** Audio and text of ENGESV for the chapter are both on disk. *)
Definition audio_and_text_on_disk : list File :=
  [ {| f_work := "ENGESV"; f_kind := Mp3; f_fileset := "ENGESVN1DA" |};
    {| f_work := "ENGESV"; f_kind := Txt; f_fileset := "ENGESVN_ET" |} ].

Definition text_of (abbr fileset_id : string) : Metadata :=
  {| bible_abbr := abbr; bible_name := abbr;
     fs_id := fileset_id; fs_type := "text_plain"; fs_size := "NT";
     has_text := true; has_audio := false; has_timing := false;
     data_source := None; book_set := "NT"; syncable := false;
     audio_text_pairs := []; timing_available := false |}.
End Examples.

(** ** The orchestrator's format filters *)

Module Formats.

(** [filter_dramatized_versions(filesets)] of the orchestrator: the same two
    loops as the classifier's. *)
Definition filter_dramatized_versions (filesets : list string)
  : list string :=
  let base_groups :=
    foldl (λ base_groups fs_id,
             if decide (3 ≤ String.length fs_id)%nat
             then Sorter.group_append
                    (Py.drop_last 3 fs_id +:+ Py.take_last 2 fs_id)
                    fs_id base_groups
             else base_groups)
          [] filesets in
  base_groups ≫=
    (λ g,
       let fs_list := g.2 in
       let has_version_1 := existsb (Sorter.is_version "1") fs_list in
       let version_2_ids :=
         filter (λ fs, Sorter.is_version "2" fs) fs_list in
       if has_version_1 && negb (bool_decide (version_2_ids = []))
       then filter (λ fs, fs ∉ version_2_ids) fs_list
       else fs_list).

(** The suffix table of [filter_duplicate_formats]. *)
Definition format_suffixes : list string :=
  ["-json"; "-usx"; "-xml"; "-opus16"; "-opus32"; "-mp3"].

(** The inner loop of [filter_duplicate_formats]: the first suffix of the
    table the identifier ends with is removed, once. *)
Definition format_base (fileset_id : string) : string :=
  default fileset_id
    (Sorter.strip_first_suffix format_suffixes fileset_id).

(** First loop of [filter_duplicate_formats]. *)
Definition format_groups_of (filesets : list string)
  : list (string * list string) :=
  foldl (λ base_groups fileset_id,
           Sorter.group_append (format_base fileset_id) fileset_id
             base_groups)
        [] filesets.

(** Body of the second loop: the element appended to [filtered] for one
    group. [None] stands for the [IndexError] of [...[0]]. *)
Definition representative (base : string) (variants : list string)
  : option string :=
  if existsb (λ fs, bool_decide (Py.take_last 3 fs = "_ET")) variants
  then head (filter (λ fs, Py.endswith fs "_ET") variants)
  else if existsb (λ fs, bool_decide (fs = base)) variants
  then Some base
  else head variants.

(** [filter_duplicate_formats(filesets)] *)
Definition filter_duplicate_formats (filesets : list string)
  : option (list string) :=
  mapM (λ g, representative g.1 g.2) (format_groups_of filesets).

End Formats.

(** An identifier of [filesets] that is a plain reading (version 1) with
    the same base key as [x]. *)
Definition plain_sibling_exists (filesets : list string) (x : string) : Prop :=
  Exists (λ y, Sorter.is_version "1" y = true
               ∧ Sorter.base_key y = Sorter.base_key x) filesets.

(** The identifiers the dramatization filter keeps. *)
Definition survives (filesets : list string) (x : string) : Prop :=
  (3 ≤ String.length x)%nat
  ∧ ¬ (Sorter.is_version "2" x = true ∧ plain_sibling_exists filesets x).

Global Instance survives_dec filesets x : Decision (survives filesets x).
Proof. unfold survives, plain_sibling_exists. apply _. Defined.

(** ** Exclusion tracking of the classifier *)

Module Tracking.

(** The first test of [track_exclusions]: the nested conditions under
    which the fileset is appended to [exclusions["sa_versions"]]. *)
Definition is_sa_version (fileset_id : string) : bool :=
  if Py.contains "SA" fileset_id
     && bool_decide (10 ≤ String.length fileset_id)%nat
  then Py.endswith (Py.slice 7 10 fileset_id) "SA"
       || bool_decide (Py.slice 8 10 fileset_id = "SA")
  else false.

(** [s.lower()] on ASCII text; the type names of the catalog are ASCII. *)
Definition lower_char (c : ascii) : ascii :=
  let n := nat_of_ascii c in
  if decide (65 ≤ n ∧ n ≤ 90)%nat then ascii_of_nat (n + 32) else c.

Fixpoint lower (s : string) : string :=
  match s with
  | "" => ""
  | String c s' => String (lower_char c) (lower s')
  end.

(** The third test: a story or video format. *)
Definition is_story_adaptation (fileset_type : string) : bool :=
  Py.contains "story" (lower fileset_type)
  || Py.contains "video" (lower fileset_type).

(** [self.exclusions]: for each category the ["fileset_id"] fields of the
    entries, in the order of appending. The other fields of an entry are
    descriptive and are read by no code. *)
Record ExclusionLists := {
  sa_list : list string;
  partial_list : list string;
  story_list : list string
}.

(** [track_exclusions(iso, bible, fileset, fileset_id, fileset_type,
    book_set)] *)
Definition track_exclusions (fileset_id fileset_type book_set : string)
    (exclusions : ExclusionLists) : ExclusionLists :=
  {| sa_list :=
       if is_sa_version fileset_id
       then sa_list exclusions ++ [fileset_id] else sa_list exclusions;
     partial_list :=
       if decide (book_set = "PARTIAL")
       then partial_list exclusions ++ [fileset_id]
       else partial_list exclusions;
     story_list :=
       if is_story_adaptation fileset_type
       then story_list exclusions ++ [fileset_id]
       else story_list exclusions |}.

End Tracking.

(** ** Organizing the catalog by language *)

Module Catalog.

(** One entry of a Bible's fileset lists: the fields [id], [type] and
    [size] that [organize_language_data] reads. A missing [type] or [size]
    reads as the empty string. *)
Record Fileset := {
  c_id : option string;   (* fileset.get("id") *)
  c_type : string;        (* fileset.get("type", "") *)
  c_size : string         (* fileset.get("size", "") *)
}.

(** One Bible of [self.all_bibles]; [b_filesets] is the dictionary
    [bible.get("filesets", {})] from storage key to fileset list, in its
    order. *)
Record Bible := {
  b_iso : option string;  (* bible.get("iso") *)
  b_abbr : string;
  b_name : string;
  b_filesets : list (string * list Fileset)
}.

(** [self.language_data[iso]], without the descriptive [language_info]. *)
Record LanguageData := {
  l_audio_filesets : list string;
  l_audio_details : list Sorter.FilesetDetail;
  l_text_filesets : list string;
  l_text_details : list Sorter.FilesetDetail
}.

(** The default value of the [defaultdict]. *)
Definition empty_language : LanguageData :=
  {| l_audio_filesets := []; l_audio_details := [];
     l_text_filesets := []; l_text_details := [] |}.

(** The dictionary appended to [audio_details] or [text_details]. *)
Definition detail_of (bible : Bible) (fileset_id : string)
    (fileset : Fileset) : Sorter.FilesetDetail :=
  {| Sorter.d_id := fileset_id;
     Sorter.d_type := c_type fileset;
     Sorter.d_size := c_size fileset;
     Sorter.d_abbr := b_abbr bible;
     Sorter.d_name := b_name bible;
     Sorter.d_book_set :=
       Sorter.determine_book_set fileset_id (c_size fileset) |}.

(** Body of the innermost loop of [organize_language_data]. *)
Definition add_fileset (bible : Bible) (entry : LanguageData)
    (fileset : Fileset) : LanguageData :=
  match Downloader.truthy (c_id fileset) with
  | None => entry
  | Some fileset_id =>
      if Py.mem (c_type fileset) Sorter.audio_types then
        if decide (fileset_id ∈ l_audio_filesets entry) then entry
        else
          {| l_audio_filesets := l_audio_filesets entry ++ [fileset_id];
             l_audio_details :=
               l_audio_details entry ++ [detail_of bible fileset_id fileset];
             l_text_filesets := l_text_filesets entry;
             l_text_details := l_text_details entry |}
      else if Py.startswith (c_type fileset) "text" then
        if decide (fileset_id ∈ l_text_filesets entry) then entry
        else
          {| l_audio_filesets := l_audio_filesets entry;
             l_audio_details := l_audio_details entry;
             l_text_filesets := l_text_filesets entry ++ [fileset_id];
             l_text_details :=
               l_text_details entry ++ [detail_of bible fileset_id fileset] |}
      else entry
  end.

(** [self.language_data[iso]] looked up and updated in place: the
    [defaultdict] creates the entry of a new language at the end and keeps
    the position of a known one. *)
Fixpoint update_language (iso : string) (f : LanguageData → LanguageData)
    (language_data : list (string * LanguageData))
  : list (string * LanguageData) :=
  match language_data with
  | [] => [(iso, f empty_language)]
  | (k, entry) :: rest =>
      if decide (k = iso) then (k, f entry) :: rest
      else (k, entry) :: update_language iso f rest
  end.

(** Body of the outer loop. *)
Definition add_bible (language_data : list (string * LanguageData))
    (bible : Bible) : list (string * LanguageData) :=
  match Downloader.truthy (b_iso bible) with
  | None => language_data
  | Some iso =>
      update_language iso
        (λ entry, foldl (add_fileset bible) entry (b_filesets bible ≫= snd))
        language_data
  end.

(** [organize_language_data()], on [self.all_bibles]. *)
Definition organize_language_data (all_bibles : list Bible)
  : list (string * LanguageData) :=
  foldl add_bible [] all_bibles.

(** The part of a language entry that [compute_syncable_pairs] reads. *)
Definition lang_data_of (entry : LanguageData) : Sorter.LangData :=
  {| Sorter.audio_filesets := l_audio_filesets entry;
     Sorter.text_filesets := l_text_filesets entry |}.

(** A detail as the organizer writes it. *)
Definition detail_ok (is_type : string → bool) (d : Sorter.FilesetDetail)
  : Prop :=
  Sorter.d_id d ≠ ""
  ∧ is_type (Sorter.d_type d) = true
  ∧ Sorter.d_book_set d
    = Sorter.determine_book_set (Sorter.d_id d) (Sorter.d_size d).

Definition is_audio_type (t : string) : bool := Py.mem t Sorter.audio_types.

Definition is_text_type (t : string) : bool :=
  negb (Py.mem t Sorter.audio_types) && Py.startswith t "text".

(** What holds of every language entry the organizer builds. *)
Record organized (entry : LanguageData) : Prop := {
  audio_distinct : NoDup (l_audio_filesets entry);
  audio_aligned :
    Sorter.d_id <$> l_audio_details entry = l_audio_filesets entry;
  audio_ok : Forall (detail_ok is_audio_type) (l_audio_details entry);
  text_distinct : NoDup (l_text_filesets entry);
  text_aligned :
    Sorter.d_id <$> l_text_details entry = l_text_filesets entry;
  text_ok : Forall (detail_ok is_text_type) (l_text_details entry)
}.

End Catalog.

Module CatalogExamples.
Import Catalog.

Definition web : Bible :=
  {| b_iso := Some "eng"; b_abbr := "ENGWEB"; b_name := "World English Bible";
     b_filesets :=
       [("dbp-prod",
         [ {| c_id := Some "ENGWEBN2DA"; c_type := "audio_drama";
              c_size := "NT" |};
           {| c_id := Some "ENGWEBN_ET"; c_type := "text_plain";
              c_size := "NT" |};
           {| c_id := Some "ENGWEBN2DA"; c_type := "audio_drama";
              c_size := "NT" |};
           {| c_id := None; c_type := "audio"; c_size := "NT" |} ]);
        ("dbp-vid",
         [ {| c_id := Some "ENGWEBP2DV"; c_type := "video_stream";
              c_size := "NTP" |};
           {| c_id := Some "ENGWEBP1SA"; c_type := "audio_stream";
              c_size := "NTP" |} ])] |}.

Definition nameless : Bible :=
  {| b_iso := None; b_abbr := "XXXYYY"; b_name := "";
     b_filesets :=
       [("dbp-prod",
         [ {| c_id := Some "XXXYYYN1DA"; c_type := "audio";
              c_size := "NT" |} ])] |}.

(** The catalog lists the same Bible twice, and one Bible without a
    language code. *)
Definition catalog : list Bible := [web; nameless; web].

Definition eng_entry : LanguageData :=
  {| l_audio_filesets := ["ENGWEBN2DA"; "ENGWEBP1SA"];
     l_audio_details :=
       [detail_of web "ENGWEBN2DA"
          {| c_id := Some "ENGWEBN2DA"; c_type := "audio_drama";
             c_size := "NT" |};
        detail_of web "ENGWEBP1SA"
          {| c_id := Some "ENGWEBP1SA"; c_type := "audio_stream";
             c_size := "NTP" |}];
     l_text_filesets := ["ENGWEBN_ET"];
     l_text_details :=
       [detail_of web "ENGWEBN_ET"
          {| c_id := Some "ENGWEBN_ET"; c_type := "text_plain";
             c_size := "NT" |}] |}.

End CatalogExamples.

(** ** From the catalog to the orchestrator's candidates

    [process_all_languages] writes one metadata document per fileset and
    the exclusion ledger; the orchestrator loads both. The key
    [f"{iso}/{fileset_id}"] of [processed_filesets] and the directory
    [sorted/BB/{iso}/{fileset_id}] are modelled by the pair of language
    code and identifier, and the output directory is empty when the run
    starts. *)

Module Pipeline.

Record Output := {
  processed_filesets : gset (string * string);
  saved : gmap (string * string) Sorter.Metadata;   (* metadata.json files *)
  exclusions : Tracking.ExclusionLists
}.

(** The state set up by [__init__]. *)
Definition fresh : Output :=
  {| processed_filesets := ∅; saved := ∅;
     exclusions :=
       {| Tracking.sa_list := []; Tracking.partial_list := [];
          Tracking.story_list := [] |} |}.

Section classifier.
Variable timing_filesets : gset string.

(** Body of the two inner loops of [process_all_languages]. *)
Definition process_detail (iso : string)
    (syncable_pairs : list Sorter.SyncPair) (out : Output)
    (detail : Sorter.FilesetDetail) : Output :=
  let fileset_id := Sorter.d_id detail in
  if decide ((iso, fileset_id) ∈ processed_filesets out) then out
  else
    let metadata :=
      Sorter.create_metadata timing_filesets detail syncable_pairs in
    {| processed_filesets := {[(iso, fileset_id)]} ∪ processed_filesets out;
       saved := <[(iso, fileset_id) := metadata]> (saved out);
       exclusions :=
         Tracking.track_exclusions fileset_id (Sorter.d_type detail)
           (Sorter.book_set metadata) (exclusions out) |}.

(** Body of the outer loop. *)
Definition process_language (out : Output)
    (item : string * Catalog.LanguageData) : Output :=
  let iso := item.1 in
  let lang_data := item.2 in
  let syncable_pairs :=
    Sorter.compute_syncable_pairs timing_filesets
      (Catalog.lang_data_of lang_data) in
  let out :=
    foldl (process_detail iso syncable_pairs) out
          (Catalog.l_audio_details lang_data) in
  foldl (process_detail iso syncable_pairs) out
        (Catalog.l_text_details lang_data).

(** [process_all_languages()] *)
Definition process_all_languages
    (language_data : list (string * Catalog.LanguageData)) : Output :=
  foldl process_language fresh language_data.

(** Steps 3 and 4 of [run()]. *)
Definition run (all_bibles : list Catalog.Bible) : Output :=
  process_all_languages (Catalog.organize_language_data all_bibles).
End classifier.

(** [load_language_metadata(iso)] of the orchestrator: the documents of
    the language's directory, keyed by the identifier they carry. *)
Definition load_language_metadata
    (saved : gmap (string * string) Sorter.Metadata) (iso : string)
  : gmap string Sorter.Metadata :=
  foldl (λ metadata item, <[Sorter.fs_id item.2 := item.2]> metadata) ∅
        (filter (λ item, item.1.1 = iso) (map_to_list saved)).

(** [load_exclusions()] of the orchestrator, on the ledger written by
    [save_exclusions]. *)
Definition load_exclusions (lists : Tracking.ExclusionLists)
  : Downloader.Exclusions :=
  {| Downloader.sa_versions := list_to_set (Tracking.sa_list lists);
     Downloader.partial_content := list_to_set (Tracking.partial_list lists);
     Downloader.story_adaptations :=
       list_to_set (Tracking.story_list lists) |}.

(** The details of a language in processing order. *)
Definition details (entry : Catalog.LanguageData)
  : list Sorter.FilesetDetail :=
  Catalog.l_audio_details entry ++ Catalog.l_text_details entry.

(** The first detail of a list that carries the identifier. *)
Definition first_detail (fileset_id : string)
    (l : list Sorter.FilesetDetail) : option Sorter.FilesetDetail :=
  head (filter (λ d, Sorter.d_id d = fileset_id) l).

(** The identifier is listed for some language. *)
Definition catalogued (language_data : list (string * Catalog.LanguageData))
    (fileset_id : string) : Prop :=
  ∃ iso entry, (iso, entry) ∈ language_data
    ∧ (fileset_id ∈ Catalog.l_audio_filesets entry
       ∨ fileset_id ∈ Catalog.l_text_filesets entry).

(** Every processed key has its document, and conversely. *)
Definition processed_saved (out : Output) : Prop :=
  ∀ k, k ∈ processed_filesets out ↔ is_Some (saved out !! k).

(** What the run has written once the languages [langs] are processed. *)
Record run_state (timing_filesets : gset string)
    (langs : list (string * Catalog.LanguageData)) (out : Output)
  : Prop := {
  run_processed : processed_saved out;
  run_saved : ∀ i fileset_id m,
    saved out !! (i, fileset_id) = Some m ↔
      ∃ entry d, (i, entry) ∈ langs
        ∧ first_detail fileset_id (details entry) = Some d
        ∧ m = Sorter.create_metadata timing_filesets d
                (Sorter.compute_syncable_pairs timing_filesets
                   (Catalog.lang_data_of entry));
  run_lists : ∀ (proj : Tracking.ExclusionLists → list string)
                (test : Sorter.FilesetDetail → bool),
    proj (exclusions fresh) = [] →
    (∀ d ex,
        proj (Tracking.track_exclusions (Sorter.d_id d) (Sorter.d_type d)
                (Sorter.d_book_set d) ex)
        = if test d then proj ex ++ [Sorter.d_id d] else proj ex) →
    ∀ fileset_id,
      fileset_id ∈ proj (exclusions out) ↔
        ∃ i entry d, (i, entry) ∈ langs
          ∧ first_detail fileset_id (details entry) = Some d
          ∧ test d = true
}.

End Pipeline.

Module PipelineExamples.
Import Catalog.

(** A retelling catalogued as text of a story format. *)
Definition stories : Bible :=
  {| b_iso := Some "eng"; b_abbr := "ENGOBS"; b_name := "Open Bible Stories";
     b_filesets :=
       [("dbp-prod",
         [ {| c_id := Some "ENGOBSS_ET"; c_type := "text_story";
              c_size := "S" |} ])] |}.

Definition catalog : list Bible := [CatalogExamples.web; stories].

Definition ledger : Downloader.Exclusions :=
  Pipeline.load_exclusions (Pipeline.exclusions (Pipeline.run ∅ catalog)).

Definition eng : gmap string Sorter.Metadata :=
  Pipeline.load_language_metadata (Pipeline.saved (Pipeline.run ∅ catalog))
    "eng".

End PipelineExamples.

(** ** The error ledger of the orchestrator *)

Module Ledger.

(** One format-specific error; an optional field is present when the
    argument is truthy. *)
Record FormatError := {
  fe_timestamp : string;
  fe_error_type : string;
  fe_fileset : option string;
  fe_distinct_id : option string;
  fe_format : option string;
  fe_details : option string
}.

(** One entry of the ["errors"] list: the errors of one chapter. *)
Record ErrorEntry := {
  e_timestamp : string;
  e_book : string;
  e_chapter : Z;
  e_audio_errors : list FormatError;
  e_text_errors : list FormatError;
  e_timing_errors : list FormatError
}.

(** [_ERROR_LOG] and the files [{iso}_errors.json]. Of a log only the
    ["errors"] list is kept; ["language"] and ["last_updated"] are read by
    no code. *)
Record Ledgers := {
  memory : gmap string (list ErrorEntry);
  disk : gmap string (list ErrorEntry)
}.

(** [load_error_log(iso)] *)
Definition load_error_log (files : gmap string (list ErrorEntry))
    (iso : string) : list ErrorEntry :=
  match files !! iso with
  | Some errors => errors
  | None => []
  end.

(** The log [log_download_error] works on: [_ERROR_LOG[iso]] after the
    guarded load. *)
Definition current (st : Ledgers) (iso : string) : list ErrorEntry :=
  match memory st !! iso with
  | Some errors => errors
  | None => load_error_log (disk st) iso
  end.

(** The [if / elif / elif] chain that appends the error, followed by the
    update of the entry's timestamp. *)
Definition add_error (content_type : string) (format_error : FormatError)
    (updated : string) (entry : ErrorEntry) : ErrorEntry :=
  {| e_timestamp := updated;
     e_book := e_book entry;
     e_chapter := e_chapter entry;
     e_audio_errors :=
       if decide (content_type = "audio")
       then e_audio_errors entry ++ [format_error]
       else e_audio_errors entry;
     e_text_errors :=
       if decide (content_type = "audio") then e_text_errors entry
       else if decide (content_type = "text")
       then e_text_errors entry ++ [format_error]
       else e_text_errors entry;
     e_timing_errors :=
       if decide (content_type = "audio") then e_timing_errors entry
       else if decide (content_type = "text") then e_timing_errors entry
       else if decide (content_type = "timing")
       then e_timing_errors entry ++ [format_error]
       else e_timing_errors entry |}.

(** The entry created when the chapter has none. *)
Definition new_entry (book_id : string) (chapter : Z) (created : string)
  : ErrorEntry :=
  {| e_timestamp := created; e_book := book_id; e_chapter := chapter;
     e_audio_errors := []; e_text_errors := []; e_timing_errors := [] |}.

(** Find the first entry of the chapter, or append a new one, and update
    that entry in place. *)
Fixpoint record_error (book_id : string) (chapter : Z)
    (update : ErrorEntry → ErrorEntry) (created : string)
    (errors : list ErrorEntry) : list ErrorEntry :=
  match errors with
  | [] => [update (new_entry book_id chapter created)]
  | entry :: rest =>
      if decide (e_book entry = book_id ∧ e_chapter entry = chapter)
      then update entry :: rest
      else entry :: record_error book_id chapter update created rest
  end.

(** [log_download_error(iso, book_id, chapter, content_type, error_type,
    fileset, distinct_id, format_type, details)]; [created], [now] and
    [updated] are the readings of the clock. *)
Definition log_download_error (iso book_id : string) (chapter : Z)
    (content_type error_type : string)
    (fileset distinct_id format_type details : option string)
    (created now updated : string) (st : Ledgers) : Ledgers :=
  let errors := current st iso in
  let format_error :=
    {| fe_timestamp := now; fe_error_type := error_type;
       fe_fileset := Downloader.truthy fileset;
       fe_distinct_id := Downloader.truthy distinct_id;
       fe_format := Downloader.truthy format_type;
       fe_details := Downloader.truthy details |} in
  let errors :=
    record_error book_id chapter
      (add_error content_type format_error updated) created errors in
  {| memory := <[iso := errors]> (memory st);
     disk := <[iso := errors]> (disk st) |}.

Record Summary := {
  total_chapters_with_errors : nat;
  audio_errors : nat;
  text_errors : nat;
  timing_errors : nat
}.

Definition no_errors : Summary :=
  {| total_chapters_with_errors := 0; audio_errors := 0; text_errors := 0;
     timing_errors := 0 |}.

(** [entry.get("audio_errors") or entry.get("text_errors") or
    entry.get("timing_errors")]: some list is non-empty. *)
Definition has_errors (entry : ErrorEntry) : bool :=
  negb (bool_decide (e_audio_errors entry = []))
  || negb (bool_decide (e_text_errors entry = []))
  || negb (bool_decide (e_timing_errors entry = [])).

(** Body of the loop of [get_error_summary]. *)
Definition count_entry (summary : Summary) (entry : ErrorEntry) : Summary :=
  {| total_chapters_with_errors :=
       if has_errors entry then S (total_chapters_with_errors summary)
       else total_chapters_with_errors summary;
     audio_errors := audio_errors summary + length (e_audio_errors entry);
     text_errors := text_errors summary + length (e_text_errors entry);
     timing_errors :=
       timing_errors summary + length (e_timing_errors entry) |}.

Definition summarize (errors : list ErrorEntry) : Summary :=
  foldl count_entry no_errors errors.

(** [get_error_summary(iso)] *)
Definition get_error_summary (st : Ledgers) (iso : string) : Summary :=
  match memory st !! iso with
  | None => no_errors
  | Some errors => summarize errors
  end.

(** The chapter of an entry. *)
Definition chapter_of (entry : ErrorEntry) : string * Z :=
  (e_book entry, e_chapter entry).

(** The first entry of a chapter, the one [log_download_error] updates. *)
Definition first_entry (book_id : string) (chapter : Z)
    (errors : list ErrorEntry) : option ErrorEntry :=
  head (filter (λ entry, e_book entry = book_id ∧ e_chapter entry = chapter)
               errors).

(** The chapter has no error on record yet. *)
Definition unreported (book_id : string) (chapter : Z)
    (errors : list ErrorEntry) : bool :=
  match first_entry book_id chapter errors with
  | Some entry => negb (has_errors entry)
  | None => true
  end.

Definition known_type (content_type : string) : bool :=
  bool_decide (content_type ∈ ["audio"; "text"; "timing"]).

(** One entry grows into another: same chapter, every list extended at
    its end. *)
Definition grows (e e' : ErrorEntry) : Prop :=
  chapter_of e' = chapter_of e
  ∧ e_audio_errors e `prefix_of` e_audio_errors e'
  ∧ e_text_errors e `prefix_of` e_text_errors e'
  ∧ e_timing_errors e `prefix_of` e_timing_errors e'.

End Ledger.

(** ** Languages by book-set category *)

Module Languages.

(** [cat.get("syncable") and cat.get("data_source") == "sync"] *)
Definition sync_ready (m : Sorter.Metadata) : bool :=
  Sorter.syncable m && bool_decide (Sorter.data_source m = Some "sync").

(** [cat.get("has_timing") and cat.get("data_source") == "timing"] *)
Definition timing_ready (m : Sorter.Metadata) : bool :=
  Sorter.has_timing m && bool_decide (Sorter.data_source m = Some "timing").

(** The loop of the two [_FULL] categories: it raises [has_ot] and
    [has_nt] and leaves at the first full Bible. *)
Fixpoint scan_full (ready : Sorter.Metadata → bool)
    (items : list Sorter.Metadata) (has_ot has_nt : bool) : bool * bool :=
  match items with
  | [] => (has_ot, has_nt)
  | m :: rest =>
      if ready m then
        if decide (Sorter.book_set m = "FULL") then (true, true)
        else if decide (Sorter.book_set m = "OT")
        then scan_full ready rest true has_nt
        else if decide (Sorter.book_set m = "NT")
        then scan_full ready rest has_ot true
        else scan_full ready rest has_ot has_nt
      else scan_full ready rest has_ot has_nt
  end.

(** The loop of the other categories: the language is appended, and the
    loop left, at the first ready fileset of one of the scopes. *)
Definition scan_any (ready : Sorter.Metadata → bool) (scopes : list string)
    (items : list Sorter.Metadata) : bool :=
  existsb (λ m, ready m && Py.mem (Sorter.book_set m) scopes) items.

(** The [if / elif] chain on [book_set] for one language. *)
Definition matches (book_set : string)
    (metadata_dict : gmap string Sorter.Metadata) : bool :=
  let items := (map_to_list metadata_dict).*2 in
  if decide (book_set = "ALL") then true
  else if decide (book_set = "SYNC_FULL") then
    let flags := scan_full sync_ready items false false in
    flags.1 && flags.2
  else if decide (book_set = "SYNC_NT")
  then scan_any sync_ready ["NT"; "FULL"] items
  else if decide (book_set = "SYNC_OT")
  then scan_any sync_ready ["OT"; "FULL"] items
  else if decide (book_set = "TIMING_FULL") then
    let flags := scan_full timing_ready items false false in
    flags.1 && flags.2
  else if decide (book_set = "TIMING_NT")
  then scan_any timing_ready ["NT"; "FULL"] items
  else if decide (book_set = "TIMING_OT")
  then scan_any timing_ready ["OT"; "FULL"] items
  else false.

(** [name.split("_")[0]] *)
Fixpoint before_underscore (name : string) : string :=
  match name with
  | "" => ""
  | String c rest =>
      if decide (c = "_"%char) then ""
      else String c (before_underscore rest)
  end.

(** The first loop: the base codes of the language directories. Directory
    names are ASCII, so [len] counts bytes. *)
Definition languages_to_check (names : list string) : list string :=
  foldl (λ languages_to_check name,
           let iso := before_underscore name in
           if decide (String.length iso = 3 ∧ iso ∉ languages_to_check)
           then languages_to_check ++ [iso]
           else languages_to_check)
        [] names.

(** Body of the second loop: a language without metadata is skipped. *)
Definition listed (book_set : string)
    (metadata_dict : gmap string Sorter.Metadata) : bool :=
  match map_to_list metadata_dict with
  | [] => false
  | _ => matches book_set metadata_dict
  end.

(** [get_languages_by_book_set(book_set)], on the names of the
    directories of [sorted/BB] and on [load_language_metadata]; [None]
    stands for [sys.exit(1)]. *)
Definition get_languages_by_book_set (names : list string)
    (load : string → gmap string Sorter.Metadata) (book_set : string)
  : option (list string) :=
  let to_check := languages_to_check names in
  match to_check with
  | [] => None
  | _ =>
      Some (Py.sorted
              (filter (λ iso, listed book_set (load iso)) to_check))
  end.

End Languages.

Module LanguagesExamples.

Definition syncable_nt : Sorter.Metadata :=
  {| Sorter.bible_abbr := "ENGWEB"; Sorter.bible_name := "World English";
     Sorter.fs_id := "ENGWEBN2DA"; Sorter.fs_type := "audio_drama";
     Sorter.fs_size := "NT"; Sorter.has_text := false;
     Sorter.has_audio := true; Sorter.has_timing := false;
     Sorter.data_source := Some "sync"; Sorter.book_set := "NT";
     Sorter.syncable := true; Sorter.audio_text_pairs := [];
     Sorter.timing_available := false |}.

Definition syncable_ot : Sorter.Metadata :=
  {| Sorter.bible_abbr := "ENGWEB"; Sorter.bible_name := "World English";
     Sorter.fs_id := "ENGWEBO2DA"; Sorter.fs_type := "audio_drama";
     Sorter.fs_size := "OT"; Sorter.has_text := false;
     Sorter.has_audio := true; Sorter.has_timing := false;
     Sorter.data_source := Some "sync"; Sorter.book_set := "OT";
     Sorter.syncable := true; Sorter.audio_text_pairs := [];
     Sorter.timing_available := false |}.

(** English has both testaments, Spanish the New Testament only, and the
    directory of French exists under a country-suffixed name only. *)
Definition directories : list string := ["spa"; "eng_US"; "eng"; "fra_FR"].

Definition load (iso : string) : gmap string Sorter.Metadata :=
  if decide (iso = "eng")
  then {["ENGWEBN2DA" := syncable_nt; "ENGWEBO2DA" := syncable_ot]}
  else if decide (iso = "spa") then {["SPNBDAN2DA" := syncable_nt]}
  else ∅.

End LanguagesExamples.

(** ** Downloading a book *)

Module Book.
Import Sorter Downloader.

(** A returned tuple of counts, or the [ValueError] of [min(chapters)] on
    an empty list. *)
Inductive result :=
| Returned (audio_count text_count timing_count : nat)
| ValueError.

(** [ALL_BOOKS.get(book_id, 0)] *)
Definition max_chapters (book_id : string) : Z :=
  match list_find (λ b : string * nat, b.1 = book_id) ALL_BOOKS with
  | Some (_, b) => Z.of_nat b.2
  | None => 0
  end.

(** The files of every chapter, the chapter runs made so far with their
    final states, and the three counters. *)
Record Progress := mkProgress {
  files_of : Z → list File;
  runs : list (Z * State);
  audio_count : nat;
  text_count : nat;
  timing_count : nat
}.

Section book.
(** The collaborators during the n-th chapter run. *)
Variable w : nat → World.
Variable excl : Exclusions.
Variable metadata : gmap string Metadata.
Variable force : bool.

(** Body of the chapter loop. *)
Definition chapter_step (audio_filesets text_filesets : list Metadata)
    (p : Progress) (chapter : Z) : Progress :=
  let st :=
    download_book_chapter (w (length (runs p))) metadata force
      (files_of p chapter) audio_filesets text_filesets in
  {| files_of := λ c, if decide (c = chapter) then files st else files_of p c;
     runs := runs p ++ [(chapter, st)];
     audio_count :=
       if any_audio_success st then S (audio_count p) else audio_count p;
     text_count :=
       if any_text_success st then S (text_count p) else text_count p;
     timing_count :=
       if any_timing_success st then S (timing_count p)
       else timing_count p |}.

(** [download_book(iso, book_id, chapters, force)], on the files [fs]
    found on disk. *)
Definition download_book (book_id : string) (chapters : option (list Z))
    (fs : Z → list File) : result * Progress :=
  let max_chapters := max_chapters book_id in
  let chapters :=
    match chapters with
    | None => seqZ 1 max_chapters
    | Some chapters => chapters
    end in
  let start := mkProgress fs [] 0 0 0 in
  if existsb (λ chapter,
                bool_decide (chapter < 1 ∨ max_chapters < chapter)%Z)
             chapters
  then (Returned 0 0 0, start)
  else
    let audio_filesets := get_audio_filesets excl metadata book_id in
    let text_filesets := get_text_filesets excl metadata book_id in
    match audio_filesets, text_filesets with
    | [], [] => (Returned 0 0 0, start)
    | _, _ =>
        match chapters with
        | [] => (ValueError, start)
        | _ =>
            let p :=
              foldl (chapter_step audio_filesets text_filesets) start
                    chapters in
            (Returned (audio_count p) (text_count p) (timing_count p), p)
        end
    end.
End book.

(** Timing is only ever counted together with audio. *)
Definition timing_with_audio (st : State) : Prop :=
  any_timing_success st = true → any_audio_success st = true.

End Book.

(** ** The order in which candidates are tried *)

(** Audio candidates compared by their sort keys. *)
Definition audio_order (d1 d2 : Sorter.Metadata) : Prop :=
  Downloader.audio_key_le (Downloader.audio_priority d1)
                          (Downloader.audio_priority d2).

(** Text candidates compared by their sort keys. *)
Definition text_order (d1 d2 : Sorter.Metadata) : Prop :=
  Downloader.text_key_le (Downloader.text_priority d1)
                         (Downloader.text_priority d2).

(** * Properties *)

(** ** Facts about the string primitives *)

Section py_facts.
Import Py.

Lemma get_Some_of_length (n : nat) (s : string) :
  (n < String.length s)%nat → ∃ c, String.get n s = Some c.
Proof.
  revert n. induction s as [|a s IH]; intros n Hn; simpl in *; [lia|].
  destruct n as [|n]; [eauto|]. apply IH. lia.
Qed.

Lemma get_lt_length (n : nat) (s : string) (c : ascii) :
  String.get n s = Some c → (n < String.length s)%nat.
Proof.
  revert n. induction s as [|a s IH]; intros n Hn; simpl in *; [done|].
  destruct n as [|n]; [lia|]. apply IH in Hn. lia.
Qed.

Lemma app_cons a s t : String a s +:+ t = String a (s +:+ t).
Proof. reflexivity. Qed.

Lemma app_nil_l t : "" +:+ t = t.
Proof. reflexivity. Qed.

Lemma length_take n s :
  String.length (take n s) = n `min` String.length s.
Proof.
  revert s. induction n as [|n IH]; intros [|a s]; simpl; auto.
Qed.

Lemma length_drop n s :
  String.length (drop n s) = (String.length s - n)%nat.
Proof.
  revert s. induction n as [|n IH]; intros [|a s]; simpl; auto.
Qed.

Lemma length_app s t :
  String.length (s +:+ t) = (String.length s + String.length t)%nat.
Proof.
  induction s as [|a s IH]; [done|].
  rewrite app_cons. simpl. by rewrite IH.
Qed.

Lemma take_drop n s : take n s +:+ drop n s = s.
Proof.
  revert s. induction n as [|n IH]; intros [|a s]; simpl; auto.
  by rewrite app_cons, IH.
Qed.

Lemma take_all n s : (String.length s ≤ n)%nat → take n s = s.
Proof.
  revert s. induction n as [|n IH]; intros [|a s] Hn; simpl in *;
    auto; try lia.
  rewrite IH; [done | lia].
Qed.

Lemma drop_app_length s t : drop (String.length s) (s +:+ t) = t.
Proof.
  induction s as [|a s IH]; [by destruct t|].
  rewrite app_cons. simpl. apply IH.
Qed.

Lemma take_app_length s t : take (String.length s) (s +:+ t) = s.
Proof.
  induction s as [|a s IH]; [by destruct t|].
  rewrite app_cons. simpl. by rewrite IH.
Qed.

(** [endswith] holds exactly of the strings that are some prefix followed
    by the suffix, and [drop_last] then returns that prefix. *)
Lemma endswith_spec s suffix :
  endswith s suffix = true ↔ ∃ p, s = p +:+ suffix.
Proof.
  unfold endswith, take_last. rewrite andb_true_iff, bool_decide_eq_true.
  rewrite String.eqb_eq. split.
  - intros [Hlen Heq].
    exists (take (String.length s - String.length suffix) s).
    rewrite <- (take_drop (String.length s - String.length suffix) s) at 1.
    by rewrite Heq.
  - intros [p ->]. rewrite length_app.
    replace (String.length p + String.length suffix - String.length suffix)%nat
      with (String.length p) by lia.
    split; [lia | apply drop_app_length].
Qed.

Lemma drop_last_app p suffix :
  drop_last (String.length suffix) (p +:+ suffix) = p.
Proof.
  unfold drop_last. rewrite length_app.
  replace (String.length p + String.length suffix - String.length suffix)%nat
    with (String.length p) by lia.
  apply take_app_length.
Qed.
End py_facts.

(** ** Book-set resolution *)

Lemma mem_pair (x a b : string) :
  Py.mem x [a; b] = bool_decide (x = a ∨ x = b).
Proof.
  unfold Py.mem. apply bool_decide_ext.
  rewrite !elem_of_cons, elem_of_nil. tauto.
Qed.

Lemma size_signal_of_mem (size : string) :
  BookSetSpec.size_signal_of size =
    if Py.mem size ["C"; "NTOTP"] then BookSetSpec.SzFULL
    else if Py.mem size ["NT"; "NTP"] then BookSetSpec.SzNT
    else if Py.mem size ["OT"; "OTP"] then BookSetSpec.SzOT
    else BookSetSpec.SzNone.
Proof.
  unfold BookSetSpec.size_signal_of. rewrite !mem_pair.
  repeat case_decide; repeat case_bool_decide; done.
Qed.

Lemma determine_book_set_at (fileset_id size : string) (c : ascii) :
  String.get 6 fileset_id = Some c →
  Sorter.determine_book_set fileset_id size =
    BookSetSpec.reconcile (BookSetSpec.marker_of c)
                          (BookSetSpec.size_signal_of size).
Proof.
  intros Hget.
  assert (7 ≤ String.length fileset_id)%nat as Hlen.
  { apply get_lt_length in Hget. lia. }
  unfold Sorter.determine_book_set.
  destruct (decide (7 ≤ String.length fileset_id)%nat); [|lia].
  rewrite Hget, size_signal_of_mem.
  destruct (Py.mem size ["C"; "NTOTP"]), (Py.mem size ["NT"; "NTP"]),
    (Py.mem size ["OT"; "OTP"]);
    destruct c as [[] [] [] [] [] [] [] []]; reflexivity.
Qed.

(** C1. For identifiers of length at least 7, [determine_book_set] is the
    reconciliation table of the specification applied to the character at
    position 7 and to the size code; the marker [P] yields PARTIAL whatever
    the size; and identifier AAAMLTP1DA with size OT yields PARTIAL. *)
Theorem determine_book_set_reconciles :
  (∀ fileset_id size : string,
      (7 ≤ String.length fileset_id)%nat →
      ∃ c : ascii,
        String.get 6 fileset_id = Some c
        ∧ Sorter.determine_book_set fileset_id size =
            BookSetSpec.reconcile (BookSetSpec.marker_of c)
                                  (BookSetSpec.size_signal_of size))
  ∧ (∀ fileset_id size : string,
        String.get 6 fileset_id = Some "P"%char →
        Sorter.determine_book_set fileset_id size = "PARTIAL")
  ∧ Sorter.determine_book_set "AAAMLTP1DA" "OT" = "PARTIAL".
Proof.
  split; [|split].
  - intros fileset_id size Hlen.
    destruct (get_Some_of_length 6 fileset_id) as [c Hc]; [lia|].
    exists c. split; [done|]. by apply determine_book_set_at.
  - intros fileset_id size Hget.
    by rewrite (determine_book_set_at _ _ _ Hget).
  - reflexivity.
Qed.

Lemma determine_book_set_reconciles_witness :
  (7 ≤ String.length "AAAMLTN1DA")%nat
  ∧ ∃ c : ascii,
      String.get 6 "AAAMLTN1DA" = Some c
      ∧ Sorter.determine_book_set "AAAMLTN1DA" "" =
          BookSetSpec.reconcile (BookSetSpec.marker_of c)
                                (BookSetSpec.size_signal_of "").
Proof.
  assert (7 ≤ String.length "AAAMLTN1DA")%nat as H by (simpl; lia).
  split; [exact H|].
  exact (proj1 determine_book_set_reconciles "AAAMLTN1DA" "" H).
Defined.

Example determine_book_set_NT_scenario :
  Sorter.determine_book_set "AAAMLTN1DA" "" = "NT".
Proof. reflexivity. Qed.

(** ** The two suffix strippers *)

Section suffix_facts.
Import Py.

Lemma app_assoc_s (s t u : string) : (s +:+ t) +:+ u = s +:+ (t +:+ u).
Proof.
  induction s as [|a s IH]; [done|]. by rewrite !app_cons, IH.
Qed.

(** A string that ends with [a +:+ b] ends with [b]. *)
Lemma endswith_app_r (s a b : string) :
  endswith s (a +:+ b) = true → endswith s b = true.
Proof.
  rewrite !endswith_spec. intros [p ->]. exists (p +:+ a).
  by rewrite app_assoc_s.
Qed.

Lemma last_char_app (p t : string) :
  t ≠ "" → last_char (p +:+ t) = last_char t.
Proof.
  intros Ht. induction p as [|a p IH]; [done|].
  rewrite app_cons. simpl. rewrite IH.
  destruct (p +:+ t) eqn:E; [|done].
  destruct p, t; simplify_eq/=.
Qed.

Lemma endswith_last_char (s suffix : string) :
  suffix ≠ "" → endswith s suffix = true →
  last_char s = last_char suffix.
Proof.
  intros Hne [p ->]%endswith_spec. by apply last_char_app.
Qed.

(** Two suffixes with different last characters exclude each other. *)
Lemma endswith_exclusive (s x y : string) :
  x ≠ "" → y ≠ "" → last_char x ≠ last_char y →
  endswith s x = true → endswith s y = false.
Proof.
  intros Hx Hy Hxy Hsx. destruct (endswith s y) eqn:Hsy; [|done].
  apply endswith_last_char in Hsx, Hsy; congruence.
Qed.

Lemma endswith_length (s suffix : string) :
  endswith s suffix = true → (String.length suffix ≤ String.length s)%nat.
Proof. intros [p ->]%endswith_spec. rewrite length_app. lia. Qed.

Lemma length_drop_last (k : nat) (s : string) :
  String.length (drop_last k s) = (String.length s - k)%nat.
Proof. unfold drop_last. rewrite length_take. lia. Qed.
End suffix_facts.

Lemma normalize_unfold_sorter (s : string) :
  Sorter.normalize_fileset_id s =
    if Py.endswith s "-opus16" then Py.drop_last 7 s
    else if Py.endswith s "-opus32" then Py.drop_last 7 s
    else if Py.endswith s "-mp3" then Py.drop_last 4 s
    else if Py.endswith s "-64" then Py.drop_last 3 s
    else if Py.endswith s "-128" then Py.drop_last 4 s
    else if Py.endswith s "16" then Py.drop_last 2 s
    else s.
Proof.
  unfold Sorter.normalize_fileset_id, Sorter.suffixes.
  cbn [Sorter.strip_first_suffix].
  repeat (destruct (Py.endswith s _); [reflexivity|]). reflexivity.
Qed.

Lemma normalize_unfold_downloader (s : string) :
  Downloader.normalize_fileset_id s =
    if Py.endswith s "-opus16" then Py.drop_last 7 s
    else if Py.endswith s "-opus32" then Py.drop_last 7 s
    else if Py.endswith s "-mp3-64" then Py.drop_last 7 s
    else if Py.endswith s "-mp3-128" then Py.drop_last 8 s
    else if Py.endswith s "-mp3" then Py.drop_last 4 s
    else if Py.endswith s "-json" then Py.drop_last 5 s
    else if Py.endswith s "-usx" then Py.drop_last 4 s
    else s.
Proof.
  unfold Downloader.normalize_fileset_id, Downloader.audio_suffixes,
    Downloader.text_suffixes.
  cbn [Sorter.strip_first_suffix].
  repeat (destruct (Py.endswith s _); [reflexivity|]). reflexivity.
Qed.

(** C9, as stated, fails: on a text identifier with a format suffix only
    the orchestrator strips. *)
Lemma normalize_fileset_id_differ :
  ¬ (∀ fileset_id : string,
       Sorter.normalize_fileset_id fileset_id =
       Downloader.normalize_fileset_id fileset_id).
Proof.
  intros H. specialize (H "ENGESV_ET-json"). vm_compute in H. discriminate H.
Qed.

Example normalize_fileset_id_on_json :
  Sorter.normalize_fileset_id "ENGESV_ET-json" = "ENGESV_ET-json"
  ∧ Downloader.normalize_fileset_id "ENGESV_ET-json" = "ENGESV_ET".
Proof. split; reflexivity. Qed.

Example normalize_fileset_id_on_bitrate :
  Sorter.normalize_fileset_id "ENGESVN2DA16" = "ENGESVN2DA"
  ∧ Downloader.normalize_fileset_id "ENGESVN2DA16" = "ENGESVN2DA16"
  ∧ Sorter.normalize_fileset_id "ENGESVN2DA-mp3-64" = "ENGESVN2DA-mp3"
  ∧ Downloader.normalize_fileset_id "ENGESVN2DA-mp3-64" = "ENGESVN2DA".
Proof. repeat split; reflexivity. Qed.

(** C9, amended. The classifier's and the orchestrator's suffix strippers
    return the same base identifier for every identifier that ends with
    [-opus16], [-opus32] or [-mp3], and for every identifier that ends with
    none of [-64], [-128], [16], [-json], [-usx]. *)
Theorem normalize_fileset_id_agree (fileset_id : string) :
  common_suffix_domain fileset_id →
  Sorter.normalize_fileset_id fileset_id =
  Downloader.normalize_fileset_id fileset_id.
Proof.
  intros Hdom.
  rewrite normalize_unfold_sorter, normalize_unfold_downloader.
  destruct (Py.endswith fileset_id "-opus16") eqn:E1; [done|].
  destruct (Py.endswith fileset_id "-opus32") eqn:E2; [done|].
  destruct (Py.endswith fileset_id "-mp3") eqn:E3.
  - rewrite (endswith_exclusive fileset_id "-mp3" "-mp3-64") by done.
    by rewrite (endswith_exclusive fileset_id "-mp3" "-mp3-128") by done.
  - destruct Hdom as [?|[?|[?|(H64 & H128 & H16 & Hjson & Husx)]]];
      [congruence..|].
    rewrite H64, H128, H16, Hjson, Husx.
    destruct (Py.endswith fileset_id "-mp3-64") eqn:E4.
    { apply (endswith_app_r _ "-mp3" "-64") in E4. congruence. }
    destruct (Py.endswith fileset_id "-mp3-128") eqn:E5.
    { apply (endswith_app_r _ "-mp3" "-128") in E5. congruence. }
    done.
Qed.

Lemma normalize_fileset_id_agree_witness :
  common_suffix_domain "ENGWEBN1DA-opus16"
  ∧ Sorter.normalize_fileset_id "ENGWEBN1DA-opus16" =
    Downloader.normalize_fileset_id "ENGWEBN1DA-opus16".
Proof.
  assert (common_suffix_domain "ENGWEBN1DA-opus16") as H
    by (left; reflexivity).
  split; [exact H|].
  exact (normalize_fileset_id_agree "ENGWEBN1DA-opus16" H).
Defined.

(** Outside that domain the two functions return different strings, so the
    domain above is exactly where they agree. *)
Lemma normalize_fileset_id_disagree (fileset_id : string) :
  ¬ common_suffix_domain fileset_id →
  Sorter.normalize_fileset_id fileset_id ≠
  Downloader.normalize_fileset_id fileset_id.
Proof.
  intros Hdom Heq. apply Hdom. clear Hdom. unfold common_suffix_domain.
  rewrite normalize_unfold_sorter, normalize_unfold_downloader in Heq.
  destruct (Py.endswith fileset_id "-opus16") eqn:E1; [auto|].
  destruct (Py.endswith fileset_id "-opus32") eqn:E2; [auto|].
  destruct (Py.endswith fileset_id "-mp3") eqn:E3; [auto|].
  do 3 right.
  apply (f_equal String.length) in Heq.
  assert (Py.endswith fileset_id "-128" = true →
          Py.endswith fileset_id "-usx" = false) as Hx
    by (by apply endswith_exclusive).
  assert (Py.endswith fileset_id "-mp3-64" = true →
          Py.endswith fileset_id "-64" = true) as H4
    by apply (endswith_app_r _ "-mp3" "-64").
  assert (Py.endswith fileset_id "-mp3-128" = true →
          Py.endswith fileset_id "-128" = true) as H5
    by apply (endswith_app_r _ "-mp3" "-128").
  destruct (Py.endswith fileset_id "-64") eqn:E64;
    destruct (Py.endswith fileset_id "-128") eqn:E128;
    destruct (Py.endswith fileset_id "16") eqn:E16;
    destruct (Py.endswith fileset_id "-mp3-64") eqn:E4;
    destruct (Py.endswith fileset_id "-mp3-128") eqn:E5;
    destruct (Py.endswith fileset_id "-json") eqn:Ej;
    destruct (Py.endswith fileset_id "-usx") eqn:Eu;
    try done; try (by specialize (Hx eq_refl));
    try (by specialize (H4 eq_refl)); try (by specialize (H5 eq_refl));
    rewrite ?length_drop_last in Heq;
    repeat match goal with
    | H : Py.endswith _ _ = true |- _ =>
        apply endswith_length in H; simpl in H
    end;
    lia.
Qed.

(** ** The dramatization filter *)

Section grouping.
Import Sorter.

Lemma elem_of_group_append k v g k' vs' :
  (k', vs') ∈ group_append k v g →
  (k' = k ∧ vs' = [v] ∧ k ∉ g.*1)
  ∨ (k' = k ∧ ∃ vs, (k, vs) ∈ g ∧ vs' = vs ++ [v])
  ∨ (k', vs') ∈ g.
Proof.
  induction g as [|[k0 vs0] g IH]; simpl.
  - rewrite list_elem_of_singleton. intros [= -> ->]. left.
    split_and!; [done..|]. apply not_elem_of_nil.
  - case_decide as Hk; subst; rewrite !elem_of_cons.
    + intros [[= -> ->]|Hin]; [|by auto].
      right; left. split; [done|]. exists vs0. split; [|done].
      apply elem_of_cons. by left.
    + intros [[= -> ->]|Hin]; [by auto|].
      destruct (IH Hin) as [(-> & -> & Hni)|[(-> & vs & Hvs & ->)|Hg]].
      * left. split_and!; [done..|]. simpl. intros [?|?]; [congruence|done].
      * right; left. split; [done|]. exists vs. split; [|done].
        apply elem_of_cons. by right.
      * auto.
Qed.

Lemma group_append_keys k v g :
  (group_append k v g).*1 = if decide (k ∈ g.*1) then g.*1 else g.*1 ++ [k].
Proof.
  induction g as [|[k0 vs0] g IH]; [done|].
  cbn [group_append]. rewrite fmap_cons. cbn [fst].
  destruct (decide (k0 = k)) as [->|Hk].
  - rewrite fmap_cons. cbn [fst].
    destruct (decide (k ∈ k :: g.*1)) as [|Hni]; [done|].
    exfalso. apply Hni, elem_of_cons. by left.
  - rewrite fmap_cons, IH. cbn [fst].
    destruct (decide (k ∈ g.*1)) as [Hin|Hni];
      destruct (decide (k ∈ k0 :: g.*1)) as [Hin'|Hni']; try done.
    + exfalso. apply Hni', elem_of_cons. by right.
    + apply elem_of_cons in Hin' as [?|?]; congruence.
Qed.

Lemma group_append_old k v g k' vs' :
  (k', vs') ∈ g → k' ≠ k → (k', vs') ∈ group_append k v g.
Proof.
  induction g as [|[k0 vs0] g IH]; simpl; [by rewrite elem_of_nil|].
  rewrite elem_of_cons. intros [[= -> ->]|Hin] Hne.
  - destruct (decide (k0 = k)); [done|]. apply elem_of_cons; auto.
  - case_decide; apply elem_of_cons; auto.
Qed.

Lemma group_append_grown k v g vs :
  (k, vs) ∈ g → NoDup g.*1 → (k, vs ++ [v]) ∈ group_append k v g.
Proof.
  induction g as [|[k0 vs0] g IH]; [by rewrite elem_of_nil|].
  rewrite fmap_cons, elem_of_cons, NoDup_cons. cbn [fst group_append].
  intros [[= -> ->]|Hin] [Hni Hnd].
  - destruct (decide (k0 = k0)); [|done]. apply elem_of_cons; auto.
  - destruct (decide (k0 = k)) as [->|Hk].
    + exfalso. apply Hni. apply list_elem_of_fmap. by exists (k, vs).
    + apply elem_of_cons; auto.
Qed.

Lemma group_append_new k v g :
  k ∉ g.*1 → (k, [v]) ∈ group_append k v g.
Proof.
  induction g as [|[k0 vs0] g IH];
    [intros; apply list_elem_of_singleton; done|].
  rewrite fmap_cons, not_elem_of_cons. cbn [fst group_append].
  intros [Hne Hni].
  destruct (decide (k0 = k)); [congruence|]. apply elem_of_cons; auto.
Qed.

Lemma groups_of_nil : groups_of [] [].
Proof.
  split.
  - intros k vs x Hin. by apply elem_of_nil in Hin.
  - intros x Hin. by apply elem_of_nil in Hin.
  - constructor.
Qed.

Lemma groups_of_step seen g x :
  groups_of seen g → groups_of (seen ++ [x]) (group_step g x).
Proof.
  intros [Hs Hc Hk]. unfold group_step.
  destruct (decide (3 ≤ String.length x)%nat) as [Hlen|Hlen].
  - split.
    + intros k vs y Hin Hy.
      apply elem_of_group_append in Hin
        as [(-> & -> & _)|[(-> & vs0 & Hvs0 & ->)|Hin]].
      * apply list_elem_of_singleton in Hy as ->.
        rewrite elem_of_app, list_elem_of_singleton. auto.
      * apply elem_of_app in Hy as [Hy|Hy].
        -- destruct (Hs _ _ _ Hvs0 Hy) as (? & ? & ?).
           rewrite elem_of_app. auto.
        -- apply list_elem_of_singleton in Hy as ->.
           rewrite elem_of_app, list_elem_of_singleton. auto.
      * destruct (Hs _ _ _ Hin Hy) as (? & ? & ?).
        rewrite elem_of_app. auto.
    + intros y Hy Hylen. apply elem_of_app in Hy as [Hy|Hy].
      * destruct (Hc y Hy Hylen) as (vs & Hvs & Hyvs).
        destruct (decide (base_key y = base_key x)) as [Heq|Hne].
        -- exists (vs ++ [x]). split.
           ++ rewrite Heq in *. by apply group_append_grown.
           ++ apply elem_of_app. by left.
        -- exists vs. split; [|done]. by apply group_append_old.
      * apply list_elem_of_singleton in Hy as ->.
        destruct (decide (base_key x ∈ g.*1)) as [Hin|Hni].
        -- apply list_elem_of_fmap in Hin as ([k vs] & Hk1 & Hin).
           simpl in Hk1. subst k. exists (vs ++ [x]). split.
           ++ by apply group_append_grown.
           ++ apply elem_of_app. right. by apply list_elem_of_singleton.
        -- exists [x]. split; [by apply group_append_new|].
           by apply list_elem_of_singleton.
    + rewrite group_append_keys. case_decide as Hin; [done|].
      apply NoDup_app. split_and!; [done| |apply NoDup_singleton].
      intros k Hk1 ->%list_elem_of_singleton. done.
  - split.
    + intros k vs y Hin Hy. destruct (Hs _ _ _ Hin Hy) as (? & ? & ?).
      rewrite elem_of_app. auto.
    + intros y Hy Hylen. apply elem_of_app in Hy as [Hy|Hy]; [by apply Hc|].
      apply list_elem_of_singleton in Hy as ->. lia.
    + done.
Qed.

Lemma groups_of_base_groups (filesets : list string) :
  groups_of filesets (base_groups_of filesets).
Proof.
  unfold base_groups_of.
  induction filesets as [|x l IH] using rev_ind; [apply groups_of_nil|].
  rewrite foldl_app. simpl. by apply groups_of_step.
Qed.

Lemma NoDup_fst_functional {A B} (l : list (A * B)) k v1 v2 :
  NoDup l.*1 → (k, v1) ∈ l → (k, v2) ∈ l → v1 = v2.
Proof.
  induction l as [|[k0 v0] l IH]; [by rewrite elem_of_nil|].
  rewrite fmap_cons, NoDup_cons, !elem_of_cons. cbn [fst].
  intros [Hni Hnd] [H1|H1] [H2|H2]; simplify_eq; auto.
  - destruct Hni. apply list_elem_of_fmap. by eexists (_, v2).
  - destruct Hni. apply list_elem_of_fmap. by eexists (_, v1).
Qed.

Lemma is_version_length v x : is_version v x = true → (3 ≤ String.length x)%nat.
Proof.
  unfold is_version. rewrite andb_true_iff, bool_decide_eq_true. tauto.
Qed.

Lemma elem_of_filter_group x vs :
  x ∈ filter_group vs ↔
    x ∈ vs ∧ ¬ (is_version "2" x = true
                ∧ ∃ y, y ∈ vs ∧ is_version "1" y = true).
Proof.
  unfold filter_group.
  destruct (existsb (is_version "1") vs) eqn:H1; simpl.
  - apply existsb_exists in H1 as (y & Hy%list_elem_of_In & Hy1).
    case_bool_decide as H2; simpl.
    + split; [|tauto]. intros Hx. split; [done|]. intros [Hx2 _].
      apply (filter_nil_not_elem_of _ _ x H2); [|done].
      by apply Is_true_true.
    + rewrite list_elem_of_filter, list_elem_of_filter.
      rewrite Is_true_true. split.
      * intros [Hn Hx]. split; [done|]. intros [Hx2 _]. auto.
      * intros [Hx Hn]. split; [|done]. intros [Hx2 _]. apply Hn.
        split; [done|]. by exists y.
  - split; [|tauto]. intros Hx. split; [done|].
    intros (_ & y & Hy & Hy1).
    assert (existsb (is_version "1") vs = true) as Hex; [|congruence].
    apply existsb_exists. exists y. by rewrite <- list_elem_of_In.
Qed.

Lemma elem_of_filter_dramatized_versions (filesets : list string) x :
  x ∈ filter_dramatized_versions filesets ↔
    x ∈ filesets ∧ (3 ≤ String.length x)%nat
    ∧ ¬ (is_version "2" x = true
         ∧ ∃ y, y ∈ filesets ∧ is_version "1" y = true
                ∧ base_key y = base_key x).
Proof.
  destruct (groups_of_base_groups filesets) as [Hs Hc Hk].
  unfold filter_dramatized_versions. rewrite list_elem_of_bind. split.
  - intros ([k vs] & Hx & Hin). simpl in Hx.
    apply elem_of_filter_group in Hx as [Hx Hn].
    destruct (Hs _ _ _ Hin Hx) as (Hxl & Hlen & Hkey).
    split_and!; [done..|]. intros (Hx2 & y & Hy & Hy1 & Hyk).
    apply Hn. split; [done|]. exists y. split; [|done].
    destruct (Hc y Hy (is_version_length _ _ Hy1)) as (vs' & Hvs' & Hyvs').
    rewrite Hyk, Hkey in Hvs'.
    by rewrite (NoDup_fst_functional _ _ _ _ Hk Hin Hvs').
  - intros (Hx & Hlen & Hn).
    destruct (Hc x Hx Hlen) as (vs & Hvs & Hxvs).
    exists (base_key x, vs). split; [|done]. simpl.
    apply elem_of_filter_group. split; [done|].
    intros (Hx2 & y & Hy & Hy1). apply Hn. split; [done|].
    exists y. destruct (Hs _ _ _ Hvs Hy) as (? & ? & ?). auto.
Qed.
End grouping.

Lemma filter_dramatized_versions_subset (filesets : list string) (x : string) :
  x ∈ Sorter.filter_dramatized_versions filesets → x ∈ filesets.
Proof. rewrite elem_of_filter_dramatized_versions. tauto. Qed.

(** C6. The dramatization filter is idempotent as a set transformation:
    filtering its own output yields the same set of identifiers. *)
Theorem filter_dramatized_versions_idempotent (filesets : list string) :
  list_to_set (Sorter.filter_dramatized_versions
                 (Sorter.filter_dramatized_versions filesets))
  =@{gset string} list_to_set (Sorter.filter_dramatized_versions filesets).
Proof.
  apply set_eq. intros x. rewrite !elem_of_list_to_set.
  rewrite (elem_of_filter_dramatized_versions
             (Sorter.filter_dramatized_versions filesets)).
  split; [tauto|]. intros Hx. split; [done|].
  pose proof Hx as (Hin & Hlen & Hn)%elem_of_filter_dramatized_versions.
  split; [done|]. intros (Hx2 & y & Hy & Hy1 & Hyk). apply Hn.
  split; [done|]. exists y.
  apply filter_dramatized_versions_subset in Hy. auto.
Qed.

(** C10. The dramatization filter drops every identifier shorter than three
    characters, whether or not a dramatized variant of it exists; only
    identifiers of length at least three appear in its result. *)
Theorem filter_dramatized_versions_drops_short :
  (∀ (filesets : list string) (x : string),
      (String.length x < 3)%nat →
      x ∉ Sorter.filter_dramatized_versions filesets)
  ∧ (∀ (filesets : list string) (x : string),
        x ∈ Sorter.filter_dramatized_versions filesets →
        (3 ≤ String.length x)%nat)
  ∧ Sorter.filter_dramatized_versions ["ab"] = [].
Proof.
  split_and!.
  - intros filesets x Hlen (_ & ? & _)%elem_of_filter_dramatized_versions. lia.
  - by intros filesets x (_ & ? & _)%elem_of_filter_dramatized_versions.
  - reflexivity.
Qed.

Lemma filter_dramatized_versions_drops_short_witness :
  (String.length "ab" < 3)%nat
  ∧ ("ab" ∉ Sorter.filter_dramatized_versions ["ab"; "ENGWEBN1DA"])
  ∧ "ENGWEBN1DA" ∈ Sorter.filter_dramatized_versions ["ab"; "ENGWEBN1DA"]
  ∧ (3 ≤ String.length "ENGWEBN1DA")%nat.
Proof.
  assert (String.length "ab" < 3)%nat as H1 by (simpl; lia).
  assert ("ENGWEBN1DA" ∈ Sorter.filter_dramatized_versions ["ab"; "ENGWEBN1DA"])
    as H2 by (vm_compute; apply list_elem_of_here).
  split_and!; [exact H1| |exact H2|].
  - exact (proj1 filter_dramatized_versions_drops_short _ _ H1).
  - exact (proj1 (proj2 filter_dramatized_versions_drops_short) _ _ H2).
Defined.

(** ** Prefix matching *)

Lemma prefix_match_iff (audio_fileset_id text_id : string) :
  Sorter.prefix_match audio_fileset_id text_id ↔
    Py.take (7 `min` String.length text_id) audio_fileset_id =
    Py.take (7 `min` String.length text_id) text_id.
Proof.
  unfold Sorter.prefix_match. cbn zeta. split; [tauto|].
  intros Heq. split; [|done].
  apply (f_equal String.length) in Heq. rewrite !length_take in Heq. lia.
Qed.

Lemma sorted_Permutation (xs : list string) : Py.sorted xs ≡ₚ xs.
Proof. apply merge_sort_Permutation. Qed.

Lemma sorted_Sorted (xs : list string) : Sorted String.le (Py.sorted xs).
Proof. apply (Sorted_merge_sort String.le). Qed.

(** C3, as stated, fails: an audio identifier of five characters shares its
    first five characters with a text identifier of length five and yet
    matches nothing. *)
Lemma match_audio_to_text_short_audio :
  ¬ (∀ (audio_fileset_id text_id : string) (text_filesets : list string),
       text_id ∈ text_filesets →
       (text_id ∈ Sorter.match_audio_to_text audio_fileset_id text_filesets ↔
          Py.take (7 `min` String.length text_id) audio_fileset_id =
          Py.take (7 `min` String.length text_id) text_id)).
Proof.
  intros H.
  destruct (H "ENGWE" "ENGWE" ["ENGWE"]) as [_ Hmatch];
    [apply list_elem_of_here|].
  specialize (Hmatch eq_refl). vm_compute in Hmatch.
  by apply elem_of_nil in Hmatch.
Qed.

(** C3, amended. For an audio identifier of at least six characters, a text
    identifier of the list matches exactly when the two agree on the prefix
    of length min(7, length of the text identifier); every match is kept,
    the result is sorted, and a text identifier of length five matches every
    such audio identifier that starts with it. An audio identifier shorter
    than six characters matches nothing. *)
Theorem match_audio_to_text_prefix
    (audio_fileset_id : string) (text_filesets : list string) :
  ((6 ≤ String.length audio_fileset_id)%nat →
     (∀ text_id : string,
         text_id ∈ Sorter.match_audio_to_text audio_fileset_id text_filesets ↔
           text_id ∈ text_filesets
           ∧ Py.take (7 `min` String.length text_id) audio_fileset_id =
             Py.take (7 `min` String.length text_id) text_id)
     ∧ Sorter.match_audio_to_text audio_fileset_id text_filesets ≡ₚ
         filter (λ text_id,
                   Py.take (7 `min` String.length text_id) audio_fileset_id =
                   Py.take (7 `min` String.length text_id) text_id)
                text_filesets
     ∧ (∀ text_id : string,
           text_id ∈ text_filesets →
           String.length text_id = 5 →
           Py.take 5 audio_fileset_id = text_id →
           text_id ∈ Sorter.match_audio_to_text audio_fileset_id text_filesets))
  ∧ ((String.length audio_fileset_id < 6)%nat →
       Sorter.match_audio_to_text audio_fileset_id text_filesets = [])
  ∧ Sorted String.le
      (Sorter.match_audio_to_text audio_fileset_id text_filesets).
Proof.
  unfold Sorter.match_audio_to_text.
  destruct (decide (String.length audio_fileset_id < 6)%nat) as [Hlt|Hge].
  - split_and!; [lia|done|constructor].
  - split_and!; [intros _|lia|apply sorted_Sorted].
    assert (∀ t, t ∈ Py.sorted (filter (Sorter.prefix_match audio_fileset_id)
                                        text_filesets) ↔
                 t ∈ text_filesets
                 ∧ Py.take (7 `min` String.length t) audio_fileset_id =
                   Py.take (7 `min` String.length t) t) as Hmem.
    { intros t. rewrite sorted_Permutation, list_elem_of_filter.
      rewrite prefix_match_iff. tauto. }
    split_and!.
    + exact Hmem.
    + rewrite sorted_Permutation.
      by rewrite (list_filter_iff _ _ _ (prefix_match_iff audio_fileset_id)).
    + intros t Ht Hlen Hpre. apply Hmem. split; [done|].
      rewrite Hlen. change (7 `min` 5) with 5. rewrite Hpre.
      symmetry. apply take_all. lia.
Qed.

Lemma match_audio_to_text_prefix_witness :
  (6 ≤ String.length "ENGWEBN1DA")%nat
  ∧ "ENGWE" ∈ ["ENGWEBN_ET"; "ENGWE"]
  ∧ String.length "ENGWE" = 5
  ∧ Py.take 5 "ENGWEBN1DA" = "ENGWE"
  ∧ "ENGWE" ∈ Sorter.match_audio_to_text "ENGWEBN1DA" ["ENGWEBN_ET"; "ENGWE"]
  ∧ (String.length "ENGWE" < 6)%nat
  ∧ Sorter.match_audio_to_text "ENGWE" ["ENGWE"] = [].
Proof.
  assert (6 ≤ String.length "ENGWEBN1DA")%nat as H1 by (simpl; lia).
  assert ("ENGWE" ∈ ["ENGWEBN_ET"; "ENGWE"]) as H2
    by (apply list_elem_of_further, list_elem_of_here).
  assert (String.length "ENGWE" = 5) as H3 by reflexivity.
  assert (Py.take 5 "ENGWEBN1DA" = "ENGWE") as H4 by reflexivity.
  assert (String.length "ENGWE" < 6)%nat as H5 by (simpl; lia).
  split_and!; [exact H1|exact H2|exact H3|exact H4| |exact H5|].
  - exact (proj2 (proj2 (proj1
             (match_audio_to_text_prefix "ENGWEBN1DA" ["ENGWEBN_ET"; "ENGWE"])
             H1)) "ENGWE" H2 H3 H4).
  - exact (proj1 (proj2 (match_audio_to_text_prefix "ENGWE" ["ENGWE"])) H5).
Defined.

(** ** Syncable pairs and timing *)

Section syncable.
Import Sorter.
Variable timing_filesets : gset string.

Lemma elem_of_compute_syncable_pairs (lang_data : LangData) (pair : SyncPair) :
  pair ∈ compute_syncable_pairs timing_filesets lang_data →
  audio_fileset_id pair ∈ audio_filesets lang_data
  ∧ (normalize_fileset_id (audio_fileset_id pair) ∉ timing_filesets)
  ∧ text_fileset_id pair =
      match_audio_to_text (audio_fileset_id pair) (text_filesets lang_data)
  ∧ text_fileset_id pair ≠ [].
Proof.
  unfold compute_syncable_pairs. rewrite list_elem_of_bind.
  intros (audio_id & Hpair & Hin). cbn zeta in Hpair.
  apply filter_dramatized_versions_subset in Hin.
  apply list_elem_of_filter in Hin as [Hnt Hin].
  destruct (match_audio_to_text audio_id (text_filesets lang_data))
    as [|t ts] eqn:Hm; [by apply elem_of_nil in Hpair|].
  apply list_elem_of_singleton in Hpair as ->. simpl.
  by rewrite Hm.
Qed.

Lemma is_syncable_true (fileset_id : string) (pairs : list SyncPair) :
  is_syncable fileset_id pairs = true ↔
    ∃ pair, pair ∈ pairs ∧ audio_fileset_id pair = fileset_id.
Proof.
  unfold is_syncable. rewrite existsb_exists.
  setoid_rewrite bool_decide_eq_true. by setoid_rewrite list_elem_of_In.
Qed.
End syncable.

(** C2. No pair computed by [compute_syncable_pairs] has an audio side whose
    normalized identifier is in the timing set; hence a fileset whose
    metadata carries [has_timing = true], which [create_metadata] decides
    with the same normalization and the same set, is the audio side of no
    syncable pair of its language and is not marked syncable. *)
Theorem has_timing_excludes_syncable :
  (∀ (timing_filesets : gset string) (lang_data : Sorter.LangData)
     (pair : Sorter.SyncPair),
      pair ∈ Sorter.compute_syncable_pairs timing_filesets lang_data →
      Sorter.normalize_fileset_id (Sorter.audio_fileset_id pair)
        ∉ timing_filesets)
  ∧ (∀ (timing_filesets : gset string) (detail : Sorter.FilesetDetail)
       (syncable_pairs : list Sorter.SyncPair),
        Sorter.has_timing
          (Sorter.create_metadata timing_filesets detail syncable_pairs) =
        bool_decide (Sorter.normalize_fileset_id (Sorter.d_id detail)
                       ∈ timing_filesets))
  ∧ (∀ (timing_filesets : gset string) (lang_data : Sorter.LangData)
       (detail : Sorter.FilesetDetail),
        let syncable_pairs :=
          Sorter.compute_syncable_pairs timing_filesets lang_data in
        let metadata :=
          Sorter.create_metadata timing_filesets detail syncable_pairs in
        Sorter.has_timing metadata = true →
        (∀ pair : Sorter.SyncPair,
            pair ∈ syncable_pairs →
            Sorter.audio_fileset_id pair ≠ Sorter.fs_id metadata)
        ∧ Sorter.syncable metadata = false
        ∧ Sorter.audio_text_pairs metadata = []
        ∧ (Sorter.has_audio metadata = true →
           Sorter.data_source metadata = Some "timing")).
Proof.
  split_and!.
  - intros timing_filesets lang_data pair Hpair.
    by apply elem_of_compute_syncable_pairs in Hpair as (_ & ? & _).
  - done.
  - intros timing_filesets lang_data detail syncable_pairs metadata Htiming.
    simpl in Htiming. apply bool_decide_eq_true in Htiming.
    assert (∀ pair, pair ∈ syncable_pairs →
                    Sorter.audio_fileset_id pair ≠ Sorter.d_id detail) as Hno.
    { intros pair Hpair Heq.
      apply elem_of_compute_syncable_pairs in Hpair as (_ & Hnt & _).
      by rewrite Heq in Hnt. }
    assert (Sorter.is_syncable (Sorter.d_id detail) syncable_pairs = false)
      as Hsync.
    { apply not_true_iff_false. intros (pair & Hpair & Heq)%is_syncable_true.
      by apply (Hno pair). }
    subst metadata. simpl. rewrite Hsync, andb_false_r.
    split_and!; [done..|].
    intros ->. unfold Sorter.determine_data_source. simpl.
    by rewrite bool_decide_eq_true_2.
Qed.

Lemma has_timing_excludes_syncable_witness :
  let timing_filesets : gset string := {["ENGWEBN1DA"]} in
  let lang_data :=
    {| Sorter.audio_filesets := ["ENGWEBN1DA-opus16"; "ENGKJVN1DA"];
       Sorter.text_filesets := ["ENGWEBN_ET"; "ENGKJVN_ET"] |} in
  let detail :=
    {| Sorter.d_id := "ENGWEBN1DA-opus16"; Sorter.d_type := "audio";
       Sorter.d_size := "NT"; Sorter.d_abbr := "ENGWEB";
       Sorter.d_name := "World English Bible"; Sorter.d_book_set := "NT" |} in
  let syncable_pairs :=
    Sorter.compute_syncable_pairs timing_filesets lang_data in
  let metadata :=
    Sorter.create_metadata timing_filesets detail syncable_pairs in
  Sorter.has_timing metadata = true
  ∧ Sorter.syncable metadata = false
  ∧ syncable_pairs =
      [ {| Sorter.audio_fileset_id := "ENGKJVN1DA";
           Sorter.text_fileset_id := ["ENGKJVN_ET"] |} ]
  ∧ (Sorter.normalize_fileset_id "ENGKJVN1DA" ∉ timing_filesets).
Proof.
  intros timing_filesets lang_data detail syncable_pairs metadata.
  assert (Sorter.has_timing metadata = true) as H1 by (by vm_compute).
  assert (syncable_pairs =
      [ {| Sorter.audio_fileset_id := "ENGKJVN1DA";
           Sorter.text_fileset_id := ["ENGKJVN_ET"] |} ]) as H2
    by (by vm_compute).
  split_and!; [exact H1| |exact H2|].
  - exact (proj1 (proj2 (proj2 (proj2 has_timing_excludes_syncable)
             timing_filesets lang_data detail H1))).
  - refine (proj1 has_timing_excludes_syncable timing_filesets lang_data
              {| Sorter.audio_fileset_id := "ENGKJVN1DA";
                 Sorter.text_fileset_id := ["ENGKJVN_ET"] |} _).
    fold syncable_pairs. rewrite H2. apply list_elem_of_here.
Defined.

(** C8. With audio identifiers ENGWEBN1DA and ENGWEBN2DA, neither of them
    timing-capable, and the single text identifier ENGWEBN_ET, the
    dramatization filter keeps only ENGWEBN1DA, the length-7 prefix ENGWEBN
    matches, and [compute_syncable_pairs] returns exactly the pair
    (ENGWEBN1DA, ENGWEBN_ET). *)
Theorem compute_syncable_pairs_scenario (timing_filesets : gset string) :
  Sorter.normalize_fileset_id "ENGWEBN1DA" ∉ timing_filesets →
  Sorter.normalize_fileset_id "ENGWEBN2DA" ∉ timing_filesets →
  Sorter.filter_dramatized_versions ["ENGWEBN1DA"; "ENGWEBN2DA"] =
    ["ENGWEBN1DA"]
  ∧ Py.take 7 "ENGWEBN_ET" = "ENGWEBN"
  ∧ Py.take 7 "ENGWEBN1DA" = "ENGWEBN"
  ∧ Sorter.match_audio_to_text "ENGWEBN1DA" ["ENGWEBN_ET"] = ["ENGWEBN_ET"]
  ∧ Sorter.compute_syncable_pairs timing_filesets
      {| Sorter.audio_filesets := ["ENGWEBN1DA"; "ENGWEBN2DA"];
         Sorter.text_filesets := ["ENGWEBN_ET"] |} =
    [ {| Sorter.audio_fileset_id := "ENGWEBN1DA";
         Sorter.text_fileset_id := ["ENGWEBN_ET"] |} ].
Proof.
  intros H1 H2. split_and!; [reflexivity..|].
  unfold Sorter.compute_syncable_pairs. cbn [Sorter.audio_filesets].
  rewrite filter_cons_True by done.
  rewrite filter_cons_True by done.
  rewrite filter_nil. reflexivity.
Qed.

Lemma compute_syncable_pairs_scenario_witness :
  (Sorter.normalize_fileset_id "ENGWEBN1DA" ∉ (∅ : gset string))
  ∧ (Sorter.normalize_fileset_id "ENGWEBN2DA" ∉ (∅ : gset string))
  ∧ Sorter.compute_syncable_pairs ∅
      {| Sorter.audio_filesets := ["ENGWEBN1DA"; "ENGWEBN2DA"];
         Sorter.text_filesets := ["ENGWEBN_ET"] |} =
    [ {| Sorter.audio_fileset_id := "ENGWEBN1DA";
         Sorter.text_fileset_id := ["ENGWEBN_ET"] |} ].
Proof.
  assert (Sorter.normalize_fileset_id "ENGWEBN1DA" ∉ (∅ : gset string)) as H1
    by apply not_elem_of_empty.
  assert (Sorter.normalize_fileset_id "ENGWEBN2DA" ∉ (∅ : gset string)) as H2
    by apply not_elem_of_empty.
  split_and!; [exact H1|exact H2|].
  exact (proj2 (proj2 (proj2 (proj2
           (compute_syncable_pairs_scenario ∅ H1 H2))))).
Defined.

(** ** Candidate selection *)

Section candidates.
Import Sorter Downloader.

Lemma covers_book_iff (book_set book_id : string) :
  covers_book book_set (is_book book_id OT_BOOKS) = true ↔
    scope_covers book_set book_id.
Proof.
  unfold covers_book, scope_covers, is_book.
  destruct (decide (book_set = "FULL")) as [Hf|Hf]; [split; auto|].
  destruct (bool_decide (book_id ∈ OT_BOOKS.*1)) eqn:Hb;
    [apply bool_decide_eq_true in Hb | apply bool_decide_eq_false in Hb];
    repeat case_bool_decide; simpl; intuition congruence.
Qed.

Lemma is_candidate_iff has_type excl book_id fileset_id data :
  is_candidate has_type excl (is_book book_id OT_BOOKS) fileset_id data
    = true ↔
    has_type data = true
    ∧ (fileset_id ∉ sa_versions excl)
    ∧ (fileset_id ∉ story_adaptations excl)
    ∧ scope_covers (book_set data) book_id.
Proof.
  unfold is_candidate. rewrite <- covers_book_iff.
  destruct (has_type data); simpl; [|intuition congruence].
  repeat case_bool_decide; intuition congruence.
Qed.

Lemma elem_of_select has_type excl metadata book_id data :
  data ∈ select has_type excl metadata book_id ↔
    ∃ fileset_id, metadata !! fileset_id = Some data
      ∧ has_type data = true
      ∧ (fileset_id ∉ sa_versions excl)
      ∧ (fileset_id ∉ story_adaptations excl)
      ∧ scope_covers (book_set data) book_id.
Proof.
  unfold select. cbn zeta. rewrite list_elem_of_fmap. split.
  - intros ([k d] & -> & Hin). apply list_elem_of_filter in Hin as [Hc Hin].
    apply elem_of_map_to_list in Hin. simpl in *.
    apply Is_true_true, is_candidate_iff in Hc. exists k. tauto.
  - intros (k & Hk & Hc). exists (k, data). split; [done|].
    apply list_elem_of_filter. split; [|by apply elem_of_map_to_list].
    simpl. apply Is_true_true, is_candidate_iff. tauto.
Qed.

Lemma elem_of_get_audio_filesets excl metadata book_id data :
  data ∈ get_audio_filesets excl metadata book_id ↔
    data ∈ select has_audio excl metadata book_id.
Proof. unfold get_audio_filesets. by rewrite merge_sort_Permutation. Qed.

Lemma elem_of_get_text_filesets excl metadata book_id data :
  data ∈ get_text_filesets excl metadata book_id ↔
    data ∈ select has_text excl metadata book_id.
Proof. unfold get_text_filesets. by rewrite merge_sort_Permutation. Qed.

Lemma canonical_book_testament (book_id : string) :
  book_id ∈ ALL_BOOKS.*1 →
  (book_id ∉ OT_BOOKS.*1 ↔ book_id ∈ NT_BOOKS.*1).
Proof.
  unfold ALL_BOOKS. rewrite fmap_app, elem_of_app. intros Hall. split.
  - tauto.
  - assert (Forall (λ b, b ∉ OT_BOOKS.*1) NT_BOOKS.*1) as Hdisjoint
      by (apply (bool_decide_unpack _); vm_compute; exact I).
    rewrite Forall_forall in Hdisjoint. apply Hdisjoint.
Qed.
End candidates.

(** ** One chapter: effects of the loop bodies *)

Section effects.
Import Sorter Downloader Trace.
Variable w : World.
Variable metadata : gmap string Metadata.
Variable force : bool.

Lemma subseteq_leave (l : list File) (f : File) :
  l `prefix_of` (if decide (f ∈ l) then l else l ++ [f]).
Proof. case_decide; [done|]. by apply prefix_app_r. Qed.

Ltac branches :=
  repeat (case_decide || case_match); simplify_eq/=;
  repeat match goal with
  | |- context [if ?b then _ else _] =>
      match type of b with bool => destruct b; simplify_eq/= end
  end.

Lemma timing_for_existing_effect d x st :
  let st' := timing_for_existing w metadata d x st in
  same_bookkeeping st st'
  ∧ (trace st' = trace st
     ∨ trace st' = trace st ++ [(d, GetTimingData (normalize_fileset_id x))]).
Proof.
  unfold timing_for_existing, same_bookkeeping. cbn zeta.
  branches; split_and!; auto using subseteq_leave.
Qed.

Lemma timing_for_download_effect d x st :
  let st' := timing_for_download w metadata force d x st in
  same_bookkeeping st st'
  ∧ ∃ evs, trace st' = trace st ++ evs
      ∧ Forall (λ e, e.1 = d ∧ timing_call e.2 = true) evs.
Proof.
  unfold timing_for_download, same_bookkeeping. cbn zeta.
  branches; (split; [split_and!; auto using subseteq_leave|]).
  all: try (by exists []; rewrite app_nil_r).
  all: rewrite <- ?app_assoc; eexists; split; [reflexivity|];
    repeat constructor.
Qed.

Lemma fetch_audio_outcome st m :
  let d := get_distinct_id_from_metadata m in
  d ∉ downloaded_distinct_ids st →
  force = true ∨ glob d Mp3 (files st) = [] →
  audio_outcome force m st (fetch_audio w metadata force d m st).
Proof.
  intros d Hd Hfetch. unfold fetch_audio. cbn zeta.
  destruct (truthy _) as [url|] eqn:Hurl.
  - destruct (download_audio_file _ _ _) as [|partial] eqn:Hres.
    + match goal with
      | |- context [timing_for_download w metadata force d ?x ?s] =>
          destruct (timing_for_download_effect d x s)
            as [(Hdl & _ & Ha & _ & _) (evs & Htr & Hevs)];
          simpl in Hdl, Ha, Htr
      end.
      apply audio_saved with url evs; try done; simpl.
      * rewrite Htr, <- !app_assoc. done.
      * by rewrite Hdl.
    + apply audio_failed with
        [(d, DownloadAudioFile (fs_id m) url (WriteFailed partial));
         (d, LogDownloadError CAudio "audio_download_failed" (fs_id m))];
        try done.
      * destruct partial; simpl; by rewrite <- !app_assoc.
      * constructor; [|constructor; [|constructor]]; simpl.
        -- split_and!; [done..|]. by intros x <-.
        -- split_and!; [done..|]. by intros x [].
      * by destruct partial.
      * by destruct partial.
  - apply audio_failed with
      [(d, LogDownloadError CAudio "no_audio_available" (fs_id m))];
      try done.
    + simpl. by rewrite <- !app_assoc.
    + constructor; [|constructor]; simpl.
      split_and!; [done..|]. by intros x [].
Qed.

Lemma audio_step_outcome st m :
  audio_outcome force m st (audio_step w metadata force st m).
Proof.
  unfold audio_step. cbn zeta.
  destruct (decide (_ ∈ downloaded_distinct_ids st)) as [Hin|Hni];
    [by apply audio_skipped|].
  destruct (glob _ Mp3 (files st)) as [|existing others] eqn:Hglob.
  - destruct force eqn:Hforce; rewrite <- Hforce;
      apply fetch_audio_outcome; auto.
  - destruct force eqn:Hforce.
    + rewrite <- Hforce. apply fetch_audio_outcome; auto.
    + match goal with
      | |- context [timing_for_existing w metadata ?d ?x ?s] =>
          destruct (timing_for_existing_effect d x s)
            as [(Hdl & _ & Ha & _ & _) Htr];
          simpl in Hdl, Ha, Htr
      end.
      destruct Htr as [Htr|Htr].
      * apply audio_counted with existing others []; try done; simpl;
          [by rewrite app_nil_r | by left | by rewrite Hdl].
      * eapply audio_counted with existing others _; try done; simpl;
          [by right | by rewrite Hdl].
Qed.

Lemma text_step_outcome st m :
  text_outcome force m st (text_step w force st m).
Proof.
  unfold text_step. cbn zeta.
  destruct (decide (_ ∈ downloaded_text_distinct_ids st)) as [Hin|Hni];
    [by apply text_skipped|].
  assert (force = true ∨ glob (get_distinct_id_from_metadata m) Txt
                            (files st) = [] →
          text_outcome force m st
            (fetch_text w (get_distinct_id_from_metadata m) m st))
    as Hfetch.
  { intros Hf. unfold fetch_text. cbn zeta.
    destruct (truthy _) as [content|] eqn:Hcontent.
    - destruct (save_text_file _ _ _) as [|partial] eqn:Hres.
      + apply text_saved; done.
      + apply text_failed with "text_save_failed"; try done;
          destruct partial; simpl; by rewrite <- ?app_assoc.
    - apply text_failed with "no_text_available"; try done.
      simpl. by rewrite <- app_assoc. }
  destruct (glob _ Txt (files st)) as [|existing others] eqn:Hglob.
  - destruct force; apply Hfetch; auto.
  - destruct force eqn:Hforce.
    + apply Hfetch; auto.
    + apply text_counted; try done. by rewrite Hglob.
Qed.

(** Parts of the state the two loop bodies leave alone or only extend. *)
Lemma fetch_audio_frame d m st :
  let st' := fetch_audio w metadata force d m st in
  downloaded_text_distinct_ids st' = downloaded_text_distinct_ids st
  ∧ any_text_success st' = any_text_success st
  ∧ files st `prefix_of` files st'.
Proof.
  unfold fetch_audio. cbn zeta.
  destruct (truthy _) as [url|]; [|done].
  destruct (download_audio_file _ _ _) as [|[|]]; simpl;
    [|split_and!; auto using subseteq_leave..].
  match goal with
  | |- context [timing_for_download w metadata force ?d ?x ?s] =>
      destruct (timing_for_download_effect d x s)
        as [(_ & Ht & _ & Hx & Hf) _];
      simpl in Ht, Hx, Hf
  end.
  split_and!; [done..|]. etrans; [|exact Hf]. apply subseteq_leave.
Qed.

Lemma audio_step_frame st m :
  let st' := audio_step w metadata force st m in
  downloaded_text_distinct_ids st' = downloaded_text_distinct_ids st
  ∧ any_text_success st' = any_text_success st
  ∧ files st `prefix_of` files st'.
Proof.
  unfold audio_step. cbn zeta.
  destruct (decide (_ ∈ downloaded_distinct_ids st)); [done|].
  destruct (glob _ Mp3 (files st)) as [|existing others];
    [destruct force eqn:Hforce; rewrite <- Hforce; apply fetch_audio_frame|].
  destruct force eqn:Hforce; [rewrite <- Hforce; apply fetch_audio_frame|].
  match goal with
  | |- context [timing_for_existing w metadata ?d ?x ?s] =>
      destruct (timing_for_existing_effect d x s)
        as [(_ & Ht & _ & Hx & Hf) _];
      simpl in Ht, Hx, Hf
  end.
  by simpl.
Qed.

Lemma fetch_text_frame d m st :
  let st' := fetch_text w d m st in
  downloaded_distinct_ids st' = downloaded_distinct_ids st
  ∧ any_audio_success st' = any_audio_success st
  ∧ files st `prefix_of` files st'.
Proof.
  unfold fetch_text. cbn zeta.
  destruct (truthy _) as [content|]; [|done].
  destruct (save_text_file _ _ _) as [|[|]]; simpl;
    split_and!; auto using subseteq_leave.
Qed.

Lemma text_step_frame st m :
  let st' := text_step w force st m in
  downloaded_distinct_ids st' = downloaded_distinct_ids st
  ∧ any_audio_success st' = any_audio_success st
  ∧ files st `prefix_of` files st'.
Proof.
  unfold text_step. cbn zeta.
  destruct (decide (_ ∈ downloaded_text_distinct_ids st)); [done|].
  destruct (glob _ Txt (files st)) as [|existing others]; destruct force;
    (apply fetch_text_frame || done).
Qed.
End effects.

(** ** One chapter: what the loops emit *)

Section emits.
Import Sorter Downloader Trace.
Variable w : World.
Variable metadata : gmap string Metadata.
Variable force : bool.

Lemma timing_event_audio_event m e :
  e.1 = get_distinct_id_from_metadata m ∧ timing_call e.2 = true →
  audio_event m e.
Proof.
  destruct e as [d c]. simpl. intros [-> Hc]. split_and!; [done|..];
    destruct c as [| | | |[]]; simplify_eq/=; done.
Qed.

Lemma audio_step_emits st m :
  ∃ evs, trace (audio_step w metadata force st m) = trace st ++ evs
         ∧ Forall (audio_event m) evs.
Proof.
  destruct (audio_step_outcome w metadata force st m)
    as [_ ->|x others evs d _ _ _ Htr Hevs _ _
        |url evs d _ _ Htr Hevs _ _|evs d _ _ Htr Hevs _ _].
  - exists []. by rewrite app_nil_r.
  - exists evs. split; [done|].
    destruct Hevs as [->| ->]; [constructor|].
    constructor; [|constructor]. by apply timing_event_audio_event.
  - eexists. split; [exact Htr|].
    constructor; [|constructor].
    + split_and!; [done..|]. by intros x <-.
    + split_and!; [done..|]. by intros x <-.
    + eapply Forall_impl; [exact Hevs|]. apply timing_event_audio_event.
  - eexists. split; [exact Htr|]. constructor.
    + split_and!; [done..|]. by intros x <-.
    + eapply Forall_impl; [exact Hevs|]. intros e (? & ? & ? & ?).
      by split_and!.
Qed.

Lemma text_step_emits st m :
  ∃ evs, trace (text_step w force st m) = trace st ++ evs
         ∧ Forall (text_event m) evs.
Proof.
  destruct (text_step_outcome w force st m)
    as [_ ->|d _ _ _ Htr _ _|d _ _ Htr _ _|err d _ _ Htr _ _].
  - exists []. by rewrite app_nil_r.
  - exists []. by rewrite app_nil_r.
  - eexists. split; [exact Htr|]. constructor; [|constructor].
    split_and!; [done..|]. by intros x <-.
  - eexists. split; [exact Htr|]. constructor; [|constructor; [|constructor]].
    + split_and!; [done..|]. by intros x <-.
    + split_and!; [done..|]. by intros x [].
Qed.

Lemma audio_loop_snoc st l m :
  audio_loop w metadata force st (l ++ [m]) =
  audio_step w metadata force (audio_loop w metadata force st l) m.
Proof. unfold audio_loop. by rewrite foldl_app. Qed.

Lemma text_loop_snoc st l m :
  text_loop w force st (l ++ [m]) =
  text_step w force (text_loop w force st l) m.
Proof. unfold text_loop. by rewrite foldl_app. Qed.

Lemma audio_loop_emits st l :
  ∃ evs, trace (audio_loop w metadata force st l) = trace st ++ evs
         ∧ Forall (λ e, ∃ m, m ∈ l ∧ audio_event m e) evs.
Proof.
  induction l as [|m l IH] using rev_ind.
  - exists []. by rewrite app_nil_r.
  - destruct IH as (evs & Htr & Hevs). rewrite audio_loop_snoc.
    destruct (audio_step_emits (audio_loop w metadata force st l) m)
      as (evs' & Htr' & Hevs').
    exists (evs ++ evs'). split; [by rewrite Htr', Htr, app_assoc|].
    apply Forall_app. split.
    + eapply Forall_impl; [exact Hevs|]. intros e (m' & Hm' & He).
      exists m'. split; [|done]. apply elem_of_app. by left.
    + eapply Forall_impl; [exact Hevs'|]. intros e He.
      exists m. split; [|done]. apply elem_of_app. right.
      by apply list_elem_of_singleton.
Qed.

Lemma text_loop_emits st l :
  ∃ evs, trace (text_loop w force st l) = trace st ++ evs
         ∧ Forall (λ e, ∃ m, m ∈ l ∧ text_event m e) evs.
Proof.
  induction l as [|m l IH] using rev_ind.
  - exists []. by rewrite app_nil_r.
  - destruct IH as (evs & Htr & Hevs). rewrite text_loop_snoc.
    destruct (text_step_emits (text_loop w force st l) m)
      as (evs' & Htr' & Hevs').
    exists (evs ++ evs'). split; [by rewrite Htr', Htr, app_assoc|].
    apply Forall_app. split.
    + eapply Forall_impl; [exact Hevs|]. intros e (m' & Hm' & He).
      exists m'. split; [|done]. apply elem_of_app. by left.
    + eapply Forall_impl; [exact Hevs'|]. intros e He.
      exists m. split; [|done]. apply elem_of_app. right.
      by apply list_elem_of_singleton.
Qed.

End emits.

(** The selection does not consult the partial-content set: on a ledger
    that lists a full-Bible fileset there, which no run of the classifier
    writes, the fileset is still a candidate. The rule of the
    specification therefore needs the ledger of the classifier. *)
Lemma candidates_ignore_partial_content_ledger :
  ¬ (∀ (excl : Downloader.Exclusions) (metadata : gmap string Sorter.Metadata)
       (book_id fileset_id : string) (data : Sorter.Metadata),
       metadata !! fileset_id = Some data →
       Sorter.has_audio data = true →
       (data ∈ Downloader.get_audio_filesets excl metadata book_id ↔
          ¬ in_exclusion_category excl fileset_id
          ∧ scope_covers_stated (Sorter.book_set data) book_id)).
Proof.
  intros H.
  destruct (H Examples.ledger_listing_full_audio
              {["ENGESVC1DA" := Examples.full_audio]} "GEN" "ENGESVC1DA"
              Examples.full_audio) as [Hcand _]; [by vm_compute..|].
  destruct Hcand as [Hexcl _].
  - vm_compute. apply list_elem_of_here.
  - apply Hexcl. unfold in_exclusion_category. right. left.
    apply (bool_decide_unpack _). by vm_compute.
Qed.

(** The same selection also lets a New-Testament fileset through for a book
    code that is in neither book table. *)
Example candidates_for_unknown_book :
  Downloader.get_audio_filesets Examples.no_exclusions
    {["ENGESVN1DA" := Examples.nt_audio]} "XYZ" = [Examples.nt_audio]
  ∧ "XYZ" ∉ Downloader.NT_BOOKS.*1.
Proof.
  split; [by vm_compute|].
  apply (bool_decide_unpack _). by vm_compute.
Qed.

Section selection.
Import Sorter Downloader Trace.

Lemma scope_covers_stated_iff (book_set book_id : string) :
  book_id ∈ ALL_BOOKS.*1 →
  (scope_covers book_set book_id ↔ scope_covers_stated book_set book_id).
Proof.
  intros Hbook. unfold scope_covers, scope_covers_stated.
  by rewrite (canonical_book_testament _ Hbook).
Qed.

End selection.

(** ** One chapter: one audio download per work identity *)

Section dedup.
Import Sorter Downloader Trace.
Variable w : World.
Variable metadata : gmap string Metadata.
Variable force : bool.

Lemma saved_audio_works_app tr evs :
  saved_audio_works (tr ++ evs) =
  saved_audio_works tr ++ saved_audio_works evs.
Proof. unfold saved_audio_works. by rewrite filter_app, fmap_app. Qed.

Lemma saved_audio_works_none evs :
  Forall (λ e, saved_download e.2 = false) evs → saved_audio_works evs = [].
Proof.
  unfold saved_audio_works. induction 1 as [|e evs He _ IH]; [done|].
  rewrite filter_cons_False; [done|]. rewrite He. by intros [].
Qed.

Lemma timing_not_saved (d : string) evs :
  Forall (λ e, e.1 = d ∧ timing_call e.2 = true) evs →
  Forall (λ e : Event, saved_download e.2 = false) evs.
Proof.
  intros H. eapply Forall_impl; [exact H|].
  intros [d' c] [_ Hc]. simpl in *. by destruct c.
Qed.

Lemma audio_step_recorded st m :
  downloads_recorded st →
  downloads_recorded (audio_step w metadata force st m).
Proof.
  intros [Hnd Hrec].
  destruct (audio_step_outcome w metadata force st m)
    as [_ ->|x others evs d Hd _ _ Htr Hevs Hdl _
        |url evs d Hd _ Htr Hevs Hdl _|evs d Hd _ Htr Hevs Hdl _];
    [done|..]; unfold downloads_recorded; rewrite Htr, Hdl.
  - assert (saved_audio_works evs = []) as Hs
      by (by destruct Hevs as [->| ->]).
    rewrite saved_audio_works_app, Hs, app_nil_r. split; [done|].
    intros d' Hd'. apply elem_of_union. right. by apply Hrec.
  - assert (saved_audio_works
              ((d, GetAudioPath (fs_id m))
               :: (d, DownloadAudioFile (fs_id m) url Written) :: evs) = [d])
      as Hs.
    { change (?a :: ?b :: evs) with ([a; b] ++ evs).
      rewrite saved_audio_works_app.
      by rewrite (saved_audio_works_none evs (timing_not_saved _ _ Hevs)). }
    rewrite saved_audio_works_app, Hs. split.
    + apply NoDup_app. split_and!; [done| |apply NoDup_singleton].
      intros d' Hd' ->%list_elem_of_singleton. by apply Hd, Hrec.
    + intros d' [Hd'|Hd'%list_elem_of_singleton]%elem_of_app;
        apply elem_of_union; [right; by apply Hrec|left].
      by apply elem_of_singleton.
  - assert (saved_audio_works ((d, GetAudioPath (fs_id m)) :: evs) = [])
      as Hs.
    { apply saved_audio_works_none. constructor; [done|].
      eapply Forall_impl; [exact Hevs|]. by intros e (_ & ? & _). }
    by rewrite saved_audio_works_app, Hs, app_nil_r.
Qed.

Lemma text_step_recorded st m :
  downloads_recorded st → downloads_recorded (text_step w force st m).
Proof.
  intros [Hnd Hrec]. unfold downloads_recorded.
  destruct (text_step_frame w force st m) as (Hdl & _ & _).
  destruct (text_step_emits w force st m) as (evs & Htr & Hevs).
  cbn zeta in Hdl. rewrite Hdl, Htr, saved_audio_works_app.
  rewrite (saved_audio_works_none evs), app_nil_r; [done|].
  eapply Forall_impl; [exact Hevs|]. by intros e (_ & _ & ? & _).
Qed.

Lemma audio_loop_recorded st l :
  downloads_recorded st →
  downloads_recorded (audio_loop w metadata force st l).
Proof.
  intros Hst. induction l as [|m l IH] using rev_ind; [done|].
  rewrite audio_loop_snoc. by apply audio_step_recorded.
Qed.

Lemma text_loop_recorded st l :
  downloads_recorded st → downloads_recorded (text_loop w force st l).
Proof.
  intros Hst. induction l as [|m l IH] using rev_ind; [done|].
  rewrite text_loop_snoc. by apply text_step_recorded.
Qed.

Lemma initial_recorded fs : downloads_recorded (initial fs).
Proof. split; [constructor|]. intros d Hd. by apply elem_of_nil in Hd. Qed.

Lemma audio_step_skip st m :
  get_distinct_id_from_metadata m ∈ downloaded_distinct_ids st →
  audio_step w metadata force st m = st.
Proof. intros Hin. unfold audio_step. cbn zeta. by rewrite decide_True. Qed.

Lemma audio_step_keeps st m d :
  d ∈ downloaded_distinct_ids st →
  d ∈ downloaded_distinct_ids (audio_step w metadata force st m).
Proof.
  intros Hin.
  destruct (audio_step_outcome w metadata force st m)
    as [_ ->|x others evs d' _ _ _ _ _ Hdl _
        |url evs d' _ _ _ _ Hdl _|evs d' _ _ _ _ Hdl _];
    [done|rewrite Hdl..]; [apply elem_of_union; by right..|done].
Qed.

Lemma audio_loop_skips st l d :
  d ∈ downloaded_distinct_ids st →
  audio_loop w metadata force st l =
  audio_loop w metadata force st
    (filter (λ m, get_distinct_id_from_metadata m ≠ d) l).
Proof.
  revert st. induction l as [|m l IH]; intros st Hin; [done|].
  destruct (decide (get_distinct_id_from_metadata m = d)) as [Heq|Hne].
  - rewrite filter_cons_False by (by intros []). simpl.
    rewrite audio_step_skip by (by rewrite Heq). by apply IH.
  - rewrite filter_cons_True by done. simpl.
    apply IH. by apply audio_step_keeps.
Qed.

Lemma audio_step_attempts st m :
  let d := get_distinct_id_from_metadata m in
  let st' := audio_step w metadata force st m in
  d ∉ downloaded_distinct_ids st →
  (force = false ∧ glob d Mp3 (files st) ≠ []
   ∧ any_audio_success st' = true ∧ d ∈ downloaded_distinct_ids st')
  ∨ (∃ evs, trace st' = trace st ++ (d, GetAudioPath (fs_id m)) :: evs).
Proof.
  intros d st' Hd. subst st'.
  destruct (audio_step_outcome w metadata force st m)
    as [Hin _|x others evs d' _ Hf Hg _ _ Hdl Ha
        |url evs d' _ _ Htr _ _ _|evs d' _ _ Htr _ _ _];
    [done| |right; eauto..].
  left. split_and!; [done|by subst d d'; rewrite Hg|done|].
  rewrite Hdl. apply elem_of_union. left. by apply elem_of_singleton.
Qed.
End dedup.

(** Two formats of one work and one format of another: the first format of
    each work is downloaded, the second format of the first work is
    skipped. *)
Example download_book_chapter_two_works :
  Downloader.trace
    (Downloader.download_book_chapter Examples.generous ∅ false []
       [Examples.audio_of "ENGESV" "ENGESVN1DA";
        Examples.audio_of "ENGESV" "ENGESVN1DA-opus16";
        Examples.audio_of "ENGKJV" "ENGKJVN2DA"] []) =
  [("ENGESV", Downloader.GetAudioPath "ENGESVN1DA");
   ("ENGESV", Downloader.DownloadAudioFile "ENGESVN1DA"
                "https://cdn/ENGESVN1DA" Downloader.Written);
   ("ENGKJV", Downloader.GetAudioPath "ENGKJVN2DA");
   ("ENGKJV", Downloader.DownloadAudioFile "ENGKJVN2DA"
                "https://cdn/ENGKJVN2DA" Downloader.Written)].
Proof. by vm_compute. Qed.

(** C4. In one run of [download_book_chapter] no work identity has two
    successful audio downloads. A successful download and an existing file
    counted as success both record the work identity; a candidate whose
    work identity is recorded is skipped without any effect, so the rest of
    the loop runs as if those candidates were absent; a candidate whose work
    identity is not recorded is attempted, whatever other identities are
    recorded. *)
Theorem one_audio_download_per_work
    (w : Downloader.World) (metadata : gmap string Sorter.Metadata)
    (force : bool) :
  (∀ (fs : list Downloader.File) (audio text : list Sorter.Metadata),
      NoDup (Trace.saved_audio_works
               (Downloader.trace
                  (Downloader.download_book_chapter w metadata force fs
                     audio text))))
  ∧ (∀ (fs : list Downloader.File) (audio : list Sorter.Metadata)
       (d : string),
        let st :=
          Downloader.audio_loop w metadata force (Downloader.initial fs)
            audio in
        d ∈ Trace.saved_audio_works (Downloader.trace st) →
        d ∈ Downloader.downloaded_distinct_ids st)
  ∧ (∀ (st : Downloader.State) (m : Sorter.Metadata),
        Downloader.get_distinct_id_from_metadata m
          ∈ Downloader.downloaded_distinct_ids st →
        Downloader.audio_step w metadata force st m = st)
  ∧ (∀ (st : Downloader.State) (l : list Sorter.Metadata) (d : string),
        d ∈ Downloader.downloaded_distinct_ids st →
        Downloader.audio_loop w metadata force st l =
        Downloader.audio_loop w metadata force st
          (filter (λ m, Downloader.get_distinct_id_from_metadata m ≠ d) l))
  ∧ (∀ (st : Downloader.State) (m : Sorter.Metadata),
        let d := Downloader.get_distinct_id_from_metadata m in
        let st' := Downloader.audio_step w metadata force st m in
        d ∉ Downloader.downloaded_distinct_ids st →
        (force = false
         ∧ Downloader.glob d Downloader.Mp3 (Downloader.files st) ≠ []
         ∧ Downloader.any_audio_success st' = true
         ∧ d ∈ Downloader.downloaded_distinct_ids st')
        ∨ (∃ evs : list Downloader.Event,
             Downloader.trace st' =
               Downloader.trace st
                 ++ (d, Downloader.GetAudioPath (Sorter.fs_id m)) :: evs)).
Proof.
  split_and!.
  - intros fs audio text. unfold Downloader.download_book_chapter.
    apply text_loop_recorded, audio_loop_recorded, initial_recorded.
  - intros fs audio d st.
    apply (audio_loop_recorded w metadata force), initial_recorded.
  - apply audio_step_skip.
  - apply audio_loop_skips.
  - apply audio_step_attempts.
Qed.

Lemma one_audio_download_per_work_witness :
  let st :=
    Downloader.audio_loop Examples.generous ∅ false (Downloader.initial [])
      [Examples.audio_of "ENGESV" "ENGESVN1DA"] in
  let later := Examples.audio_of "ENGESV" "ENGESVN1DA-opus16" in
  let other := Examples.audio_of "ENGKJV" "ENGKJVN2DA" in
  "ENGESV" ∈ Trace.saved_audio_works (Downloader.trace st)
  ∧ Downloader.get_distinct_id_from_metadata later
      ∈ Downloader.downloaded_distinct_ids st
  ∧ Downloader.audio_step Examples.generous ∅ false st later = st
  ∧ (Downloader.get_distinct_id_from_metadata other
       ∉ Downloader.downloaded_distinct_ids st)
  ∧ ∃ evs : list Downloader.Event,
      Downloader.trace
        (Downloader.audio_step Examples.generous ∅ false st other) =
      Downloader.trace st
        ++ ("ENGKJV", Downloader.GetAudioPath "ENGKJVN2DA") :: evs.
Proof.
  intros st later other.
  pose proof (one_audio_download_per_work Examples.generous ∅ false)
    as (_ & Hrec & Hskip & _ & Hattempt).
  assert ("ENGESV" ∈ Trace.saved_audio_works (Downloader.trace st)) as H1
    by (vm_compute; apply list_elem_of_here).
  assert (Downloader.get_distinct_id_from_metadata later
            ∈ Downloader.downloaded_distinct_ids st) as H2
    by exact (Hrec [] [Examples.audio_of "ENGESV" "ENGESVN1DA"] "ENGESV" H1).
  assert (Downloader.get_distinct_id_from_metadata other
            ∉ Downloader.downloaded_distinct_ids st) as H3
    by (apply (bool_decide_unpack _); by vm_compute).
  split_and!; [exact H1|exact H2|exact (Hskip st later H2)|exact H3|].
  destruct (Hattempt st other H3) as [(_ & Hglob & _)|Hreq].
  - exfalso. apply Hglob. reflexivity.
  - exact Hreq.
Defined.

(** ** One chapter: content that is already on disk *)

Section existing.
Import Sorter Downloader Trace.
Variable w : World.
Variable metadata : gmap string Metadata.

Lemma glob_app d k l l' : glob d k (l ++ l') = glob d k l ++ glob d k l'.
Proof. unfold glob. by rewrite filter_app, fmap_app. Qed.

Lemma glob_head_prefix d k l l' x others :
  l `prefix_of` l' → glob d k l = x :: others →
  ∃ others', glob d k l' = x :: others'.
Proof.
  intros [k' ->] Hg. rewrite glob_app, Hg. by eexists.
Qed.

Lemma elem_of_prefix (l l' : list File) f :
  l `prefix_of` l' → f ∈ l → f ∈ l'.
Proof. intros [k' ->] Hf. apply elem_of_app. by left. Qed.

Lemma on_behalf_of_app d tr evs :
  on_behalf_of d (tr ++ evs) = on_behalf_of d tr ++ on_behalf_of d evs.
Proof. apply filter_app. Qed.

Lemma on_behalf_of_other d d' (evs : list Event) :
  d ≠ d' → Forall (λ e, e.1 = d') evs → on_behalf_of d evs = [].
Proof.
  intros Hne. unfold on_behalf_of. induction 1 as [|e evs He _ IH]; [done|].
  rewrite filter_cons_False; [done|]. congruence.
Qed.

(** An audio iteration for another work identity leaves the events and the
    record of [d] alone. *)
Lemma audio_step_other force st m d :
  d ≠ get_distinct_id_from_metadata m →
  let st' := audio_step w metadata force st m in
  on_behalf_of d (trace st') = on_behalf_of d (trace st)
  ∧ (d ∈ downloaded_distinct_ids st' ↔ d ∈ downloaded_distinct_ids st)
  ∧ (any_audio_success st = true → any_audio_success st' = true).
Proof.
  intros Hne st'. subst st'. split.
  - destruct (audio_step_emits w metadata force st m) as (evs & -> & Hevs).
    rewrite on_behalf_of_app, (on_behalf_of_other d _ evs Hne), app_nil_r;
      [done|].
    eapply Forall_impl; [exact Hevs|]. by intros e [? _].
  - destruct (audio_step_outcome w metadata force st m)
      as [_ ->|x others evs d' _ _ _ _ _ Hdl Ha
          |url evs d' _ _ _ _ Hdl Ha|evs d' _ _ _ _ Hdl Ha];
      [done|rewrite Hdl, Ha..].
    + split; [|done]. rewrite elem_of_union, elem_of_singleton. tauto.
    + split; [|done]. rewrite elem_of_union, elem_of_singleton. tauto.
    + done.
Qed.

Lemma text_step_other force st m d :
  d ≠ get_distinct_id_from_metadata m →
  let st' := text_step w force st m in
  on_behalf_of d (trace st') = on_behalf_of d (trace st)
  ∧ (d ∈ downloaded_text_distinct_ids st'
     ↔ d ∈ downloaded_text_distinct_ids st)
  ∧ (any_text_success st = true → any_text_success st' = true).
Proof.
  intros Hne st'. subst st'. split.
  - destruct (text_step_emits w force st m) as (evs & -> & Hevs).
    rewrite on_behalf_of_app, (on_behalf_of_other d _ evs Hne), app_nil_r;
      [done|].
    eapply Forall_impl; [exact Hevs|]. by intros e [? _].
  - destruct (text_step_outcome w force st m)
      as [_ ->|d' _ _ _ _ Hdl Ha|d' _ _ _ Hdl Ha|err d' _ _ _ Hdl Ha];
      [done|rewrite Hdl, Ha..].
    + split; [|done]. rewrite elem_of_union, elem_of_singleton. tauto.
    + split; [|done]. rewrite elem_of_union, elem_of_singleton. tauto.
    + done.
Qed.

Lemma text_step_skip force st m :
  get_distinct_id_from_metadata m ∈ downloaded_text_distinct_ids st →
  text_step w force st m = st.
Proof. intros Hin. unfold text_step. cbn zeta. by rewrite decide_True. Qed.

(** The audio iteration that finds a file of its work on disk. *)
Lemma audio_step_counted st m x others :
  let d := get_distinct_id_from_metadata m in
  let st' := audio_step w metadata false st m in
  d ∉ downloaded_distinct_ids st →
  glob d Mp3 (files st) = x :: others →
  d ∈ downloaded_distinct_ids st'
  ∧ any_audio_success st' = true
  ∧ (trace st' = trace st
     ∨ trace st' = trace st ++ [(d, GetTimingData (normalize_fileset_id x))])
  ∧ ({| f_work := d; f_kind := TimingJson; f_fileset := x |} ∈ files st
     ∨ has_timing_available metadata x = false →
     trace st' = trace st).
Proof.
  intros d st' Hd Hg. subst st'. unfold audio_step. cbn zeta.
  fold d. rewrite decide_False by done. rewrite Hg.
  destruct (timing_for_existing_effect w metadata d x (audio_succeeded st))
    as [(Hdl & _ & Ha & _ & _) Htr]. simpl in Hdl, Ha, Htr.
  split_and!; simpl.
  - rewrite Hdl. apply elem_of_union. left. by apply elem_of_singleton.
  - done.
  - done.
  - unfold timing_for_existing. cbn zeta. simpl.
    intros [Hfile|Hnone].
    + by rewrite decide_True.
    + case_decide; [done|]. by rewrite Hnone.
Qed.

(** The text iteration that finds a file of its work on disk. *)
Lemma text_step_counted st m :
  let d := get_distinct_id_from_metadata m in
  let st' := text_step w false st m in
  d ∉ downloaded_text_distinct_ids st →
  glob d Txt (files st) ≠ [] →
  d ∈ downloaded_text_distinct_ids st'
  ∧ any_text_success st' = true
  ∧ trace st' = trace st.
Proof.
  intros d st' Hd Hg. subst st'. unfold text_step. cbn zeta.
  fold d. rewrite decide_False by done.
  destruct (glob d Txt (files st)); [done|]. simpl.
  split_and!; [|done..]. apply elem_of_union. left.
  by apply elem_of_singleton.
Qed.

Lemma audio_loop_frame force st l :
  let st' := audio_loop w metadata force st l in
  downloaded_text_distinct_ids st' = downloaded_text_distinct_ids st
  ∧ any_text_success st' = any_text_success st
  ∧ files st `prefix_of` files st'.
Proof.
  induction l as [|m l IH] using rev_ind; [done|].
  rewrite audio_loop_snoc. cbn zeta in *.
  destruct IH as (IH1 & IH2 & IH3).
  destruct (audio_step_frame w metadata force
              (audio_loop w metadata force st l) m) as (H1 & H2 & H3).
  cbn zeta in *. rewrite H1, H2. split_and!; [done..|]. by etrans.
Qed.

Lemma text_loop_frame force st l :
  let st' := text_loop w force st l in
  downloaded_distinct_ids st' = downloaded_distinct_ids st
  ∧ any_audio_success st' = any_audio_success st
  ∧ files st `prefix_of` files st'.
Proof.
  induction l as [|m l IH] using rev_ind; [done|].
  rewrite text_loop_snoc. cbn zeta in *.
  destruct IH as (IH1 & IH2 & IH3).
  destruct (text_step_frame w force (text_loop w force st l) m)
    as (H1 & H2 & H3).
  cbn zeta in *. rewrite H1, H2. split_and!; [done..|]. by etrans.
Qed.

Lemma on_behalf_of_singleton d c : on_behalf_of d [(d, c)] = [(d, c)].
Proof. unfold on_behalf_of. by rewrite filter_cons_True. Qed.

Lemma elem_of_on_behalf_of d c tr :
  (d, c) ∈ tr → (d, c) ∈ on_behalf_of d tr.
Proof. intros Hin. by apply list_elem_of_filter. Qed.

(** The audio loop over candidates, when an audio file of work [d] is on
    disk at entry: until a candidate of [d] is met nothing happens on
    behalf of [d]; from then on [d] is recorded, the chapter counts as an
    audio success, and at most one timing request was made for [d]. *)
Lemma audio_loop_existing fs l d x others :
  glob d Mp3 fs = x :: others →
  let st := audio_loop w metadata false (initial fs) l in
  let timing_request := (d, GetTimingData (normalize_fileset_id x)) in
  fs `prefix_of` files st
  ∧ (((d ∉ downloaded_distinct_ids st)
      ∧ on_behalf_of d (trace st) = []
      ∧ ∀ m, m ∈ l → get_distinct_id_from_metadata m ≠ d)
     ∨ (d ∈ downloaded_distinct_ids st
        ∧ any_audio_success st = true
        ∧ (on_behalf_of d (trace st) = []
           ∨ on_behalf_of d (trace st) = [timing_request])
        ∧ ({| f_work := d; f_kind := TimingJson; f_fileset := x |} ∈ fs
           ∨ has_timing_available metadata x = false →
           on_behalf_of d (trace st) = []))).
Proof.
  intros Hg. cbn zeta. induction l as [|m l IH] using rev_ind.
  - split; [done|]. left. split_and!; [apply not_elem_of_empty|done|].
    intros m Hm. by apply elem_of_nil in Hm.
  - rewrite audio_loop_snoc.
    set (st := audio_loop w metadata false (initial fs) l) in *.
    destruct IH as [Hpre IH].
    destruct (audio_step_frame w metadata false st m) as (_ & _ & Hfiles).
    cbn zeta in Hfiles. split; [by etrans|].
    destruct (decide (get_distinct_id_from_metadata m = d)) as [Heq|Hne].
    + right. destruct IH as [(Hd & Hnone & _)|(Hd & Ha & Htr & Hq)].
      * destruct (glob_head_prefix d Mp3 fs (files st) x others Hpre Hg)
          as (others' & Hg').
        rewrite <- Heq in Hd, Hg'.
        destruct (audio_step_counted st m x others' Hd Hg')
          as (Hd' & Ha' & Htr' & Hq').
        rewrite Heq in Hd', Htr', Hq'.
        split_and!; [done..| |].
        -- destruct Htr' as [-> | ->]; [by left|right].
           by rewrite on_behalf_of_app, Hnone, on_behalf_of_singleton.
        -- intros Hquiet. rewrite Hq'; [done|].
           destruct Hquiet as [Hfile|?]; [left|by right].
           by apply (elem_of_prefix fs).
      * rewrite audio_step_skip by (by rewrite Heq). done.
    + destruct (audio_step_other false st m d) as (Htr' & Hd' & Ha');
        [done|]. cbn zeta in *. rewrite Htr', Hd'.
      destruct IH as [(Hd & Hnone & Hl)|(Hd & Ha & Htr & Hq)].
      * left. split_and!; [done..|].
        intros m' [Hm'| ->%list_elem_of_singleton]%elem_of_app; auto.
      * right. split_and!; auto.
Qed.

(** The text loop, when a text file of work [d] is on disk at entry:
    nothing at all happens on behalf of [d]. *)
Lemma text_loop_existing st0 l d :
  glob d Txt (files st0) ≠ [] →
  d ∉ downloaded_text_distinct_ids st0 →
  let st := text_loop w false st0 l in
  files st0 `prefix_of` files st
  ∧ on_behalf_of d (trace st) = on_behalf_of d (trace st0)
  ∧ (((d ∉ downloaded_text_distinct_ids st)
      ∧ ∀ m, m ∈ l → get_distinct_id_from_metadata m ≠ d)
     ∨ (d ∈ downloaded_text_distinct_ids st ∧ any_text_success st = true)).
Proof.
  intros Hg Hd0. cbn zeta. induction l as [|m l IH] using rev_ind.
  - split_and!; [done..|]. left. split; [done|].
    intros m Hm. by apply elem_of_nil in Hm.
  - rewrite text_loop_snoc.
    set (st := text_loop w false st0 l) in *.
    destruct IH as (Hpre & Hsame & IH).
    destruct (text_step_frame w false st m) as (_ & _ & Hfiles).
    cbn zeta in Hfiles. split; [by etrans|].
    destruct (decide (get_distinct_id_from_metadata m = d)) as [Heq|Hne].
    + destruct IH as [(Hd & _)|(Hd & Ha)].
      * assert (glob d Txt (files st) ≠ []) as Hg'.
        { destruct Hpre as [k ->]. rewrite glob_app.
          destruct (glob d Txt (files st0)); [done|]. by simpl. }
        rewrite <- Heq in Hd, Hg'.
        destruct (text_step_counted st m Hd Hg') as (Hd' & Ha' & Htr').
        rewrite Heq in Hd'. rewrite Htr'. split; [done|]. by right.
      * rewrite text_step_skip by (by rewrite Heq). split; [done|].
        by right.
    + destruct (text_step_other false st m d) as (Htr' & Hd' & Ha');
        [done|]. cbn zeta in *. rewrite Htr', Hd'. split; [done|].
      destruct IH as [(Hd & Hl)|(Hd & Ha)].
      * left. split; [done|].
        intros m' [Hm'| ->%list_elem_of_singleton]%elem_of_app; auto.
      * right. auto.
Qed.
End existing.

(** C5, as stated, fails: with the audio file on disk and [force] unset, the
    run still makes a network call for the unit when the timing file is
    missing and the metadata marks timing as available. *)
Lemma existing_audio_still_requests_timing :
  ¬ (∀ (w : Downloader.World) (metadata : gmap string Sorter.Metadata)
       (fs : list Downloader.File) (audio text : list Sorter.Metadata)
       (d : string),
       Downloader.glob d Downloader.Mp3 fs ≠ [] →
       ∀ c : Downloader.Call,
         (d, c) ∈ Downloader.trace
                    (Downloader.download_book_chapter w metadata false fs
                       audio text) →
         Downloader.is_network c = false).
Proof.
  intros H.
  specialize (H Examples.generous Examples.timed_metadata
                Examples.audio_on_disk
                [Examples.timed_audio_of "ENGESV" "ENGESVN1DA"] []
                "ENGESV").
  assert (Downloader.is_network (Downloader.GetTimingData "ENGESVN1DA")
            = false) as Hcall; [|discriminate Hcall].
  apply H; [by vm_compute|]. vm_compute. apply list_elem_of_here.
Qed.

Example existing_audio_run :
  let st :=
    Downloader.download_book_chapter Examples.generous
      Examples.timed_metadata false Examples.audio_on_disk
      [Examples.timed_audio_of "ENGESV" "ENGESVN1DA"] [] in
  Downloader.trace st = [("ENGESV", Downloader.GetTimingData "ENGESVN1DA")]
  ∧ Downloader.returned st = (true, false, true).
Proof. by vm_compute. Qed.

(** C5, amended. With [force] unset, a work identity whose audio file for
    the chapter is on disk counts as an audio success as soon as one of its
    candidates is reached, and no audio location request and no audio
    download is made for it; the only call the audio loop makes for it is at
    most one timing request for the fileset of the file found, and none when
    the timing file is on disk too or the metadata does not mark timing as
    available. A work identity whose text file is on disk counts as a text
    success, and the text loop makes no call at all for it. *)
Theorem existing_content_is_not_refetched
    (w : Downloader.World) (metadata : gmap string Sorter.Metadata)
    (fs : list Downloader.File) (audio text : list Sorter.Metadata)
    (d : string) :
  let after_audio :=
    Downloader.audio_loop w metadata false (Downloader.initial fs) audio in
  let run :=
    Downloader.download_book_chapter w metadata false fs audio text in
  (∀ (x : string) (others : list string),
      Downloader.glob d Downloader.Mp3 fs = x :: others →
      let timing_request :=
        (d, Downloader.GetTimingData (Downloader.normalize_fileset_id x)) in
      ((∃ m, m ∈ audio ∧ Downloader.get_distinct_id_from_metadata m = d) →
         Downloader.any_audio_success run = true)
      ∧ (∀ c : Downloader.Call,
            (d, c) ∈ Downloader.trace run →
            Trace.audio_content_call c = false)
      ∧ (Trace.on_behalf_of d (Downloader.trace after_audio) = []
         ∨ Trace.on_behalf_of d (Downloader.trace after_audio)
           = [timing_request])
      ∧ ({| Downloader.f_work := d; Downloader.f_kind := Downloader.TimingJson;
            Downloader.f_fileset := x |} ∈ fs
         ∨ Downloader.has_timing_available metadata x = false →
         Trace.on_behalf_of d (Downloader.trace after_audio) = []))
  ∧ (Downloader.glob d Downloader.Txt fs ≠ [] →
       ((∃ m, m ∈ text ∧ Downloader.get_distinct_id_from_metadata m = d) →
          Downloader.any_text_success run = true)
       ∧ (∀ c : Downloader.Call,
             (d, c) ∈ Downloader.trace run →
             Trace.text_content_call c = false)
       ∧ Trace.on_behalf_of d (Downloader.trace run)
         = Trace.on_behalf_of d (Downloader.trace after_audio)).
Proof.
  intros after_audio run.
  destruct (audio_loop_frame w metadata false (Downloader.initial fs) audio)
    as (Hdt & _ & Hfiles). fold after_audio in Hdt, Hfiles. simpl in Hdt.
  destruct (text_loop_frame w false after_audio text) as (_ & Haudio & _).
  change (Downloader.text_loop w false after_audio text) with run in Haudio.
  split.
  - intros x others Hg timing_request.
    destruct (audio_loop_existing w metadata fs audio d x others Hg)
      as (_ & Hcases).
    fold after_audio in Hcases.
    assert (Trace.on_behalf_of d (Downloader.trace after_audio) = []
            ∨ Trace.on_behalf_of d (Downloader.trace after_audio)
              = [timing_request]) as Htr
      by (destruct Hcases as [(_ & -> & _)|(_ & _ & ? & _)]; auto).
    split_and!; [| |exact Htr|].
    + intros (m & Hm & Hmd). rewrite Haudio.
      destruct Hcases as [(_ & _ & Hl)|(_ & ? & _)]; [|done].
      by destruct (Hl m Hm).
    + intros c Hc. subst run. unfold Downloader.download_book_chapter in Hc.
      fold after_audio in Hc.
      destruct (text_loop_emits w false after_audio text)
        as (evs & Hev & Hevs).
      rewrite Hev in Hc. apply elem_of_app in Hc as [Hc|Hc].
      * apply elem_of_on_behalf_of in Hc.
        destruct Htr as [Htr|Htr]; rewrite Htr in Hc.
        -- by apply elem_of_nil in Hc.
        -- by apply list_elem_of_singleton in Hc as [= ->].
      * rewrite Forall_forall in Hevs.
        by destruct (Hevs _ Hc) as (m & _ & _ & ? & _).
    + destruct Hcases as [(_ & -> & _)|(_ & _ & _ & ?)]; auto.
  - intros Hg.
    assert (Downloader.glob d Downloader.Txt (Downloader.files after_audio)
              ≠ []) as Hg'.
    { destruct Hfiles as [k Hk]. simpl in Hk. rewrite Hk, glob_app.
      destruct (Downloader.glob d Downloader.Txt fs); [done|]. by simpl. }
    assert (d ∉ Downloader.downloaded_text_distinct_ids after_audio) as Hd
      by (rewrite Hdt; apply not_elem_of_empty).
    destruct (text_loop_existing w after_audio text d Hg' Hd)
      as (_ & Hsame & Hcases).
    change (Downloader.text_loop w false after_audio text) with run
      in Hsame, Hcases.
    split_and!; [| |exact Hsame].
    + intros (m & Hm & Hmd).
      destruct Hcases as [(_ & Hl)|(_ & ?)]; [|done]. by destruct (Hl m Hm).
    + intros c Hc. apply elem_of_on_behalf_of in Hc. rewrite Hsame in Hc.
      apply list_elem_of_filter in Hc as [_ Hc].
      destruct (audio_loop_emits w metadata false (Downloader.initial fs)
                  audio) as (evs & Hev & Hevs).
      fold after_audio in Hev. rewrite Hev in Hc. simpl in Hc.
      rewrite Forall_forall in Hevs.
      by destruct (Hevs _ Hc) as (m & _ & _ & ? & _).
Qed.

Lemma existing_content_is_not_refetched_witness :
  let w := Examples.generous in
  let fs := Examples.audio_and_text_on_disk in
  let audio := [Examples.audio_of "ENGESV" "ENGESVN1DA-opus16"] in
  let text := [Examples.text_of "ENGESV" "ENGESVN_ET-json"] in
  let after_audio :=
    Downloader.audio_loop w ∅ false (Downloader.initial fs) audio in
  let run := Downloader.download_book_chapter w ∅ false fs audio text in
  Downloader.glob "ENGESV" Downloader.Mp3 fs = ["ENGESVN1DA"]
  ∧ Downloader.has_timing_available ∅ "ENGESVN1DA" = false
  ∧ Downloader.glob "ENGESV" Downloader.Txt fs ≠ []
  ∧ Downloader.any_audio_success run = true
  ∧ Downloader.any_text_success run = true
  ∧ Trace.on_behalf_of "ENGESV" (Downloader.trace after_audio) = []
  ∧ Trace.on_behalf_of "ENGESV" (Downloader.trace run)
    = Trace.on_behalf_of "ENGESV" (Downloader.trace after_audio).
Proof.
  intros w fs audio text after_audio run.
  assert (Downloader.glob "ENGESV" Downloader.Mp3 fs = ["ENGESVN1DA"]) as H1
    by reflexivity.
  assert (Downloader.has_timing_available ∅ "ENGESVN1DA" = false) as H2
    by reflexivity.
  assert (Downloader.glob "ENGESV" Downloader.Txt fs ≠ []) as H3
    by (by vm_compute).
  assert (∃ m, m ∈ audio ∧ Downloader.get_distinct_id_from_metadata m
                            = "ENGESV") as H4
    by (eexists; split; [apply list_elem_of_here|reflexivity]).
  assert (∃ m, m ∈ text ∧ Downloader.get_distinct_id_from_metadata m
                           = "ENGESV") as H5
    by (eexists; split; [apply list_elem_of_here|reflexivity]).
  pose proof (existing_content_is_not_refetched w ∅ fs audio text "ENGESV")
    as [Haudio Htext].
  destruct (Haudio "ENGESVN1DA" [] H1) as (Ha & _ & _ & Hquiet).
  destruct (Htext H3) as (Ht & _ & Hsame).
  split_and!; [exact H1|exact H2|exact H3|exact (Ha H4)|exact (Ht H5)
              |exact (Hquiet (or_intror H2))|exact Hsame].
Defined.

(** * Further properties of the code *)

(** ** Suffix stripping: what is removed *)

Lemma strip_first_suffix_Some (suffixes : list string) (s r : string) :
  Sorter.strip_first_suffix suffixes s = Some r →
  ∃ suffix, suffix ∈ suffixes ∧ s = r +:+ suffix.
Proof.
  induction suffixes as [|suffix rest IH]; simpl; [done|].
  destruct (Py.endswith s suffix) eqn:He.
  - intros [= <-]. exists suffix. split; [apply list_elem_of_here|].
    apply endswith_spec in He as [p ->]. by rewrite drop_last_app.
  - intros (suffix' & Hin & ->)%IH. exists suffix'.
    split; [by apply list_elem_of_further|done].
Qed.

Lemma strip_first_suffix_None (suffixes : list string) (s : string) :
  Sorter.strip_first_suffix suffixes s = None ↔
    ∀ suffix, suffix ∈ suffixes → Py.endswith s suffix = false.
Proof.
  induction suffixes as [|suffix rest IH]; simpl.
  - split; [|done]. intros _ suffix Hin. by apply elem_of_nil in Hin.
  - destruct (Py.endswith s suffix) eqn:He.
    + split; [done|]. intros H. specialize (H suffix (list_elem_of_here _ _)).
      congruence.
    + rewrite IH. split.
      * intros H suffix' [->|Hin]%elem_of_cons; auto.
      * intros H suffix' Hin. apply H. by apply list_elem_of_further.
Qed.

Lemma app_empty_r (s : string) : s +:+ "" = s.
Proof. induction s as [|a s IH]; [done|]. by rewrite app_cons, IH. Qed.

(** X1. Both suffix strippers return a prefix of their argument: the
    argument is the result followed by nothing or by exactly one suffix of
    the function's own table. At most one suffix is removed, so an
    identifier carrying two suffixes keeps the inner one. *)
Theorem normalize_fileset_id_strips_one_suffix (fileset_id : string) :
  (∃ suffix : string,
      fileset_id = Sorter.normalize_fileset_id fileset_id +:+ suffix
      ∧ (suffix = "" ∨ suffix ∈ Sorter.suffixes))
  ∧ (∃ suffix : string,
        fileset_id = Downloader.normalize_fileset_id fileset_id +:+ suffix
        ∧ (suffix = ""
           ∨ suffix ∈ Downloader.audio_suffixes ++ Downloader.text_suffixes))
  ∧ (String.length fileset_id - 7
       ≤ String.length (Sorter.normalize_fileset_id fileset_id)
       ≤ String.length fileset_id)%nat
  ∧ (String.length fileset_id - 8
       ≤ String.length (Downloader.normalize_fileset_id fileset_id)
       ≤ String.length fileset_id)%nat.
Proof.
  assert (∃ suffix : string,
      fileset_id = Sorter.normalize_fileset_id fileset_id +:+ suffix
      ∧ (suffix = "" ∨ suffix ∈ Sorter.suffixes)) as H1.
  { unfold Sorter.normalize_fileset_id.
    destruct (Sorter.strip_first_suffix _ _) as [r|] eqn:Hr; simpl.
    - apply strip_first_suffix_Some in Hr as (suffix & Hin & ->). eauto.
    - exists "". by rewrite app_empty_r; auto. }
  assert (∃ suffix : string,
        fileset_id = Downloader.normalize_fileset_id fileset_id +:+ suffix
        ∧ (suffix = ""
           ∨ suffix ∈ Downloader.audio_suffixes ++ Downloader.text_suffixes))
    as H2.
  { unfold Downloader.normalize_fileset_id.
    destruct (Sorter.strip_first_suffix Downloader.audio_suffixes _)
      as [r|] eqn:Hr.
    - apply strip_first_suffix_Some in Hr as (suffix & Hin & ->).
      exists suffix. split; [done|]. right. apply elem_of_app. by left.
    - destruct (Sorter.strip_first_suffix Downloader.text_suffixes _)
        as [r|] eqn:Hr'.
      + apply strip_first_suffix_Some in Hr' as (suffix & Hin & ->).
        exists suffix. split; [done|]. right. apply elem_of_app. by right.
      + exists "". by rewrite app_empty_r; auto. }
  assert (∀ suffix, suffix = "" ∨ suffix ∈ Sorter.suffixes →
                    String.length suffix ≤ 7)%nat as Hlen1.
  { intros suffix [->|Hs]; [simpl; lia|]. unfold Sorter.suffixes in Hs.
    repeat (apply elem_of_cons in Hs as [->|Hs]; [simpl; lia|]).
    by apply elem_of_nil in Hs. }
  assert (∀ suffix,
            suffix = ""
            ∨ suffix ∈ Downloader.audio_suffixes ++ Downloader.text_suffixes →
            String.length suffix ≤ 8)%nat as Hlen2.
  { intros suffix [->|Hs]; [simpl; lia|].
    unfold Downloader.audio_suffixes, Downloader.text_suffixes in Hs.
    simpl in Hs.
    repeat (apply elem_of_cons in Hs as [->|Hs]; [simpl; lia|]).
    by apply elem_of_nil in Hs. }
  pose proof H1 as (suffix1 & Heq1 & Hs1%Hlen1).
  pose proof H2 as (suffix2 & Heq2 & Hs2%Hlen2).
  apply (f_equal String.length) in Heq1, Heq2.
  rewrite length_app in Heq1, Heq2.
  split_and!; [exact H1|exact H2|lia..].
Qed.

Example normalize_fileset_id_twice :
  Sorter.normalize_fileset_id "ENGWEBN1DA-mp3-64" = "ENGWEBN1DA-mp3"
  ∧ Sorter.normalize_fileset_id "ENGWEBN1DA-mp3" = "ENGWEBN1DA"
  ∧ Downloader.normalize_fileset_id "ENGESV_ET-json-opus16" = "ENGESV_ET-json"
  ∧ Downloader.normalize_fileset_id "ENGESV_ET-json" = "ENGESV_ET".
Proof. repeat split; reflexivity. Qed.

(** ** Work identity *)

Lemma default_strip_prefix (suffixes : list string) (s : string) :
  ∃ rest, s = default s (Sorter.strip_first_suffix suffixes s) +:+ rest.
Proof.
  destruct (Sorter.strip_first_suffix suffixes s) as [r|] eqn:Hr; simpl.
  - apply strip_first_suffix_Some in Hr as (suffix & _ & ->). by exists suffix.
  - exists "". by rewrite app_empty_r.
Qed.

Lemma drop_last_prefix (k : nat) (s : string) :
  ∃ rest, s = Py.drop_last k s +:+ rest.
Proof.
  exists (Py.drop (String.length s - k) s). unfold Py.drop_last.
  by rewrite take_drop.
Qed.

(** X2. The work identity of a fileset is the declared Bible abbreviation
    whenever that is not empty; otherwise it is derived from the fileset
    identifier and is always a prefix of it. *)
Theorem get_distinct_id_from_metadata_prefix (metadata : Sorter.Metadata) :
  (Sorter.bible_abbr metadata ≠ "" →
     Downloader.get_distinct_id_from_metadata metadata
     = Sorter.bible_abbr metadata)
  ∧ (Sorter.bible_abbr metadata = "" →
       ∃ rest : string,
         Sorter.fs_id metadata
         = Downloader.get_distinct_id_from_metadata metadata +:+ rest).
Proof.
  unfold Downloader.get_distinct_id_from_metadata. cbn zeta. split.
  - intros Hne. by rewrite bool_decide_eq_false_2.
  - intros ->. rewrite bool_decide_eq_true_2 by done. simpl.
    destruct (default_strip_prefix Downloader.audio_suffixes
                (Sorter.fs_id metadata)) as (r1 & H1).
    set (base1 := default (Sorter.fs_id metadata) _) in *.
    destruct (default_strip_prefix ["_ET-json"; "_ET-usx"; "_ET"] base1)
      as (r2 & H2).
    set (base2 := default base1 _) in *.
    assert (∀ b, (∃ r, base2 = b +:+ r) →
                 ∃ rest, Sorter.fs_id metadata = b +:+ rest) as Hcompose.
    { intros b [r Hb]. exists (r +:+ r2 +:+ r1).
      by rewrite H1, H2, Hb, !app_assoc_s. }
    repeat case_match; apply Hcompose;
      first [apply drop_last_prefix | exists ""; by rewrite app_empty_r].
Qed.

Lemma get_distinct_id_from_metadata_prefix_witness :
  Sorter.bible_abbr (Examples.audio_of "" "AAAMLTN2DA-opus16") = ""
  ∧ Downloader.get_distinct_id_from_metadata
      (Examples.audio_of "" "AAAMLTN2DA-opus16") = "AAAMLT"
  ∧ Sorter.bible_abbr (Examples.audio_of "ENGESV" "ENGESVN1DA") ≠ ""
  ∧ ∃ rest : string,
      Sorter.fs_id (Examples.audio_of "" "AAAMLTN2DA-opus16")
      = Downloader.get_distinct_id_from_metadata
          (Examples.audio_of "" "AAAMLTN2DA-opus16") +:+ rest.
Proof.
  assert (Sorter.bible_abbr (Examples.audio_of "" "AAAMLTN2DA-opus16") = "")
    as H1 by reflexivity.
  assert (Sorter.bible_abbr (Examples.audio_of "ENGESV" "ENGESVN1DA") ≠ "")
    as H2 by (by vm_compute).
  split_and!; [exact H1|reflexivity|exact H2|].
  exact (proj2 (get_distinct_id_from_metadata_prefix _) H1).
Defined.

Lemma endswith_other (s x y : string) :
  Py.endswith s x = true → x ≠ "" → y ≠ "" →
  Py.last_char x ≠ Py.last_char y → Py.endswith s y = false.
Proof. intros. by apply (endswith_exclusive s x y). Qed.

Lemma strip_first_suffix_audio_variant (x suffix : string) :
  suffix ∈ Downloader.audio_suffixes →
  Sorter.strip_first_suffix Downloader.audio_suffixes (x +:+ suffix) = Some x.
Proof.
  intros Hin.
  assert (Py.endswith (x +:+ suffix) suffix = true) as Hends
    by (apply endswith_spec; by exists x).
  unfold Downloader.audio_suffixes in *. cbn [Sorter.strip_first_suffix].
  repeat (apply elem_of_cons in Hin as [->|Hin];
    [rewrite ?(endswith_other _ _ "-opus16" Hends) by done;
     rewrite ?(endswith_other _ _ "-opus32" Hends) by done;
     rewrite ?(endswith_other _ _ "-mp3-64" Hends) by done;
     rewrite ?(endswith_other _ _ "-mp3-128" Hends) by done;
     rewrite Hends; f_equal; apply drop_last_app|]).
  by apply elem_of_nil in Hin.
Qed.

(** X3. Without a declared abbreviation, a fileset and its audio format
    variants (the identifier followed by one audio format suffix) get the
    same work identity, provided the plain identifier does not itself end
    with a format suffix; with a common non-empty abbreviation they share it
    in any case. *)
Theorem get_distinct_id_from_metadata_format_variant
    (plain variant : Sorter.Metadata) (suffix : string) :
  Sorter.bible_abbr variant = Sorter.bible_abbr plain →
  suffix ∈ Downloader.audio_suffixes →
  Sorter.fs_id variant = Sorter.fs_id plain +:+ suffix →
  Sorter.strip_first_suffix Downloader.audio_suffixes (Sorter.fs_id plain)
    = None →
  Downloader.get_distinct_id_from_metadata variant
  = Downloader.get_distinct_id_from_metadata plain.
Proof.
  intros Habbr Hsuffix Hid Hplain.
  unfold Downloader.get_distinct_id_from_metadata. cbn zeta.
  rewrite Habbr, Hid, Hplain.
  by rewrite (strip_first_suffix_audio_variant _ _ Hsuffix).
Qed.

Lemma get_distinct_id_from_metadata_format_variant_witness :
  let plain := Examples.audio_of "" "AAAMLTN1DA" in
  let variant := Examples.audio_of "" "AAAMLTN1DA-opus16" in
  "-opus16" ∈ Downloader.audio_suffixes
  ∧ Downloader.get_distinct_id_from_metadata variant
    = Downloader.get_distinct_id_from_metadata plain
  ∧ Downloader.get_distinct_id_from_metadata plain = "AAAMLT".
Proof.
  intros plain variant.
  assert ("-opus16" ∈ Downloader.audio_suffixes) as H1
    by apply list_elem_of_here.
  split_and!; [exact H1| |reflexivity].
  exact (get_distinct_id_from_metadata_format_variant plain variant "-opus16"
           eq_refl H1 eq_refl eq_refl).
Defined.

(** ** The dramatization filter, with order and multiplicity *)

Section filter_multiset.
Import Sorter.

Lemma bind_group_append k v (g : list (string * list string)) :
  group_append k v g ≫= snd ≡ₚ (g ≫= snd) ++ [v].
Proof.
  induction g as [|[k0 vs0] g IH]; [done|]. cbn [group_append].
  destruct (decide (k0 = k)) as [->|Hne]; rewrite !bind_cons; cbn [snd].
  - rewrite <- !app_assoc. f_equiv. apply Permutation_app_comm.
  - rewrite IH. by rewrite app_assoc.
Qed.

Lemma base_groups_flatten (filesets : list string) :
  base_groups_of filesets ≫= snd
  ≡ₚ filter (λ x, 3 ≤ String.length x)%nat filesets.
Proof.
  unfold base_groups_of.
  induction filesets as [|x l IH] using rev_ind; [done|].
  rewrite foldl_app, filter_app. cbn [foldl]. unfold group_step at 1.
  destruct (decide (3 ≤ String.length x)%nat) as [Hx|Hx].
  - rewrite bind_group_append, IH. by rewrite filter_cons_True.
  - rewrite IH, filter_cons_False by done. by rewrite app_nil_r.
Qed.

Lemma filter_bind {A B} (P : B → Prop) `{∀ x, Decision (P x)}
    (f : A → list B) (l : list A) :
  filter P (l ≫= f) = l ≫= (λ x, filter P (f x)).
Proof.
  induction l as [|x l IH]; [done|].
  by rewrite !bind_cons, filter_app, IH.
Qed.

Lemma bind_ext_in {A B} (f g : A → list B) (l : list A) :
  (∀ x, x ∈ l → f x = g x) → l ≫= f = l ≫= g.
Proof.
  induction l as [|x l IH]; intros Hfg; [done|].
  rewrite !bind_cons, Hfg, IH; [done| |apply list_elem_of_here].
  intros y Hy. apply Hfg. by apply list_elem_of_further.
Qed.

Lemma filter_ext_in {A} (P Q : A → Prop) `{∀ x, Decision (P x)}
    `{∀ x, Decision (Q x)} (l : list A) :
  (∀ x, x ∈ l → P x ↔ Q x) → filter P l = filter Q l.
Proof.
  induction l as [|x l IH]; intros HPQ; [done|].
  rewrite !filter_cons.
  rewrite IH by (intros y Hy; apply HPQ; by apply list_elem_of_further).
  specialize (HPQ x (list_elem_of_here _ _)).
  destruct (decide (P x)), (decide (Q x)); tauto.
Qed.

Lemma filter_all_in {A} (P : A → Prop) `{∀ x, Decision (P x)} (l : list A) :
  (∀ x, x ∈ l → P x) → filter P l = l.
Proof.
  induction l as [|x l IH]; intros HP; [done|].
  rewrite filter_cons_True by (apply HP, list_elem_of_here).
  rewrite IH; [done|]. intros y Hy. by apply HP, list_elem_of_further.
Qed.

Lemma filter_group_alt (fs_list : list string) :
  filter_group fs_list
  = filter (λ x, ¬ (is_version "2" x = true
                    ∧ Exists (λ y, is_version "1" y = true) fs_list))
           fs_list.
Proof.
  unfold filter_group. cbn zeta.
  destruct (existsb (is_version "1") fs_list) eqn:H1; simpl.
  - assert (Exists (λ y, is_version "1" y = true) fs_list) as Hex.
    { apply existsb_exists in H1 as (y & Hy%list_elem_of_In & Hy1).
      apply Exists_exists. by exists y. }
    case_bool_decide as H2; simpl.
    + symmetry. apply filter_all_in. intros x Hx [Hx2 _].
      apply (filter_nil_not_elem_of _ _ x H2); [|done]. by apply Is_true_true.
    + apply filter_ext_in. intros x Hx.
      rewrite list_elem_of_filter, Is_true_true. split.
      * intros Hn [Hx2 _]. auto.
      * intros Hn [Hx2 _]. by apply Hn.
  - symmetry. apply filter_all_in. intros x Hx (_ & Hex).
    apply Exists_exists in Hex as (y & Hy & Hy1).
    assert (existsb (is_version "1") fs_list = true) as Hex; [|congruence].
    apply existsb_exists. exists y. by rewrite <- list_elem_of_In.
Qed.

Lemma filter_group_survives (filesets : list string) k vs :
  (k, vs) ∈ base_groups_of filesets →
  filter_group vs = filter (survives filesets) vs.
Proof.
  intros Hin. destruct (groups_of_base_groups filesets) as [Hs Hc Hk].
  rewrite filter_group_alt. apply filter_ext_in. intros x Hx.
  destruct (Hs _ _ _ Hin Hx) as (Hxl & Hlen & Hkey).
  unfold survives, plain_sibling_exists. rewrite !Exists_exists. split.
  - intros Hn. split; [done|]. intros (Hx2 & y & Hy & Hy1 & Hyk).
    apply Hn. split; [done|]. exists y. split; [|done].
    destruct (Hc y Hy (is_version_length _ _ Hy1)) as (vs' & Hvs' & Hyvs').
    rewrite Hyk, Hkey in Hvs'.
    by rewrite (NoDup_fst_functional _ _ _ _ Hk Hin Hvs').
  - intros [_ Hn] (Hx2 & y & Hy & Hy1). apply Hn. split; [done|].
    exists y. destruct (Hs _ _ _ Hin Hy) as (? & ? & ?).
    split_and!; [done..|congruence].
Qed.

Lemma filter_dramatized_versions_survivors (filesets : list string) :
  filter_dramatized_versions filesets ≡ₚ filter (survives filesets) filesets.
Proof.
  unfold filter_dramatized_versions.
  rewrite (bind_ext_in _ (λ g, filter (survives filesets) g.2)).
  2: { intros [k vs] Hin. by apply (filter_group_survives _ k). }
  rewrite <- (filter_bind (survives filesets) snd).
  rewrite base_groups_flatten, list_filter_filter.
  apply Permutation_refl'. apply filter_ext_in. intros x _.
  unfold survives. tauto.
Qed.

Lemma formats_filter_dramatized_versions_eq (filesets : list string) :
  Formats.filter_dramatized_versions filesets
  = filter_dramatized_versions filesets.
Proof. reflexivity. Qed.

Lemma filter_group_subseteq (vs : list string) x :
  x ∈ filter_group vs → x ∈ vs.
Proof. rewrite filter_group_alt, list_elem_of_filter. tauto. Qed.

Lemma filter_group_idempotent (vs : list string) :
  filter_group (filter_group vs) = filter_group vs.
Proof.
  rewrite (filter_group_alt (filter_group vs)). apply filter_all_in.
  intros x Hx [Hx2 Hex]. rewrite filter_group_alt in Hx.
  apply list_elem_of_filter in Hx as [Hn _]. apply Hn. split; [done|].
  apply Exists_exists in Hex as (y & Hy & Hy1). apply Exists_exists.
  exists y. split; [|done]. by apply filter_group_subseteq.
Qed.

Lemma is_version_exclusive (x : string) :
  is_version "1" x = true → is_version "2" x = false.
Proof.
  unfold is_version. rewrite andb_true_iff, !bool_decide_eq_true.
  intros [_ ->]. by rewrite andb_false_r.
Qed.

Lemma filter_group_nonempty (vs : list string) :
  vs ≠ [] → filter_group vs ≠ [].
Proof.
  intros Hvs. unfold filter_group. cbn zeta.
  destruct (existsb (is_version "1") vs) eqn:H1; simpl; [|done].
  case_bool_decide; simpl; [done|].
  apply existsb_exists in H1 as (y & Hy%list_elem_of_In & Hy1).
  intros Hnil. apply (filter_nil_not_elem_of _ _ y Hnil); [|done].
  rewrite list_elem_of_filter. intros [Hy2 _].
  apply Is_true_true in Hy2. by rewrite is_version_exclusive in Hy2.
Qed.

(** Appending to a dictionary whose last key is the one appended to. *)
Lemma group_append_last k v (g : list (string * list string)) acc :
  k ∉ g.*1 → group_append k v (g ++ [(k, acc)]) = g ++ [(k, acc ++ [v])].
Proof.
  induction g as [|[k0 vs0] g IH]; intros Hk.
  - simpl. by rewrite decide_True.
  - rewrite fmap_cons, not_elem_of_cons in Hk. destruct Hk as [Hne Hk].
    cbn [app group_append]. cbn [fst] in Hne.
    rewrite decide_False by done. by rewrite IH.
Qed.

Lemma group_append_fresh k v (g : list (string * list string)) :
  k ∉ g.*1 → group_append k v g = g ++ [(k, [v])].
Proof.
  induction g as [|[k0 vs0] g IH]; intros Hk; [done|].
  rewrite fmap_cons, not_elem_of_cons in Hk. destruct Hk as [Hne Hk].
  cbn [app group_append]. cbn [fst] in Hne.
  rewrite decide_False by done. by rewrite IH.
Qed.

Lemma foldl_group_step_last k (g : list (string * list string)) acc vs :
  k ∉ g.*1 →
  Forall (λ x, (3 ≤ String.length x)%nat ∧ base_key x = k) vs →
  foldl group_step (g ++ [(k, acc)]) vs = g ++ [(k, acc ++ vs)].
Proof.
  intros Hk Hvs. revert acc.
  induction Hvs as [|x vs [Hlen Hkey] _ IH]; intros acc.
  - by rewrite app_nil_r.
  - cbn [foldl]. unfold group_step at 2. rewrite decide_True by done.
    rewrite Hkey, group_append_last by done.
    rewrite IH. by rewrite <- app_assoc.
Qed.

(** A dictionary of well-formed groups is what grouping its flattening
    rebuilds. *)
Lemma base_groups_of_flattened (g : list (string * list string)) :
  NoDup g.*1 →
  Forall (λ kv, kv.2 ≠ []
                ∧ Forall (λ x, (3 ≤ String.length x)%nat
                               ∧ base_key x = kv.1) kv.2) g →
  base_groups_of (g ≫= snd) = g.
Proof.
  unfold base_groups_of.
  induction g as [|[k vs] g IH] using rev_ind; intros Hnd Hg; [done|].
  rewrite fmap_app, NoDup_app in Hnd. destruct Hnd as (Hnd & Hk & _).
  apply Forall_app in Hg as [Hg Hkv].
  apply Forall_singleton in Hkv as [Hne Hvs]. cbn [fst snd] in *.
  rewrite bind_app, bind_singleton, foldl_app, IH by done. cbn [snd].
  assert (k ∉ g.*1) as Hfresh.
  { intros Hin. apply (Hk k Hin). apply list_elem_of_here. }
  destruct vs as [|v vs]; [done|].
  apply Forall_cons in Hvs as [[Hlen Hkey] Hvs].
  cbn [foldl]. unfold group_step at 2. rewrite decide_True by done.
  rewrite Hkey, group_append_fresh by done.
  by rewrite foldl_group_step_last.
Qed.

Lemma base_groups_nonempty (filesets : list string) :
  Forall (λ kv : string * list string, kv.2 ≠ []) (base_groups_of filesets).
Proof.
  unfold base_groups_of.
  induction filesets as [|x l IH] using rev_ind; [constructor|].
  rewrite foldl_app. cbn [foldl]. unfold group_step at 1.
  case_decide; [|done].
  revert IH. generalize (foldl group_step [] l) (base_key x). clear.
  intros g k. induction g as [|[k0 vs0] g IHg]; intros Hg.
  - simpl. by repeat constructor.
  - apply Forall_cons in Hg as [H0 Hg]. cbn [group_append].
    case_decide; constructor; auto. simpl. by destruct vs0.
Qed.

Lemma filter_dramatized_versions_twice (filesets : list string) :
  filter_dramatized_versions (filter_dramatized_versions filesets)
  = filter_dramatized_versions filesets.
Proof.
  destruct (groups_of_base_groups filesets) as [Hs Hc Hk].
  pose proof (base_groups_nonempty filesets) as Hne.
  set (g := base_groups_of filesets) in *.
  set (g' := (λ kv : string * list string, (kv.1, filter_group kv.2)) <$> g).
  assert (filter_dramatized_versions filesets = g' ≫= snd) as Hflat.
  { unfold filter_dramatized_versions. fold g. subst g'.
    clear. induction g as [|kv g IH]; [done|].
    by rewrite fmap_cons, !bind_cons, IH. }
  assert (base_groups_of (g' ≫= snd) = g') as Hregroup.
  { apply base_groups_of_flattened.
    - subst g'. by rewrite <- list_fmap_compose.
    - subst g'. apply Forall_fmap. rewrite Forall_forall in Hne.
      apply Forall_forall. intros [k vs] Hin. simpl. split.
      + apply filter_group_nonempty. by apply (Hne (k, vs)).
      + apply Forall_forall. intros x Hx%filter_group_subseteq.
        destruct (Hs _ _ _ Hin Hx) as (_ & ? & ?). done. }
  rewrite Hflat at 1. unfold filter_dramatized_versions at 1.
  rewrite Hregroup, Hflat. subst g'. clear.
  induction g as [|kv g IH]; [done|].
  rewrite fmap_cons, !bind_cons, IH. cbn [snd].
  by rewrite filter_group_idempotent.
Qed.
End filter_multiset.

(** X4. Up to order, the dramatization filter (the classifier's and the
    orchestrator's copy alike) returns exactly the input identifiers of at
    least three characters that are not a dramatized variant with a plain
    sibling in the input, each as often as it occurs in the input. It
    therefore never lengthens the list and never introduces a duplicate. *)
Theorem filter_dramatized_versions_keeps_survivors (filesets : list string) :
  Sorter.filter_dramatized_versions filesets
    ≡ₚ filter (survives filesets) filesets
  ∧ Formats.filter_dramatized_versions filesets
    = Sorter.filter_dramatized_versions filesets
  ∧ (length (Sorter.filter_dramatized_versions filesets)
       ≤ length filesets)%nat
  ∧ (NoDup filesets → NoDup (Sorter.filter_dramatized_versions filesets)).
Proof.
  pose proof (filter_dramatized_versions_survivors filesets) as Hperm.
  split_and!; [done|reflexivity| |].
  - rewrite Hperm. apply length_filter.
  - intros Hnd. rewrite Hperm. by apply NoDup_filter.
Qed.

Lemma filter_dramatized_versions_keeps_survivors_witness :
  NoDup ["ENGWEBN2DA"; "ab"; "ENGWEBN1DA"; "ENGKJVO2DA"]
  ∧ NoDup (Sorter.filter_dramatized_versions
             ["ENGWEBN2DA"; "ab"; "ENGWEBN1DA"; "ENGKJVO2DA"])
  ∧ Sorter.filter_dramatized_versions
      ["ENGWEBN2DA"; "ab"; "ENGWEBN1DA"; "ENGKJVO2DA"]
    = ["ENGWEBN1DA"; "ENGKJVO2DA"].
Proof.
  assert (NoDup ["ENGWEBN2DA"; "ab"; "ENGWEBN1DA"; "ENGKJVO2DA"]) as H
    by (apply (bool_decide_unpack _); by vm_compute).
  split_and!; [exact H| |reflexivity].
  exact (proj2 (proj2 (proj2
           (filter_dramatized_versions_keeps_survivors _))) H).
Defined.

(** X5. Filtering dramatized versions twice returns the very same list as
    filtering once, with the same order and multiplicities. *)
Theorem filter_dramatized_versions_stable (filesets : list string) :
  Sorter.filter_dramatized_versions
    (Sorter.filter_dramatized_versions filesets)
  = Sorter.filter_dramatized_versions filesets
  ∧ Formats.filter_dramatized_versions
      (Formats.filter_dramatized_versions filesets)
    = Formats.filter_dramatized_versions filesets.
Proof.
  split; apply filter_dramatized_versions_twice.
Qed.

(** ** Grouping by a key, and the format filter *)

Lemma filter_none_in {A} (P : A → Prop) `{!∀ x, Decision (P x)}
    (l : list A) :
  (∀ x, x ∈ l → ¬ P x) → filter P l = [].
Proof.
  induction l as [|x l IH]; intros Hall; [done|].
  rewrite filter_cons_False by (apply Hall, list_elem_of_here).
  apply IH. intros y Hy. by apply Hall, list_elem_of_further.
Qed.

Section grouping.
Variable key : string → string.

Lemma foldl_group_append_spec (l : list string) :
  let g := foldl (λ g x, Sorter.group_append (key x) x g) [] l in
  NoDup g.*1
  ∧ (∀ k vs, (k, vs) ∈ g → vs = filter (λ x, key x = k) l ∧ vs ≠ [])
  ∧ (∀ x, x ∈ l → key x ∈ g.*1).
Proof.
  cbn zeta. induction l as [|x l IH] using rev_ind.
  { split_and!; [constructor| |]; intros *; by intros ?%elem_of_nil. }
  rewrite foldl_app. cbn [foldl].
  destruct IH as (Hnd & Hgr & Hk).
  set (g := foldl (λ g x, Sorter.group_append (key x) x g) [] l) in *.
  assert (NoDup (Sorter.group_append (key x) x g).*1) as Hnd'.
  { rewrite group_append_keys. case_decide; [done|].
    apply NoDup_app. split_and!; [done| |apply NoDup_singleton].
    by intros y Hy ->%list_elem_of_singleton. }
  split_and!; [done| |].
  - intros k vs Hin. rewrite filter_app.
    destruct (decide (k = key x)) as [->|Hne].
    + rewrite filter_cons_True, filter_nil by done.
      destruct (decide (key x ∈ g.*1)) as [Hold|Hnew].
      * apply list_elem_of_fmap in Hold as ([k0 vs0] & Hk0 & Hin0).
        cbn [fst] in Hk0. subst k0.
        pose proof (group_append_grown _ x _ _ Hin0 Hnd) as Hin'.
        rewrite (NoDup_fst_functional _ _ _ _ Hnd' Hin Hin').
        destruct (Hgr _ _ Hin0) as [<- _]. split; [done|].
        by destruct vs0.
      * pose proof (group_append_new _ x _ Hnew) as Hin'.
        rewrite (NoDup_fst_functional _ _ _ _ Hnd' Hin Hin').
        split; [|done]. rewrite filter_none_in; [done|].
        intros y Hy Hkey. apply Hnew. rewrite <- Hkey. by apply Hk.
    + rewrite filter_cons_False, filter_nil, app_nil_r by done.
      apply elem_of_group_append in Hin as [[? _]|[[? _]|Hin]]; [done..|].
      by apply Hgr.
  - intros y [Hy| ->%list_elem_of_singleton]%elem_of_app.
    + rewrite group_append_keys. case_decide; [by apply Hk|].
      apply elem_of_app. left. by apply Hk.
    + rewrite group_append_keys. case_decide; [done|].
      apply elem_of_app. right. apply list_elem_of_here.
Qed.

(** Identifiers with pairwise distinct keys end up in singleton groups, in
    their order. *)
Lemma foldl_group_append_distinct (l : list string) :
  NoDup (key <$> l) →
  foldl (λ g x, Sorter.group_append (key x) x g) [] l
  = (λ x, (key x, [x])) <$> l.
Proof.
  induction l as [|x l IH] using rev_ind; [done|]. intros Hnd.
  rewrite fmap_app, NoDup_app in Hnd. destruct Hnd as (Hnd & Hfresh & _).
  rewrite foldl_app, fmap_app, IH by done. cbn [foldl fmap list_fmap].
  apply group_append_fresh. rewrite <- list_fmap_compose.
  intros Hin. apply (Hfresh _ Hin). apply list_elem_of_here.
Qed.
End grouping.

Lemma take_last_ET (fs : string) :
  Py.take_last 3 fs = "_ET" ↔ Py.endswith fs "_ET" = true.
Proof.
  unfold Py.endswith. rewrite andb_true_iff, bool_decide_eq_true.
  rewrite String.eqb_eq. cbn [String.length]. split; [|tauto].
  intros Heq. split; [|done].
  apply (f_equal String.length) in Heq. unfold Py.take_last in Heq.
  rewrite length_drop in Heq. cbn in Heq. lia.
Qed.

Lemma format_base_ET (fs : string) :
  Py.endswith fs "_ET" = true → Formats.format_base fs = fs.
Proof.
  intros Hends. unfold Formats.format_base.
  assert (Sorter.strip_first_suffix Formats.format_suffixes fs = None)
    as ->; [|done].
  apply strip_first_suffix_None. intros suffix Hin.
  apply (endswith_other fs "_ET"); [done|done| |].
  - intros ->. revert Hin. apply (bool_decide_unpack _). by vm_compute.
  - unfold Formats.format_suffixes in Hin.
    repeat (apply elem_of_cons in Hin as [->|Hin]; [by vm_compute|]).
    by apply elem_of_nil in Hin.
Qed.

Lemma existsb_eq (k : string) (vs : list string) :
  existsb (λ fs, bool_decide (fs = k)) vs = bool_decide (k ∈ vs).
Proof.
  apply eq_true_iff_eq. rewrite existsb_exists, bool_decide_eq_true. split.
  - intros (x & Hx%list_elem_of_In & Hk%bool_decide_eq_true). by subst.
  - intros Hin. exists k. split; [by apply list_elem_of_In|].
    by apply bool_decide_eq_true.
Qed.

(** What the second loop appends for a group of identifiers of base [k]. *)
Lemma representative_spec (k : string) (vs : list string) :
  vs ≠ [] → (∀ x, x ∈ vs → Formats.format_base x = k) →
  ∃ r, Formats.representative k vs = Some r
       ∧ r ∈ vs
       ∧ (k ∈ vs → r = k)
       ∧ (k ∉ vs → head vs = Some r).
Proof.
  intros Hne Hkey. unfold Formats.representative.
  destruct (existsb _ vs) eqn:HET.
  - apply existsb_exists in HET as (y & Hy%list_elem_of_In & HyET).
    apply bool_decide_eq_true, take_last_ET in HyET.
    assert (y = k) as ->
      by (rewrite <- (Hkey y Hy); symmetry; by apply format_base_ET).
    destruct (filter (λ fs, Py.endswith fs "_ET") vs) as [|r rs] eqn:Hf.
    { exfalso. apply (filter_nil_not_elem_of _ _ k Hf); [|done].
      by apply Is_true_true. }
    assert (r ∈ filter (λ fs, Py.endswith fs "_ET") vs) as Hr
      by (rewrite Hf; apply list_elem_of_here).
    apply list_elem_of_filter in Hr as [HrET%Is_true_true Hr].
    assert (r = k) as ->
      by (rewrite <- (Hkey r Hr); symmetry; by apply format_base_ET).
    exists k. simpl. split_and!; done.
  - rewrite existsb_eq. case_bool_decide as Hk.
    + exists k. split_and!; done.
    + destruct vs as [|r rs]; [done|]. exists r. simpl.
      split_and!; [done|apply list_elem_of_here|done|done].
Qed.

Lemma filter_duplicate_formats_spec (filesets : list string) :
  ∃ result,
    Formats.filter_duplicate_formats filesets = Some result
    ∧ Forall2 (λ g y,
         let vs := filter (λ x, Formats.format_base x = g.1) filesets in
         g.2 = vs ∧ y ∈ vs ∧ (g.1 ∈ vs → y = g.1)
         ∧ (g.1 ∉ vs → head vs = Some y))
        (Formats.format_groups_of filesets) result.
Proof.
  unfold Formats.filter_duplicate_formats.
  destruct (foldl_group_append_spec Formats.format_base filesets)
    as (_ & Hgr & _).
  fold (Formats.format_groups_of filesets) in Hgr.
  induction (Formats.format_groups_of filesets) as [|[k vs] g IH].
  { exists []. split; [done|constructor]. }
  destruct IH as (result & Hres & Hall).
  { intros k' vs' Hin. apply Hgr. by apply list_elem_of_further. }
  destruct (Hgr k vs) as [Hvs Hne]; [apply list_elem_of_here|].
  destruct (representative_spec k vs Hne) as (r & Hr & Hin & Hk & Hnk).
  { intros x. rewrite Hvs, list_elem_of_filter. tauto. }
  exists (r :: result). split.
  - cbn [mapM fst snd]. rewrite Hr. cbn. rewrite Hres. done.
  - constructor; [|done]. cbn [fst snd]. by rewrite <- Hvs.
Qed.

Lemma filter_duplicate_formats_bases (filesets result : list string) :
  Formats.filter_duplicate_formats filesets = Some result →
  Formats.format_base <$> result = (Formats.format_groups_of filesets).*1.
Proof.
  intros Hres. destruct (filter_duplicate_formats_spec filesets)
    as (result' & Hres' & Hall).
  rewrite Hres in Hres'. injection Hres' as <-. clear Hres.
  induction Hall as [|[k vs] y g ys (_ & Hy & _) _ IH]; [done|].
  rewrite !fmap_cons, IH. cbn [fst] in *.
  apply list_elem_of_filter in Hy as [-> _]. done.
Qed.

(** X6. [filter_duplicate_formats] never fails on [...[0]], returns only
    identifiers of its input, and returns exactly one identifier for every
    base that occurs among the input's identifiers. *)
Theorem filter_duplicate_formats_one_per_base (filesets : list string) :
  ∃ result,
    Formats.filter_duplicate_formats filesets = Some result
    ∧ (∀ y, y ∈ result → y ∈ filesets)
    ∧ NoDup (Formats.format_base <$> result)
    ∧ (∀ x, x ∈ filesets →
         Formats.format_base x ∈ Formats.format_base <$> result).
Proof.
  destruct (filter_duplicate_formats_spec filesets)
    as (result & Hres & Hall).
  exists result. split; [done|].
  rewrite (filter_duplicate_formats_bases _ _ Hres).
  destruct (foldl_group_append_spec Formats.format_base filesets)
    as (Hnd & _ & Hk).
  split_and!; [|done|done].
  intros y Hy. apply list_elem_of_lookup in Hy as [i Hi].
  destruct (Forall2_lookup_r _ _ _ _ _ Hall Hi) as (g & _ & _ & Hin & _).
  apply list_elem_of_filter in Hin. tauto.
Qed.

(** X7. Which identifier stands for a base: the base itself when the input
    contains it and stripping leaves it unchanged, and otherwise the first
    input identifier with that base. The preference for identifiers ending
    in [_ET] never changes this choice. *)
Theorem filter_duplicate_formats_choice (filesets result : list string)
    (y : string) :
  Formats.filter_duplicate_formats filesets = Some result →
  y ∈ result →
  let variants :=
    filter (λ x, Formats.format_base x = Formats.format_base y) filesets in
  (Formats.format_base y ∈ variants → y = Formats.format_base y)
  ∧ (Formats.format_base y ∉ variants → head variants = Some y).
Proof.
  intros Hres Hy. destruct (filter_duplicate_formats_spec filesets)
    as (result' & Hres' & Hall).
  rewrite Hres in Hres'. injection Hres' as <-.
  apply list_elem_of_lookup in Hy as [i Hi].
  destruct (Forall2_lookup_r _ _ _ _ _ Hall Hi)
    as ([k vs] & _ & _ & Hin & Hk & Hnk).
  cbn [fst] in *.
  assert (Formats.format_base y = k) as ->
    by (apply list_elem_of_filter in Hin; tauto).
  done.
Qed.

Lemma filter_duplicate_formats_choice_witness :
  Formats.filter_duplicate_formats
    ["A-mp3-json"; "B_ET-usx"; "A-mp3"; "B_ET"; "A-opus16"]
  = Some ["A-mp3-json"; "B_ET"; "A-mp3"]
  ∧ Formats.format_base "A-mp3-json" = "A-mp3"
  ∧ head (filter (λ x, Formats.format_base x = Formats.format_base "A-mp3")
            ["A-mp3-json"; "B_ET-usx"; "A-mp3"; "B_ET"; "A-opus16"])
    = Some "A-mp3".
Proof.
  assert (Formats.filter_duplicate_formats
            ["A-mp3-json"; "B_ET-usx"; "A-mp3"; "B_ET"; "A-opus16"]
          = Some ["A-mp3-json"; "B_ET"; "A-mp3"]) as Hres by reflexivity.
  assert ("A-mp3" ∈ ["A-mp3-json"; "B_ET"; "A-mp3"]) as Hin
    by (apply (bool_decide_unpack _); by vm_compute).
  split_and!; [exact Hres|reflexivity|].
  apply (filter_duplicate_formats_choice _ _ _ Hres Hin).
  apply (bool_decide_unpack _). by vm_compute.
Defined.

(** X8. [filter_duplicate_formats] is idempotent: applied to its own
    result it returns that result unchanged. *)
Theorem filter_duplicate_formats_idempotent (filesets result : list string) :
  Formats.filter_duplicate_formats filesets = Some result →
  Formats.filter_duplicate_formats result = Some result.
Proof.
  intros Hres.
  assert (NoDup (Formats.format_base <$> result)) as Hnd.
  { rewrite (filter_duplicate_formats_bases _ _ Hres).
    by destruct (foldl_group_append_spec Formats.format_base filesets)
      as (Hnd & _). }
  unfold Formats.filter_duplicate_formats, Formats.format_groups_of.
  rewrite foldl_group_append_distinct by done.
  clear. induction result as [|y ys IH]; [done|].
  rewrite fmap_cons. cbn [mapM fst snd]. rewrite IH.
  assert (Formats.representative (Formats.format_base y) [y] = Some y)
    as ->; [|done].
  unfold Formats.representative. cbn [existsb]. rewrite !orb_false_r.
  case_bool_decide as HET.
  - apply take_last_ET in HET. rewrite filter_cons_True; [done|].
    by apply Is_true_true.
  - case_bool_decide as Hb; [by rewrite <- Hb|done].
Qed.

Lemma filter_duplicate_formats_idempotent_witness :
  Formats.filter_duplicate_formats
    ["ENGWEBN_ET-json"; "ENGESVO2DA-opus16"; "ENGWEBN_ET"; "ENGESVO2DA-mp3"]
  = Some ["ENGWEBN_ET"; "ENGESVO2DA-opus16"]
  ∧ Formats.filter_duplicate_formats ["ENGWEBN_ET"; "ENGESVO2DA-opus16"]
    = Some ["ENGWEBN_ET"; "ENGESVO2DA-opus16"].
Proof.
  assert (Formats.filter_duplicate_formats
            ["ENGWEBN_ET-json"; "ENGESVO2DA-opus16"; "ENGWEBN_ET";
             "ENGESVO2DA-mp3"]
          = Some ["ENGWEBN_ET"; "ENGESVO2DA-opus16"]) as Hres by reflexivity.
  split; [exact Hres|].
  exact (filter_duplicate_formats_idempotent _ _ Hres).
Defined.

(** ** Pairs and metadata of one language *)

Section pairs.
Import Sorter.
Variable timing_filesets : gset string.

Lemma compute_syncable_pairs_audio (lang_data : LangData) :
  audio_fileset_id <$> compute_syncable_pairs timing_filesets lang_data
  = filter (λ audio_id,
              match_audio_to_text audio_id (text_filesets lang_data) ≠ [])
      (filter_dramatized_versions
         (filter (λ fs, normalize_fileset_id fs ∉ timing_filesets)
                 (audio_filesets lang_data))).
Proof.
  unfold compute_syncable_pairs. cbn zeta.
  induction (filter_dramatized_versions _) as [|a l IH]; [done|].
  rewrite bind_cons, fmap_app, IH.
  destruct (match_audio_to_text a (text_filesets lang_data)) eqn:Hm.
  - by rewrite filter_cons_False by (rewrite Hm; auto).
  - rewrite filter_cons_True by (rewrite Hm; done). done.
Qed.

Lemma compute_syncable_pairs_NoDup (lang_data : LangData) :
  NoDup (audio_filesets lang_data) →
  NoDup (audio_fileset_id <$>
           compute_syncable_pairs timing_filesets lang_data).
Proof.
  intros Hnd. rewrite compute_syncable_pairs_audio.
  apply NoDup_filter. rewrite filter_dramatized_versions_survivors.
  by do 2 apply NoDup_filter.
Qed.

Lemma filter_key_length {A} (f : A → string) (k : string) (l : list A) :
  NoDup (f <$> l) → (length (filter (λ x, f x = k) l) ≤ 1)%nat.
Proof.
  induction l as [|x l IH]; [simpl; lia|].
  rewrite fmap_cons, NoDup_cons. intros [Hx Hnd].
  destruct (decide (f x = k)) as [Hk|Hk].
  - rewrite filter_cons_True by done.
    rewrite (filter_none_in _ l); [simpl; lia|].
    intros y Hy Hyk. apply Hx, list_elem_of_fmap. exists y.
    split; [congruence|done].
  - rewrite filter_cons_False by done. by apply IH.
Qed.

Lemma determine_data_source_text (fileset_id : string)
    (pairs : list SyncPair) :
  determine_data_source timing_filesets fileset_id false pairs = Some "sync"
  ↔ ∃ pair, pair ∈ pairs ∧ fileset_id ∈ text_fileset_id pair.
Proof.
  unfold determine_data_source. cbn [negb].
  destruct (existsb _ pairs) eqn:He.
  - split; [intros _|done].
    apply existsb_exists in He as (p & Hp%list_elem_of_In & Hm).
    exists p. split; [done|]. by apply bool_decide_eq_true in Hm.
  - split; [done|]. intros (p & Hp & Hin).
    apply not_true_iff_false in He. exfalso. apply He.
    apply existsb_exists. exists p. split; [by apply list_elem_of_In|].
    by apply bool_decide_eq_true.
Qed.
End pairs.

(** X9. When the audio identifiers of a language are pairwise distinct,
    [compute_syncable_pairs] returns at most one pair for each audio
    identifier, so the metadata of a fileset lists at most one pair. *)
Theorem compute_syncable_pairs_one_pair_per_audio
    (timing_filesets : gset string) (lang_data : Sorter.LangData) :
  NoDup (Sorter.audio_filesets lang_data) →
  NoDup (Sorter.audio_fileset_id <$>
           Sorter.compute_syncable_pairs timing_filesets lang_data)
  ∧ ∀ detail : Sorter.FilesetDetail,
      (length (Sorter.audio_text_pairs
                 (Sorter.create_metadata timing_filesets detail
                    (Sorter.compute_syncable_pairs timing_filesets
                       lang_data))) ≤ 1)%nat.
Proof.
  intros Hnd.
  pose proof (compute_syncable_pairs_NoDup timing_filesets _ Hnd) as Hpairs.
  split; [done|]. intros detail.
  unfold Sorter.create_metadata. cbn [Sorter.audio_text_pairs].
  destruct (_ && _); [|simpl; lia].
  by apply filter_key_length.
Qed.

Lemma compute_syncable_pairs_one_pair_per_audio_witness :
  NoDup ["ENGWEBN1DA"; "ENGWEBN2DA"; "ENGKJVN2DA"]
  ∧ NoDup (Sorter.audio_fileset_id <$>
             Sorter.compute_syncable_pairs ∅
               {| Sorter.audio_filesets :=
                    ["ENGWEBN1DA"; "ENGWEBN2DA"; "ENGKJVN2DA"];
                  Sorter.text_filesets := ["ENGWEBN_ET"; "ENGKJVN_ET"] |})
  ∧ Sorter.audio_fileset_id <$>
      Sorter.compute_syncable_pairs ∅
        {| Sorter.audio_filesets :=
             ["ENGWEBN1DA"; "ENGWEBN2DA"; "ENGKJVN2DA"];
           Sorter.text_filesets := ["ENGWEBN_ET"; "ENGKJVN_ET"] |}
    = ["ENGWEBN1DA"; "ENGKJVN2DA"].
Proof.
  assert (NoDup ["ENGWEBN1DA"; "ENGWEBN2DA"; "ENGKJVN2DA"]) as Hnd
    by (apply (bool_decide_unpack _); by vm_compute).
  split_and!; [exact Hnd| |by vm_compute].
  exact (proj1 (compute_syncable_pairs_one_pair_per_audio ∅
           {| Sorter.audio_filesets :=
                ["ENGWEBN1DA"; "ENGWEBN2DA"; "ENGKJVN2DA"];
              Sorter.text_filesets := ["ENGWEBN_ET"; "ENGKJVN_ET"] |}
           Hnd)).
Defined.

(** X10. The categorization written by [create_metadata] from the pairs of
    [compute_syncable_pairs]: no fileset is both audio and text; the data
    source is "timing" exactly for an audio fileset with timing; for an
    audio fileset it is "sync" exactly when the fileset is syncable; for
    any other fileset it is "sync" exactly when some pair lists the
    identifier on its text side; and the pair list is non-empty exactly
    for a syncable audio fileset. *)
Theorem create_metadata_data_source
    (timing_filesets : gset string) (lang_data : Sorter.LangData)
    (detail : Sorter.FilesetDetail) :
  let pairs := Sorter.compute_syncable_pairs timing_filesets lang_data in
  let m := Sorter.create_metadata timing_filesets detail pairs in
  Sorter.has_audio m && Sorter.has_text m = false
  ∧ (Sorter.data_source m = Some "timing"
     ↔ Sorter.has_audio m = true ∧ Sorter.has_timing m = true)
  ∧ (Sorter.has_audio m = true →
       (Sorter.data_source m = Some "sync" ↔ Sorter.syncable m = true))
  ∧ (Sorter.has_audio m = false →
       (Sorter.data_source m = Some "sync"
        ↔ ∃ pair, pair ∈ pairs
                  ∧ Sorter.fs_id m ∈ Sorter.text_fileset_id pair))
  ∧ (Sorter.data_source m = None
     ∨ Sorter.data_source m = Some "timing"
     ∨ Sorter.data_source m = Some "sync")
  ∧ (Sorter.audio_text_pairs m ≠ []
     ↔ Sorter.has_audio m = true ∧ Sorter.syncable m = true).
Proof.
  intros pairs m.
  assert (Sorter.syncable m = true →
          Sorter.normalize_fileset_id (Sorter.d_id detail) ∉ timing_filesets)
    as Hsync.
  { intros (pair & Hin & Hid)%is_syncable_true.
    apply elem_of_compute_syncable_pairs in Hin as (_ & Hnt & _).
    cbn in Hid. by rewrite <- Hid. }
  subst m. unfold Sorter.create_metadata in *.
  cbn [Sorter.has_audio Sorter.has_text Sorter.has_timing Sorter.data_source
       Sorter.syncable Sorter.audio_text_pairs Sorter.fs_id] in *.
  split_and!.
  - unfold Py.mem, Sorter.audio_types. case_bool_decide as Ha; [|done].
    simpl. repeat (apply elem_of_cons in Ha as [->|Ha]; [done|]).
    by apply elem_of_nil in Ha.
  - destruct (Py.mem _ _); cbn [negb Sorter.determine_data_source].
    + unfold Sorter.determine_data_source. cbn [negb].
      case_bool_decide; [tauto|]. split; [|intros [_ ?]; done].
      by destruct (existsb _ pairs).
    + split; [|intros [? _]; done].
      unfold Sorter.determine_data_source. cbn [negb].
      by destruct (existsb _ pairs).
  - intros ->. unfold Sorter.determine_data_source, Sorter.is_syncable in *.
    cbn [negb]. case_bool_decide as Ht.
    + split; [done|]. intros Hs. by destruct (Hsync Hs).
    + by destruct (existsb _ pairs).
  - intros ->. apply determine_data_source_text.
  - unfold Sorter.determine_data_source.
    destruct (negb _); [destruct (existsb _ pairs); auto|].
    case_bool_decide; [auto|]. destruct (existsb _ pairs); auto.
  - destruct (Py.mem _ _); cbn [andb]; [|intuition congruence].
    destruct (Sorter.is_syncable _ pairs) eqn:Hs; [|intuition congruence].
    split; [done|]. intros _ Hnil.
    apply is_syncable_true in Hs as (pair & Hin & Hid).
    apply (filter_nil_not_elem_of _ _ pair Hnil); done.
Qed.

(** ** Book sets of short identifiers, and the range of the resolution *)

(** X11. [determine_book_set] returns one of six scopes; it returns
    PARTIAL exactly when the seventh character of the identifier is [P];
    and for an identifier shorter than seven characters the size code
    alone decides. *)
Theorem determine_book_set_range (fileset_id size : string) :
  Sorter.determine_book_set fileset_id size
    ∈ ["OT"; "NT"; "FULL"; "PARTIAL"; "STORY"; "VARIOUS"]
  ∧ (Sorter.determine_book_set fileset_id size = "PARTIAL"
     ↔ String.get 6 fileset_id = Some "P"%char)
  ∧ ((String.length fileset_id < 7)%nat →
       Sorter.determine_book_set fileset_id size
       = BookSetSpec.reconcile BookSetSpec.MUnresolved
           (BookSetSpec.size_signal_of size)).
Proof.
  destruct (decide (7 ≤ String.length fileset_id)%nat) as [Hlen|Hlen].
  - destruct (get_Some_of_length 6 fileset_id) as [c Hc]; [lia|].
    rewrite (determine_book_set_at _ _ _ Hc), Hc.
    split_and!; [| |lia].
    + destruct (BookSetSpec.size_signal_of size);
        destruct c as [[] [] [] [] [] [] [] []];
        apply (bool_decide_unpack _); by vm_compute.
    + destruct (BookSetSpec.size_signal_of size);
        destruct c as [[] [] [] [] [] [] [] []];
        split; intros Heq; try done; by vm_compute in Heq.
  - assert (String.get 6 fileset_id = None) as Hnone.
    { destruct (String.get 6 fileset_id) as [c|] eqn:Hg; [|done].
      apply get_lt_length in Hg. lia. }
    assert (Sorter.determine_book_set fileset_id size
            = BookSetSpec.reconcile BookSetSpec.MUnresolved
                (BookSetSpec.size_signal_of size)) as Heq.
    { unfold Sorter.determine_book_set.
      destruct (decide (7 ≤ String.length fileset_id)%nat); [lia|].
      rewrite size_signal_of_mem.
      destruct (Py.mem size ["C"; "NTOTP"]), (Py.mem size ["NT"; "NTP"]),
        (Py.mem size ["OT"; "OTP"]); reflexivity. }
    rewrite Heq, Hnone. split_and!; [| |done].
    + destruct (BookSetSpec.size_signal_of size);
        apply (bool_decide_unpack _); by vm_compute.
    + destruct (BookSetSpec.size_signal_of size); split; done.
Qed.

(** ** The streaming-only test *)

Lemma prefix_contains (sub s : string) :
  String.prefix sub s = true → Py.contains sub s = true.
Proof. intros H. destruct s; cbn [Py.contains]; by rewrite H. Qed.

Lemma contains_drop (sub s : string) (n : nat) :
  Py.contains sub (Py.drop n s) = true → Py.contains sub s = true.
Proof.
  revert s. induction n as [|n IH]; intros [|a s]; cbn [Py.drop]; auto.
  intros H. cbn [Py.contains]. rewrite (IH _ H). apply orb_true_r.
Qed.

(** X12. The streaming-only test of [track_exclusions] holds exactly of
    the identifiers whose ninth and tenth characters are [S] and [A]; the
    containment test and the first alternative add nothing. *)
Theorem is_sa_version_positions (fileset_id : string) :
  Tracking.is_sa_version fileset_id = true
  ↔ String.get 8 fileset_id = Some "S"%char
    ∧ String.get 9 fileset_id = Some "A"%char.
Proof.
  unfold Tracking.is_sa_version.
  destruct (decide (10 ≤ String.length fileset_id)%nat) as [Hlen|Hlen].
  - destruct fileset_id as [|c0 [|c1 [|c2 [|c3 [|c4 [|c5 [|c6 [|c7 [|c8
      [|c9 r]]]]]]]]]]; simpl in Hlen; try lia.
    rewrite bool_decide_eq_true_2 by (simpl; lia). rewrite andb_true_r.
    cbn [String.get Py.slice Py.drop Py.take Nat.sub].
    assert (Py.endswith (String c7 (String c8 (String c9 ""))) "SA"
            = bool_decide (String c8 (String c9 "") = "SA")) as ->.
    { unfold Py.endswith, Py.take_last.
      cbn [String.length Nat.sub Py.drop].
      rewrite bool_decide_eq_true_2 by lia. cbn [andb].
      apply eq_true_iff_eq. rewrite bool_decide_eq_true.
      apply String.eqb_eq. }
    rewrite orb_diag. split.
    + destruct (Py.contains _ _); [|done].
      intros [= -> ->]%bool_decide_eq_true. done.
    + intros [[= ->] [= ->]].
      rewrite (contains_drop "SA" _ 8); [by apply bool_decide_eq_true|].
      apply prefix_contains. cbn [Py.drop]. by destruct r.
  - rewrite bool_decide_eq_false_2, andb_false_r by done.
    split; [done|]. intros [_ H9%get_lt_length]. lia.
Qed.

(** ** The organizer *)

Section organizer.
Import Sorter Catalog.

Lemma organized_empty : organized empty_language.
Proof. split; simpl; constructor. Qed.

Lemma add_fileset_organized (bible : Bible) (entry : LanguageData)
    (fileset : Fileset) :
  organized entry → organized (add_fileset bible entry fileset).
Proof.
  intros [Had Haa Hao Htd Hta Hto]. unfold add_fileset.
  destruct (Downloader.truthy (c_id fileset)) as [fileset_id|] eqn:Hid;
    [|by split].
  assert (fileset_id ≠ "") as Hne.
  { unfold Downloader.truthy in Hid. destruct (c_id fileset); [|done].
    case_decide; congruence. }
  destruct (Py.mem (c_type fileset) audio_types) eqn:Haudio.
  - case_decide as Hin; [by split|]. split; simpl; try done.
    + apply NoDup_app. split_and!; [done| |apply NoDup_singleton].
      by intros x Hx ->%list_elem_of_singleton.
    + by rewrite fmap_app, Haa.
    + apply Forall_app. split; [done|]. apply Forall_singleton.
      split_and!; done.
  - destruct (Py.startswith (c_type fileset) "text") eqn:Htext; [|by split].
    case_decide as Hin; [by split|]. split; simpl; try done.
    + apply NoDup_app. split_and!; [done| |apply NoDup_singleton].
      by intros x Hx ->%list_elem_of_singleton.
    + by rewrite fmap_app, Hta.
    + apply Forall_app. split; [done|]. apply Forall_singleton.
      split_and!; [done| |done]. unfold is_text_type. simpl.
      by rewrite Haudio, Htext.
Qed.

Lemma foldl_add_fileset_organized (bible : Bible) (entry : LanguageData)
    (filesets : list Fileset) :
  organized entry → organized (foldl (add_fileset bible) entry filesets).
Proof.
  revert entry. induction filesets as [|f l IH]; intros entry H; [done|].
  simpl. by apply IH, add_fileset_organized.
Qed.

Lemma update_language_keys iso f (language_data : list (string * LanguageData)) :
  (update_language iso f language_data).*1
  = if decide (iso ∈ language_data.*1) then language_data.*1
    else language_data.*1 ++ [iso].
Proof.
  induction language_data as [|[k e] l IH]; [done|].
  cbn [update_language]. rewrite !fmap_cons. cbn [fst].
  destruct (decide (k = iso)) as [->|Hne].
  - rewrite fmap_cons. cbn [fst].
    rewrite decide_True by apply list_elem_of_here. done.
  - rewrite fmap_cons, IH. cbn [fst].
    destruct (decide (iso ∈ l.*1)) as [Hin|Hin].
    + by rewrite decide_True by by apply list_elem_of_further.
    + rewrite decide_False; [done|].
      intros [?|?]%elem_of_cons; congruence.
Qed.

Lemma elem_of_update_language iso f
    (language_data : list (string * LanguageData)) k e :
  (k, e) ∈ update_language iso f language_data →
  (k, e) ∈ language_data
  ∨ (k = iso ∧ ((∃ e0, (iso, e0) ∈ language_data ∧ e = f e0)
                ∨ e = f empty_language)).
Proof.
  induction language_data as [|[k0 e0] l IH]; cbn [update_language].
  - intros [= -> ->]%list_elem_of_singleton. right. auto.
  - destruct (decide (k0 = iso)) as [->|Hne].
    + intros [[= -> ->]|Hin]%elem_of_cons.
      * right. split; [done|]. left. exists e0.
        split; [apply list_elem_of_here|done].
      * left. by apply list_elem_of_further.
    + intros [[= -> ->]|Hin]%elem_of_cons.
      * left. apply list_elem_of_here.
      * destruct (IH Hin) as [?|(-> & [(e1 & ? & ->)| ->])].
        -- left. by apply list_elem_of_further.
        -- right. split; [done|]. left. exists e1.
           split; [by apply list_elem_of_further|done].
        -- right. auto.
Qed.

Lemma organize_language_data_organized (all_bibles : list Bible) :
  NoDup (organize_language_data all_bibles).*1
  ∧ ∀ iso entry, (iso, entry) ∈ organize_language_data all_bibles →
      organized entry.
Proof.
  unfold organize_language_data.
  induction all_bibles as [|bible l IH] using rev_ind.
  { split; [constructor|]. by intros ?? ?%elem_of_nil. }
  rewrite foldl_app. cbn [foldl]. destruct IH as [Hnd IH].
  unfold add_bible at 1 3.
  destruct (Downloader.truthy (b_iso bible)) as [iso|]; [|done].
  split.
  - rewrite update_language_keys. case_decide as Hin; [done|].
    apply NoDup_app. split_and!; [done| |apply NoDup_singleton].
    by intros x Hx ->%list_elem_of_singleton.
  - intros k e [Hold|(-> & [(e0 & He0 & ->)| ->])]%elem_of_update_language.
    + by apply (IH k).
    + apply foldl_add_fileset_organized. by apply (IH iso).
    + apply foldl_add_fileset_organized, organized_empty.
Qed.
End organizer.

(** X13. Every language entry built by [organize_language_data] lists
    pairwise distinct audio identifiers and pairwise distinct text
    identifiers; its detail lists run parallel to its identifier lists;
    every detail has a non-empty identifier, a type of its list's kind and
    the book set that [determine_book_set] gives for its identifier and
    size; and no language occurs twice. Hence the pairs computed for the
    entry name every audio identifier at most once. *)
Theorem organize_language_data_entries
    (all_bibles : list Catalog.Bible) (timing_filesets : gset string)
    (iso : string) (entry : Catalog.LanguageData) :
  (iso, entry) ∈ Catalog.organize_language_data all_bibles →
  Catalog.organized entry
  ∧ NoDup (Catalog.organize_language_data all_bibles).*1
  ∧ NoDup (Sorter.audio_fileset_id <$>
             Sorter.compute_syncable_pairs timing_filesets
               (Catalog.lang_data_of entry)).
Proof.
  intros Hin.
  destruct (organize_language_data_organized all_bibles) as [Hnd Hall].
  pose proof (Hall _ _ Hin) as Horg. split_and!; [done..|].
  apply compute_syncable_pairs_NoDup. apply Horg.
Qed.

Lemma organize_language_data_entries_witness :
  Catalog.organize_language_data CatalogExamples.catalog
  = [("eng", CatalogExamples.eng_entry)]
  ∧ Catalog.organized CatalogExamples.eng_entry.
Proof.
  assert (Catalog.organize_language_data CatalogExamples.catalog
          = [("eng", CatalogExamples.eng_entry)]) as Heq by by vm_compute.
  split; [exact Heq|].
  refine (proj1 (organize_language_data_entries
                   CatalogExamples.catalog ∅ "eng" _ _)).
  rewrite Heq. apply list_elem_of_here.
Defined.

(** ** The run of the classifier *)

Section run_facts.
Import Sorter Catalog Tracking Pipeline.
Variable timing_filesets : gset string.

Lemma first_detail_id (fileset_id : string) (l : list FilesetDetail) d :
  first_detail fileset_id l = Some d → d_id d = fileset_id ∧ d ∈ l.
Proof.
  unfold first_detail. intros Hd.
  assert (d ∈ filter (λ d, d_id d = fileset_id) l) as Hin.
  { destruct (filter _ l); [done|]. injection Hd as ->.
    apply list_elem_of_here. }
  by apply list_elem_of_filter in Hin.
Qed.

Lemma first_detail_is_Some (fileset_id : string) (l : list FilesetDetail) :
  is_Some (first_detail fileset_id l) ↔ fileset_id ∈ d_id <$> l.
Proof.
  unfold first_detail. split.
  - intros [d Hd]. apply first_detail_id in Hd as [<- Hin].
    apply list_elem_of_fmap. eauto.
  - intros (d & -> & Hin)%list_elem_of_fmap.
    destruct (filter (λ d0, d_id d0 = d_id d) l) as [|d' l'] eqn:Hf; [|eauto].
    exfalso. by apply (filter_nil_not_elem_of _ _ d Hf).
Qed.

Lemma first_detail_cons (fileset_id : string) d (l : list FilesetDetail) :
  first_detail fileset_id (d :: l)
  = if decide (d_id d = fileset_id) then Some d
    else first_detail fileset_id l.
Proof.
  unfold first_detail. case_decide.
  - by rewrite filter_cons_True.
  - by rewrite filter_cons_False.
Qed.

Section one_language.
Variable iso : string.
Variable syncable_pairs : list SyncPair.

Lemma process_detail_processed (out : Output) (d : FilesetDetail) :
  processed_saved out →
  processed_saved (process_detail timing_filesets iso syncable_pairs out d).
Proof.
  intros HP. unfold process_detail. case_decide; [done|].
  intros k. cbn [processed_filesets saved]. unfold processed_saved in HP.
  rewrite elem_of_union, elem_of_singleton, lookup_insert_is_Some, HP.
  destruct (decide ((iso, d_id d) = k)); intuition congruence.
Qed.

Lemma process_details_processed (l : list FilesetDetail) (out : Output) :
  processed_saved out →
  processed_saved
    (foldl (process_detail timing_filesets iso syncable_pairs) out l).
Proof.
  revert out. induction l as [|d l IH]; intros out HP; [done|].
  cbn [foldl]. by apply IH, process_detail_processed.
Qed.

Lemma process_details_saved (l : list FilesetDetail) (out : Output)
    (i fileset_id : string) :
  processed_saved out →
  saved (foldl (process_detail timing_filesets iso syncable_pairs) out l)
    !! (i, fileset_id)
  = match saved out !! (i, fileset_id) with
    | Some m => Some m
    | None =>
        if decide (i = iso)
        then (λ d, create_metadata timing_filesets d syncable_pairs)
               <$> first_detail fileset_id l
        else None
    end.
Proof.
  revert out. induction l as [|d l IH]; intros out HP.
  { cbn [foldl]. destruct (saved out !! _); [done|]. by case_decide. }
  cbn [foldl]. rewrite IH by by apply process_detail_processed.
  rewrite first_detail_cons. unfold process_detail.
  destruct (decide ((iso, d_id d) ∈ processed_filesets out)) as [Hp|Hp].
  - apply HP in Hp as [m0 Hm0].
    destruct (saved out !! (i, fileset_id)) eqn:Hs; [done|].
    destruct (decide (i = iso)) as [->|]; [|done].
    destruct (decide (d_id d = fileset_id)) as [Hd|]; [|done].
    rewrite Hd in Hm0. congruence.
  - assert (saved out !! (iso, d_id d) = None) as Hnone.
    { destruct (saved out !! (iso, d_id d)) eqn:Hs; [|done].
      exfalso. apply Hp, HP. eauto. }
    cbn [saved].
    destruct (decide ((iso, d_id d) = (i, fileset_id))) as [[= <- <-]|Hne].
    + rewrite lookup_insert_eq, Hnone.
      by rewrite !decide_True by done.
    + rewrite lookup_insert_ne by done.
      destruct (saved out !! (i, fileset_id)); [done|].
      destruct (decide (i = iso)) as [->|]; [|done].
      rewrite decide_False by congruence. done.
Qed.

(** One of the three ledger lists, with the test that feeds it. *)
Section one_list.
Variable proj : ExclusionLists → list string.
Variable test : FilesetDetail → bool.
Hypothesis proj_track : ∀ d ex,
  proj (track_exclusions (d_id d) (d_type d) (d_book_set d) ex)
  = if test d then proj ex ++ [d_id d] else proj ex.

Lemma process_details_list (l : list FilesetDetail) (out : Output)
    (fileset_id : string) :
  processed_saved out →
  fileset_id ∈
    proj (exclusions
            (foldl (process_detail timing_filesets iso syncable_pairs) out l))
  ↔ fileset_id ∈ proj (exclusions out)
    ∨ (saved out !! (iso, fileset_id) = None
       ∧ ∃ d, first_detail fileset_id l = Some d ∧ test d = true).
Proof.
  revert out. induction l as [|d l IH]; intros out HP.
  { cbn [foldl]. split; [auto|]. intros [?|(_ & d & ? & _)]; done. }
  cbn [foldl]. rewrite IH by by apply process_detail_processed.
  rewrite first_detail_cons. unfold process_detail.
  destruct (decide ((iso, d_id d) ∈ processed_filesets out)) as [Hp|Hp].
  - apply HP in Hp as [m0 Hm0].
    destruct (decide (d_id d = fileset_id)) as [<-|Hne]; [|done].
    split; (intros [?|[Hnone _]]; [by left|congruence]).
  - assert (saved out !! (iso, d_id d) = None) as Hnone.
    { destruct (saved out !! (iso, d_id d)) eqn:Hs; [|done].
      exfalso. apply Hp, HP. eauto. }
    cbn [saved exclusions]. cbn [create_metadata book_set].
    rewrite proj_track.
    destruct (decide (d_id d = fileset_id)) as [<-|Hne].
    + rewrite lookup_insert_eq. destruct (test d) eqn:Ht.
      * rewrite elem_of_app, list_elem_of_singleton. split; [|auto].
        intros _. right. split; [done|]. eauto.
      * split.
        -- intros [?|[? _]]; [by left|done].
        -- intros [?|(_ & d' & [= <-] & ?)]; [by left|congruence].
    + rewrite lookup_insert_ne by congruence.
      destruct (test d); [|done].
      rewrite elem_of_app, list_elem_of_singleton.
      split; (intros [H|H]; [|by right]); left; intuition congruence.
Qed.
End one_list.
End one_language.

(** The three lists and their tests. *)
Lemma sa_list_track d ex :
  sa_list (track_exclusions (d_id d) (d_type d) (d_book_set d) ex)
  = if is_sa_version (d_id d) then sa_list ex ++ [d_id d] else sa_list ex.
Proof. done. Qed.

Lemma partial_list_track d ex :
  partial_list (track_exclusions (d_id d) (d_type d) (d_book_set d) ex)
  = if bool_decide (d_book_set d = "PARTIAL")
    then partial_list ex ++ [d_id d] else partial_list ex.
Proof. cbn. by case_decide; case_bool_decide. Qed.

Lemma story_list_track d ex :
  story_list (track_exclusions (d_id d) (d_type d) (d_book_set d) ex)
  = if is_story_adaptation (d_type d)
    then story_list ex ++ [d_id d] else story_list ex.
Proof. done. Qed.

Lemma process_language_unfold (out : Output) iso entry :
  process_language timing_filesets out (iso, entry)
  = foldl (process_detail timing_filesets iso
             (compute_syncable_pairs timing_filesets (lang_data_of entry)))
          out (details entry).
Proof. unfold process_language, details. by rewrite foldl_app. Qed.

Lemma process_all_languages_state (langs : list (string * LanguageData)) :
  NoDup langs.*1 →
  run_state timing_filesets langs
    (process_all_languages timing_filesets langs).
Proof.
  unfold process_all_languages.
  induction langs as [|[iso entry] langs IH] using rev_ind; intros Hnd.
  { split.
    - intros k. cbn. rewrite lookup_empty. split; [set_solver|].
      by intros [? ?].
    - intros i id m. cbn. rewrite lookup_empty. split; [done|].
      by intros (? & ? & ?%elem_of_nil & _).
    - intros proj test Hnil _ id. cbn [foldl]. rewrite Hnil. split.
      + by intros ?%elem_of_nil.
      + by intros (? & ? & ? & ?%elem_of_nil & _). }
  rewrite fmap_app, NoDup_app in Hnd. destruct Hnd as (Hnd & Hfresh & _).
  destruct (IH Hnd) as [HP HS HL]. clear IH.
  rewrite foldl_app. cbn [foldl].
  set (out := foldl (process_language timing_filesets) fresh langs) in *.
  rewrite process_language_unfold.
  assert (∀ id, saved out !! (iso, id) = None) as Hnew.
  { intros id. destruct (saved out !! (iso, id)) as [m|] eqn:Hs; [|done].
    apply HS in Hs as (e & _ & Hin & _). exfalso.
    apply (Hfresh iso); [|apply list_elem_of_here].
    apply list_elem_of_fmap. by exists (iso, e). }
  split.
  - by apply process_details_processed.
  - intros i id m. rewrite process_details_saved by done.
    destruct (saved out !! (i, id)) as [m0|] eqn:Hs.
    + assert (i ≠ iso) as Hne by (intros ->; by rewrite Hnew in Hs).
      rewrite <- Hs, HS. split.
      * intros (e & d & Hin & ?). exists e, d.
        split; [apply elem_of_app; by left|done].
      * intros (e & d & [Hin|[= ? ?]%list_elem_of_singleton]%elem_of_app & ?);
          [by exists e, d|done].
    + split.
      * case_decide as Hi; [|done]. subst i.
        destruct (first_detail id (details entry)) as [d|] eqn:Hd; [|done].
        intros [= <-]. exists entry, d.
        split; [apply elem_of_app; right; apply list_elem_of_here|done].
      * intros (e & d & [Hin|[= -> ->]%list_elem_of_singleton]%elem_of_app
                & Hd & ->).
        -- assert (saved out !! (i, id) ≠ None) as Hsome; [|done].
           intros _. assert (is_Some (saved out !! (i, id))) as [? ?];
             [|congruence].
           eexists. apply HS. by exists e, d.
        -- rewrite decide_True by done. by rewrite Hd.
  - intros proj test Hnil Htrack id.
    rewrite (process_details_list _ _ proj test Htrack) by done.
    rewrite (HL proj test Hnil Htrack), Hnew. split.
    + intros [(i & e & d & Hin & ?)|(_ & d & ?)].
      * exists i, e, d. split; [apply elem_of_app; by left|done].
      * exists iso, entry, d.
        split; [apply elem_of_app; right; apply list_elem_of_here|done].
    + intros (i & e & d & [Hin|[= -> ->]%list_elem_of_singleton]%elem_of_app
              & ?).
      * left. by exists i, e, d.
      * right. split; [done|]. by exists d.
Qed.

(** Loading a language directory whose documents carry the identifier of
    their directory. *)
Lemma foldl_insert_lookup (iso : string)
    (l : list ((string * string) * Metadata)) (fileset_id : string) m :
  (∀ kv, kv ∈ l → kv.1 = (iso, fs_id kv.2)) →
  NoDup l.*1 →
  foldl (λ (metadata : gmap string Metadata) item,
           <[fs_id item.2 := item.2]> metadata) ∅ l
    !! fileset_id = Some m
  ↔ ((iso, fileset_id), m) ∈ l.
Proof.
  induction l as [|[k v] l IH] using rev_ind; intros Hall Hnd.
  { cbn. rewrite lookup_empty. split; [done|]. by intros ?%elem_of_nil. }
  rewrite fmap_app, NoDup_app in Hnd. destruct Hnd as (Hnd & Hfresh & _).
  rewrite foldl_app. cbn [foldl snd].
  assert (k = (iso, fs_id v)) as ->.
  { apply (Hall (k, v)). apply elem_of_app. right. apply list_elem_of_here. }
  rewrite lookup_insert_Some, IH, elem_of_app, list_elem_of_singleton;
    [|intros kv Hkv; apply Hall, elem_of_app; by left|done].
  split.
  - intros [[<- <-]|[_ ?]]; auto.
  - intros [Hin|[= <- <-]]; [|auto]. right. split; [|done].
    intros Heq. apply (Hfresh (iso, fs_id v)); [|apply list_elem_of_here].
    apply list_elem_of_fmap. exists ((iso, fileset_id), m).
    split; [cbn; congruence|done].
Qed.

Lemma load_language_metadata_lookup
    (files : gmap (string * string) Metadata) (iso fileset_id : string) m :
  (∀ i x m', files !! (i, x) = Some m' → fs_id m' = x) →
  load_language_metadata files iso !! fileset_id = Some m
  ↔ files !! (iso, fileset_id) = Some m.
Proof.
  intros Hid. unfold load_language_metadata.
  rewrite (foldl_insert_lookup iso).
  - rewrite list_elem_of_filter, elem_of_map_to_list. cbn. tauto.
  - intros [[i x] m'] [Hi Hin%elem_of_map_to_list]%list_elem_of_filter.
    cbn in *. subst i. by rewrite (Hid _ _ _ Hin).
  - eapply sublist_NoDup; [apply (NoDup_fst_map_to_list files)|].
    apply fmap_sublist, sublist_filter.
Qed.

Lemma create_metadata_fields d pairs :
  fs_id (create_metadata timing_filesets d pairs) = d_id d
  ∧ fs_size (create_metadata timing_filesets d pairs) = d_size d
  ∧ fs_type (create_metadata timing_filesets d pairs) = d_type d
  ∧ book_set (create_metadata timing_filesets d pairs) = d_book_set d.
Proof. done. Qed.

Lemma run_saved_id (all_bibles : list Bible) i x m :
  saved (run timing_filesets all_bibles) !! (i, x) = Some m → fs_id m = x.
Proof.
  destruct (organize_language_data_organized all_bibles) as [Hnd _].
  destruct (process_all_languages_state _ Hnd) as [_ HS _].
  intros (e & d & _ & Hd & ->)%HS. by apply first_detail_id in Hd as [? _].
Qed.

Lemma organized_details_ok (entry : LanguageData) d :
  organized entry → d ∈ details entry →
  d_book_set d = determine_book_set (d_id d) (d_size d).
Proof.
  intros [_ _ Ha _ _ Ht] [Hin|Hin]%elem_of_app.
  - rewrite Forall_forall in Ha. by destruct (Ha _ Hin) as (_ & _ & ?).
  - rewrite Forall_forall in Ht. by destruct (Ht _ Hin) as (_ & _ & ?).
Qed.

Lemma organized_details_ids (entry : LanguageData) (fileset_id : string) :
  organized entry →
  is_Some (first_detail fileset_id (details entry))
  ↔ fileset_id ∈ l_audio_filesets entry ∨ fileset_id ∈ l_text_filesets entry.
Proof.
  intros [_ Ha _ _ Ht _]. rewrite first_detail_is_Some. unfold details.
  by rewrite fmap_app, elem_of_app, Ha, Ht.
Qed.

Lemma determine_book_set_partial (fileset_id size : string) :
  determine_book_set fileset_id size = "PARTIAL"
  ↔ String.get 6 fileset_id = Some "P"%char.
Proof.
  destruct (String.get 6 fileset_id) as [c|] eqn:Hc.
  - rewrite (determine_book_set_at _ _ _ Hc).
    destruct (BookSetSpec.size_signal_of size);
      destruct c as [[] [] [] [] [] [] [] []];
      split; intros Heq; try done; by vm_compute in Heq.
  - unfold determine_book_set.
    destruct (decide (7 ≤ String.length fileset_id)%nat) as [Hlen|Hlen].
    { destruct (get_Some_of_length 6 fileset_id) as [c ?]; [lia|congruence]. }
    destruct (Py.mem size ["C"; "NTOTP"]), (Py.mem size ["NT"; "NTP"]),
      (Py.mem size ["OT"; "OTP"]); split; done.
Qed.

Lemma run_partial_list (all_bibles : list Bible) (fileset_id : string) :
  fileset_id ∈ partial_list (exclusions (run timing_filesets all_bibles))
  ↔ String.get 6 fileset_id = Some "P"%char
    ∧ catalogued (organize_language_data all_bibles) fileset_id.
Proof.
  destruct (organize_language_data_organized all_bibles) as [Hnd Horg].
  destruct (process_all_languages_state _ Hnd) as [_ _ HL].
  unfold run.
  rewrite (HL partial_list (λ d, bool_decide (d_book_set d = "PARTIAL"))
             eq_refl partial_list_track).
  unfold catalogued. split.
  - intros (i & e & d & Hin & Hd & Ht%bool_decide_eq_true).
    pose proof (Horg _ _ Hin) as He.
    pose proof Hd as [Hid Hind]%first_detail_id.
    rewrite (organized_details_ok _ _ He Hind), Hid in Ht.
    split; [by apply determine_book_set_partial in Ht|].
    exists i, e. split; [done|]. apply organized_details_ids; eauto.
  - intros (HP & i & e & Hin & Hids).
    pose proof (Horg _ _ Hin) as He.
    apply organized_details_ids in Hids as [d Hd]; [|done].
    exists i, e, d. split_and!; [done..|]. apply bool_decide_eq_true.
    pose proof Hd as [Hid Hind]%first_detail_id.
    rewrite (organized_details_ok _ _ He Hind), Hid.
    by apply determine_book_set_partial.
Qed.

Lemma run_sa_list (all_bibles : list Bible) (fileset_id : string) :
  fileset_id ∈ sa_list (exclusions (run timing_filesets all_bibles))
  ↔ is_sa_version fileset_id = true
    ∧ catalogued (organize_language_data all_bibles) fileset_id.
Proof.
  destruct (organize_language_data_organized all_bibles) as [Hnd Horg].
  destruct (process_all_languages_state _ Hnd) as [_ _ HL].
  unfold run.
  rewrite (HL sa_list (λ d, is_sa_version (d_id d)) eq_refl sa_list_track).
  unfold catalogued. split.
  - intros (i & e & d & Hin & Hd & Ht).
    pose proof Hd as [Hid _]%first_detail_id. rewrite Hid in Ht.
    split; [done|]. exists i, e. split; [done|].
    apply organized_details_ids; eauto.
  - intros (HP & i & e & Hin & Hids).
    apply organized_details_ids in Hids as [d Hd]; [|by eapply Horg].
    exists i, e, d. split_and!; [done..|].
    by apply first_detail_id in Hd as [-> _].
Qed.

Lemma run_loaded (all_bibles : list Bible) (iso fileset_id : string) m :
  load_language_metadata (saved (run timing_filesets all_bibles)) iso
    !! fileset_id = Some m
  ↔ ∃ entry d, (iso, entry) ∈ organize_language_data all_bibles
      ∧ first_detail fileset_id (details entry) = Some d
      ∧ m = create_metadata timing_filesets d
              (compute_syncable_pairs timing_filesets (lang_data_of entry)).
Proof.
  rewrite load_language_metadata_lookup by apply run_saved_id.
  destruct (organize_language_data_organized all_bibles) as [Hnd _].
  by destruct (process_all_languages_state _ Hnd) as [_ HS _].
Qed.

Lemma run_loaded_partial (all_bibles : list Bible) (iso fileset_id : string)
    m :
  load_language_metadata (saved (run timing_filesets all_bibles)) iso
    !! fileset_id = Some m →
  fs_id m = fileset_id
  ∧ catalogued (organize_language_data all_bibles) fileset_id
  ∧ (book_set m = "PARTIAL" ↔ String.get 6 fileset_id = Some "P"%char).
Proof.
  intros (e & d & Hin & Hd & ->)%run_loaded.
  destruct (organize_language_data_organized all_bibles) as [_ Horg].
  pose proof (Horg _ _ Hin) as He.
  pose proof Hd as [Hid Hind]%first_detail_id.
  cbn [create_metadata fs_id book_set]. split_and!; [done| |].
  - exists iso, e. split; [done|]. apply organized_details_ids; eauto.
  - rewrite (organized_details_ok _ _ He Hind), Hid.
    apply determine_book_set_partial.
Qed.

Lemma first_detail_app (fileset_id : string) (l1 l2 : list FilesetDetail) :
  first_detail fileset_id (l1 ++ l2)
  = match first_detail fileset_id l1 with
    | Some d => Some d
    | None => first_detail fileset_id l2
    end.
Proof.
  unfold first_detail. rewrite filter_app.
  by destruct (filter _ l1).
Qed.

Lemma audio_type_not_story (t : string) :
  is_audio_type t = true → is_story_adaptation t = false.
Proof.
  unfold is_audio_type, Py.mem, audio_types.
  intros Hin%bool_decide_eq_true.
  repeat (apply elem_of_cons in Hin as [->|Hin]; [by vm_compute|]).
  by apply elem_of_nil in Hin.
Qed.

Lemma run_story_list (all_bibles : list Bible) (fileset_id : string) :
  fileset_id ∈ story_list (exclusions (run timing_filesets all_bibles)) →
  ∃ iso entry d, (iso, entry) ∈ organize_language_data all_bibles
    ∧ d ∈ l_text_details entry
    ∧ d_id d = fileset_id
    ∧ (fileset_id ∉ l_audio_filesets entry)
    ∧ Py.startswith (d_type d) "text" = true
    ∧ is_story_adaptation (d_type d) = true.
Proof.
  destruct (organize_language_data_organized all_bibles) as [Hnd Horg].
  destruct (process_all_languages_state _ Hnd) as [_ _ HL].
  unfold run.
  rewrite (HL story_list (λ d, is_story_adaptation (d_type d)) eq_refl
             story_list_track).
  intros (i & e & d & Hin & Hd & Ht).
  pose proof (Horg _ _ Hin) as [_ Haa Hao _ _ Hto].
  unfold details in Hd. rewrite first_detail_app in Hd.
  destruct (first_detail fileset_id (l_audio_details e)) as [d'|] eqn:Ha.
  - injection Hd as ->. apply first_detail_id in Ha as [_ Hind].
    rewrite Forall_forall in Hao. destruct (Hao _ Hind) as (_ & Hty & _).
    apply audio_type_not_story in Hty. congruence.
  - pose proof Hd as [Hid Hind]%first_detail_id.
    exists i, e, d. split_and!; [done..| | |done].
    + rewrite <- Haa. intros Hin'%first_detail_is_Some.
      rewrite Ha in Hin'. by destruct Hin'.
    + rewrite Forall_forall in Hto. destruct (Hto _ Hind) as (_ & Hty & _).
      unfold is_text_type in Hty. by apply andb_true_iff in Hty as [_ ?].
Qed.
End run_facts.

(** X14. What the orchestrator loads for a language after a run of the
    classifier on an empty output directory: one document for every
    identifier in the language's audio or text list, and for no other;
    the document is the one [create_metadata] computes from the first
    detail of that identifier, audio details before text details, and the
    pairs of the language; it carries the identifier it is stored under. *)
Theorem load_language_metadata_after_run
    (timing_filesets : gset string) (all_bibles : list Catalog.Bible)
    (iso fileset_id : string) :
  let language_data := Catalog.organize_language_data all_bibles in
  let metadata :=
    Pipeline.load_language_metadata
      (Pipeline.saved (Pipeline.run timing_filesets all_bibles)) iso in
  (∀ data, metadata !! fileset_id = Some data ↔
      ∃ entry detail, (iso, entry) ∈ language_data
        ∧ Pipeline.first_detail fileset_id (Pipeline.details entry)
          = Some detail
        ∧ data = Sorter.create_metadata timing_filesets detail
                   (Sorter.compute_syncable_pairs timing_filesets
                      (Catalog.lang_data_of entry)))
  ∧ (∀ data, metadata !! fileset_id = Some data →
       Sorter.fs_id data = fileset_id)
  ∧ (∀ entry, (iso, entry) ∈ language_data →
       (is_Some (metadata !! fileset_id)
        ↔ fileset_id ∈ Catalog.l_audio_filesets entry
          ∨ fileset_id ∈ Catalog.l_text_filesets entry)).
Proof.
  intros language_data metadata. subst language_data metadata.
  destruct (organize_language_data_organized all_bibles) as [Hnd Horg].
  split_and!.
  - intros data. apply run_loaded.
  - intros data Hdata. by apply run_loaded_partial in Hdata as [? _].
  - intros entry Hin.
    rewrite <- (organized_details_ids _ _ (Horg _ _ Hin)). split.
    + intros [data (e & d & Hin' & Hd & _)%run_loaded].
      rewrite (NoDup_fst_functional _ _ _ _ Hnd Hin Hin'). eauto.
    + intros [d Hd]. eexists. apply run_loaded. by exists entry, d.
Qed.

(** X15. The exclusion sets the orchestrator loads after a run: the
    streaming-only set holds exactly the catalogued identifiers that pass
    the streaming-only test, and the partial-content set holds exactly the
    catalogued identifiers whose seventh character is [P]; both are
    decided by the identifier alone, whatever the language, type or size
    of the fileset. *)
Theorem load_exclusions_after_run
    (timing_filesets : gset string) (all_bibles : list Catalog.Bible)
    (fileset_id : string) :
  let excl :=
    Pipeline.load_exclusions
      (Pipeline.exclusions (Pipeline.run timing_filesets all_bibles)) in
  let listed :=
    Pipeline.catalogued (Catalog.organize_language_data all_bibles)
      fileset_id in
  (fileset_id ∈ Downloader.sa_versions excl
   ↔ Tracking.is_sa_version fileset_id = true ∧ listed)
  ∧ (fileset_id ∈ Downloader.partial_content excl
     ↔ String.get 6 fileset_id = Some "P"%char ∧ listed).
Proof.
  cbn zeta. unfold Pipeline.load_exclusions.
  cbn [Downloader.sa_versions Downloader.partial_content].
  rewrite !elem_of_list_to_set. split.
  - apply run_sa_list.
  - apply run_partial_list.
Qed.

(** X16. No audio fileset and no fileset of a video type is ever excluded
    as a story adaptation: after a run, an identifier of the
    story-adaptation set belongs to a text detail of some language whose
    type starts with [text] and contains [story] or [video], and the
    identifier is not among the audio identifiers of that language. *)
Theorem story_adaptations_are_text
    (timing_filesets : gset string) (all_bibles : list Catalog.Bible)
    (fileset_id : string) :
  fileset_id ∈ Downloader.story_adaptations
                 (Pipeline.load_exclusions
                    (Pipeline.exclusions
                       (Pipeline.run timing_filesets all_bibles))) →
  ∃ iso entry detail,
    (iso, entry) ∈ Catalog.organize_language_data all_bibles
    ∧ detail ∈ Catalog.l_text_details entry
    ∧ Sorter.d_id detail = fileset_id
    ∧ (fileset_id ∉ Catalog.l_audio_filesets entry)
    ∧ Py.startswith (Sorter.d_type detail) "text" = true
    ∧ Tracking.is_story_adaptation (Sorter.d_type detail) = true.
Proof.
  unfold Pipeline.load_exclusions. cbn [Downloader.story_adaptations].
  rewrite elem_of_list_to_set. apply run_story_list.
Qed.

Lemma story_adaptations_are_text_witness :
  "ENGOBSS_ET" ∈ Downloader.story_adaptations PipelineExamples.ledger
  ∧ ("ENGWEBP2DV" ∉ Downloader.story_adaptations PipelineExamples.ledger)
  ∧ ∃ iso entry detail,
      (iso, entry) ∈ Catalog.organize_language_data PipelineExamples.catalog
      ∧ detail ∈ Catalog.l_text_details entry
      ∧ Sorter.d_id detail = "ENGOBSS_ET"
      ∧ ("ENGOBSS_ET" ∉ Catalog.l_audio_filesets entry)
      ∧ Py.startswith (Sorter.d_type detail) "text" = true
      ∧ Tracking.is_story_adaptation (Sorter.d_type detail) = true.
Proof.
  assert ("ENGOBSS_ET"
            ∈ Downloader.story_adaptations PipelineExamples.ledger) as Hin
    by (apply (bool_decide_unpack _); by vm_compute).
  split_and!; [exact Hin|apply (bool_decide_unpack _); by vm_compute|].
  exact (story_adaptations_are_text ∅ PipelineExamples.catalog _ Hin).
Defined.

(** X17. On the output of the classifier the candidates of a canonical
    book are the loaded filesets of the content type whose identifier is in
    none of the three exclusion sets and whose book set covers the book:
    the partial-content set, which the selection does not consult, holds
    only filesets of book set PARTIAL, which covers no book. *)
Theorem candidates_after_run
    (timing_filesets : gset string) (all_bibles : list Catalog.Bible)
    (iso book_id : string) :
  book_id ∈ Downloader.ALL_BOOKS.*1 →
  let out := Pipeline.run timing_filesets all_bibles in
  let excl := Pipeline.load_exclusions (Pipeline.exclusions out) in
  let metadata := Pipeline.load_language_metadata (Pipeline.saved out) iso in
  (∀ data,
      data ∈ Downloader.get_audio_filesets excl metadata book_id ↔
        ∃ fileset_id, metadata !! fileset_id = Some data
          ∧ Sorter.has_audio data = true
          ∧ ¬ in_exclusion_category excl fileset_id
          ∧ scope_covers_stated (Sorter.book_set data) book_id)
  ∧ (∀ data,
        data ∈ Downloader.get_text_filesets excl metadata book_id ↔
          ∃ fileset_id, metadata !! fileset_id = Some data
            ∧ Sorter.has_text data = true
            ∧ ¬ in_exclusion_category excl fileset_id
            ∧ scope_covers_stated (Sorter.book_set data) book_id).
Proof.
  intros Hbook out excl metadata.
  assert (∀ has_type data,
    data ∈ Downloader.select has_type excl metadata book_id ↔
      ∃ fileset_id, metadata !! fileset_id = Some data
        ∧ has_type data = true
        ∧ ¬ in_exclusion_category excl fileset_id
        ∧ scope_covers_stated (Sorter.book_set data) book_id) as Hsel.
  { intros has_type data. rewrite elem_of_select.
    split; intros (fileset_id & Hdata & Hty & Hrest); exists fileset_id;
      (split; [done|]); (split; [done|]).
    - destruct Hrest as (Hsa & Hst & Hcov). split.
      + unfold in_exclusion_category. intros [?|[Hp|?]]; [done| |done].
        apply run_loaded_partial in Hdata as (_ & _ & Hpart).
        subst excl. unfold Pipeline.load_exclusions in Hp.
        cbn [Downloader.partial_content] in Hp.
        apply elem_of_list_to_set, run_partial_list in Hp as [HP _].
        apply Hpart in HP. rewrite HP in Hcov.
        destruct Hcov as [?|[[? _]|[? _]]]; discriminate.
      + by apply scope_covers_stated_iff.
    - destruct Hrest as (Hex & Hcov). unfold in_exclusion_category in Hex.
      split_and!; [tauto|tauto|by apply scope_covers_stated_iff]. }
  split; intros data.
  - rewrite elem_of_get_audio_filesets. apply Hsel.
  - rewrite elem_of_get_text_filesets. apply Hsel.
Qed.

Lemma candidates_after_run_witness :
  "MAT" ∈ Downloader.ALL_BOOKS.*1
  ∧ Sorter.fs_id <$>
      Downloader.get_audio_filesets PipelineExamples.ledger
        PipelineExamples.eng "MAT" = ["ENGWEBN2DA"]
  ∧ in_exclusion_category PipelineExamples.ledger "ENGWEBP1SA"
  ∧ ∀ data,
      data ∈ Downloader.get_audio_filesets PipelineExamples.ledger
               PipelineExamples.eng "MAT" ↔
        ∃ fileset_id, PipelineExamples.eng !! fileset_id = Some data
          ∧ Sorter.has_audio data = true
          ∧ ¬ in_exclusion_category PipelineExamples.ledger fileset_id
          ∧ scope_covers_stated (Sorter.book_set data) "MAT".
Proof.
  assert ("MAT" ∈ Downloader.ALL_BOOKS.*1) as Hbook
    by (apply (bool_decide_unpack _); by vm_compute).
  split_and!; [exact Hbook|by vm_compute| |].
  - left. apply (bool_decide_unpack _). by vm_compute.
  - exact (proj1 (candidates_after_run ∅ PipelineExamples.catalog
                    "eng" "MAT" Hbook)).
Defined.

(** ** The error ledger *)

Section ledger.
Import Ledger.

Lemma count_entries_fields (s : Summary) (errors : list ErrorEntry) :
  total_chapters_with_errors (foldl count_entry s errors)
  = (total_chapters_with_errors s
     + length (filter (λ e, has_errors e) errors))%nat
  ∧ audio_errors (foldl count_entry s errors)
    = (audio_errors s + sum_list (length ∘ e_audio_errors <$> errors))%nat
  ∧ text_errors (foldl count_entry s errors)
    = (text_errors s + sum_list (length ∘ e_text_errors <$> errors))%nat
  ∧ timing_errors (foldl count_entry s errors)
    = (timing_errors s + sum_list (length ∘ e_timing_errors <$> errors))%nat.
Proof.
  revert s. induction errors as [|e l IH]; intros s.
  { cbn. split_and!; lia. }
  cbn [foldl]. destruct (IH (count_entry s e)) as (-> & -> & -> & ->).
  rewrite !fmap_cons. cbn [sum_list_with count_entry id
    total_chapters_with_errors audio_errors text_errors timing_errors compose].
  destruct (has_errors e) eqn:He.
  - rewrite filter_cons_True by by apply Is_true_true_2. cbn [length].
    split_and!; lia.
  - rewrite filter_cons_False by by apply Is_true_false_2. split_and!; lia.
Qed.

Section one_error.
Variable book_id : string.
Variable chapter : Z.
Variable content_type : string.
Variable format_error : FormatError.
Variable created updated : string.

(** A counter that the update raises by a fixed amount. *)
Lemma record_error_sum (f : ErrorEntry → nat) (c : nat)
    (errors : list ErrorEntry) :
  (∀ e, f (add_error content_type format_error updated e)
        = (f e + c)%nat) →
  f (new_entry book_id chapter created) = 0%nat →
  sum_list (f <$> record_error book_id chapter
      (add_error content_type format_error updated) created errors)
  = (sum_list (f <$> errors) + c)%nat.
Proof.
  intros Hf H0. induction errors as [|e l IH].
  - cbn. unfold id. rewrite Hf, H0. lia.
  - cbn [record_error]. case_decide.
    + rewrite !fmap_cons. cbn [sum_list_with id]. rewrite Hf. lia.
    + rewrite !fmap_cons. cbn [sum_list_with id]. rewrite IH. lia.
Qed.

Lemma has_errors_update (e : ErrorEntry) :
  has_errors (add_error content_type format_error updated e)
  = has_errors e || known_type content_type.
Proof.
  unfold has_errors, known_type, add_error.
  cbn [e_audio_errors e_text_errors e_timing_errors].
  destruct (decide (content_type = "audio")) as [->|Ha].
  { destruct (e_audio_errors e), (e_text_errors e), (e_timing_errors e);
      by vm_compute. }
  destruct (decide (content_type = "text")) as [->|Ht].
  { destruct (e_audio_errors e), (e_text_errors e), (e_timing_errors e);
      by vm_compute. }
  destruct (decide (content_type = "timing")) as [->|Hg].
  { destruct (e_audio_errors e), (e_text_errors e), (e_timing_errors e);
      by vm_compute. }
  rewrite (bool_decide_eq_false_2 (content_type ∈ _)), orb_false_r; [done|].
  rewrite !elem_of_cons, elem_of_nil. tauto.
Qed.

Lemma record_error_chapters (errors : list ErrorEntry) :
  length (filter (λ e, has_errors e) (record_error book_id chapter
      (add_error content_type format_error updated) created errors))
  = (length (filter (λ e, has_errors e) errors)
     + if known_type content_type && unreported book_id chapter errors
       then 1 else 0)%nat.
Proof.
  unfold unreported, first_entry. induction errors as [|e l IH].
  - cbn [record_error]. rewrite !filter_nil. cbn [head length].
    rewrite andb_true_r.
    pose proof (has_errors_update (new_entry book_id chapter created)) as Hu.
    cbn [orb] in Hu. replace (has_errors (new_entry _ _ _)) with false in Hu
      by done. cbn [orb] in Hu.
    destruct (known_type content_type).
    + rewrite filter_cons_True by by apply Is_true_true_2. done.
    + rewrite filter_cons_False by by apply Is_true_false_2. done.
  - cbn [record_error]. case_decide as Hk.
    + rewrite (filter_cons_True (λ e, _ ∧ _)) by done. cbn [head].
      pose proof (has_errors_update e) as Hu.
      destruct (has_errors e) eqn:He; cbn [orb negb] in *.
      * rewrite !filter_cons_True by (apply Is_true_true_2; congruence).
        rewrite andb_false_r. cbn [length]. lia.
      * rewrite (filter_cons_False _ e) by by apply Is_true_false_2.
        rewrite andb_true_r. destruct (known_type content_type).
        -- rewrite filter_cons_True by by apply Is_true_true_2. cbn [length]. lia.
        -- rewrite filter_cons_False by by apply Is_true_false_2. lia.
    + rewrite (filter_cons_False (λ e, _ ∧ _)) by done.
      destruct (has_errors e) eqn:He.
      * rewrite !filter_cons_True by by apply Is_true_true_2. cbn [length].
        rewrite IH. lia.
      * rewrite !filter_cons_False by by apply Is_true_false_2. apply IH.
Qed.

Lemma record_error_chapter_list (errors : list ErrorEntry) :
  chapter_of <$> record_error book_id chapter
      (add_error content_type format_error updated) created errors
  = if decide ((book_id, chapter) ∈ chapter_of <$> errors)
    then chapter_of <$> errors
    else (chapter_of <$> errors) ++ [(book_id, chapter)].
Proof.
  induction errors as [|e l IH]; [done|].
  cbn [record_error]. rewrite (fmap_cons chapter_of e).
  destruct (decide (e_book e = book_id ∧ e_chapter e = chapter))
    as [[Hb Hc]|Hne].
  - rewrite fmap_cons.
    rewrite decide_True by (rewrite <- Hb, <- Hc; apply list_elem_of_here).
    done.
  - rewrite fmap_cons, IH.
    destruct (decide ((book_id, chapter) ∈ chapter_of <$> l)) as [Hin|Hin].
    + rewrite decide_True by by apply list_elem_of_further. done.
    + rewrite decide_False; [done|].
      intros [[= ? ?]|?]%elem_of_cons; [|done]. apply Hne. by split.
Qed.

Lemma update_grows (e : ErrorEntry) :
  grows e (add_error content_type format_error updated e).
Proof.
  unfold grows, add_error, chapter_of. cbn. split_and!; [done|..];
    repeat case_decide; try done; by apply prefix_app_r.
Qed.

Lemma record_error_grows (errors : list ErrorEntry) :
  ∃ added,
    Forall2 grows (errors ++ added) (record_error book_id chapter
      (add_error content_type format_error updated) created errors)
    ∧ (added = []
       ∨ added = [new_entry book_id chapter created]
         ∧ (book_id, chapter) ∉ chapter_of <$> errors).
Proof.
  induction errors as [|e l IH].
  - exists [new_entry book_id chapter created]. split.
    + cbn. constructor; [apply update_grows|constructor].
    + right. split; [done|]. by intros ?%elem_of_nil.
  - cbn [record_error]. case_decide as Hk.
    + exists []. rewrite app_nil_r. split; [|by left].
      constructor; [apply update_grows|].
      apply Forall2_same_length_lookup. split; [done|].
      intros i x y Hx Hy. assert (x = y) as -> by congruence.
      unfold grows. split_and!; done.
    + destruct IH as (added & Hall & Hadded). exists added. split.
      * cbn. constructor; [|done]. unfold grows. split_and!; done.
      * destruct Hadded as [?|[-> Hnin]]; [by left|right]. split; [done|].
        rewrite fmap_cons. intros [[= ? ?]|?]%elem_of_cons; [|done].
        apply Hk. by split.
Qed.
End one_error.
End ledger.

(** X18. After [log_download_error] the summary of the language counts
    the log the call worked on (the one in memory, or else the one on
    disk) with one more error of the given content type; the number of
    chapters with errors rises by one exactly when the chapter had no
    error on record. A content type other than audio, text and timing
    changes no count. Before the first call for a language the summary is
    all zero, whatever is on disk. *)
Theorem log_download_error_summary
    (iso book_id : string) (chapter : Z) (content_type error_type : string)
    (fileset distinct_id format_type details : option string)
    (created now updated : string) (st : Ledger.Ledgers) :
  let before := Ledger.summarize (Ledger.current st iso) in
  let after :=
    Ledger.get_error_summary
      (Ledger.log_download_error iso book_id chapter content_type error_type
         fileset distinct_id format_type details created now updated st)
      iso in
  let one (b : bool) : nat := if b then 1 else 0 in
  Ledger.audio_errors after
  = (Ledger.audio_errors before
     + one (bool_decide (content_type = "audio")))%nat
  ∧ Ledger.text_errors after
    = (Ledger.text_errors before
       + one (bool_decide (content_type = "text")))%nat
  ∧ Ledger.timing_errors after
    = (Ledger.timing_errors before
       + one (bool_decide (content_type = "timing")))%nat
  ∧ Ledger.total_chapters_with_errors after
    = (Ledger.total_chapters_with_errors before
       + one (Ledger.known_type content_type
              && Ledger.unreported book_id chapter
                   (Ledger.current st iso)))%nat
  ∧ (Ledger.memory st !! iso = None →
       Ledger.get_error_summary st iso = Ledger.no_errors).
Proof.
  cbn zeta. unfold Ledger.get_error_summary, Ledger.log_download_error.
  cbn [Ledger.memory]. rewrite lookup_insert_eq. unfold Ledger.summarize.
  set (errors := Ledger.current st iso).
  set (fe := {| Ledger.fe_timestamp := now |}).
  destruct (count_entries_fields Ledger.no_errors errors)
    as (-> & -> & -> & ->).
  destruct (count_entries_fields Ledger.no_errors
              (Ledger.record_error book_id chapter
                 (Ledger.add_error content_type fe updated) created errors))
    as (-> & -> & -> & ->).
  cbn [Ledger.no_errors Ledger.total_chapters_with_errors
       Ledger.audio_errors Ledger.text_errors Ledger.timing_errors].
  split_and!.
  - rewrite (record_error_sum _ _ _ _ _ _ _
               (if bool_decide (content_type = "audio") then 1 else 0)%nat);
      [lia| |done].
    intros e. unfold Ledger.add_error. cbn.
    case_decide; case_bool_decide; try done;
      rewrite ?List.length_app; cbn; lia.
  - rewrite (record_error_sum _ _ _ _ _ _ _
               (if bool_decide (content_type = "text") then 1 else 0)%nat);
      [lia| |done].
    intros e. unfold Ledger.add_error. cbn.
    repeat case_decide; case_bool_decide; subst; try done;
      rewrite ?List.length_app; cbn; lia.
  - rewrite (record_error_sum _ _ _ _ _ _ _
               (if bool_decide (content_type = "timing") then 1 else 0)%nat);
      [lia| |done].
    intros e. unfold Ledger.add_error. cbn.
    repeat case_decide; case_bool_decide; subst; try done;
      rewrite ?List.length_app; cbn; lia.
  - rewrite record_error_chapters. lia.
  - by intros ->.
Qed.

Lemma log_download_error_summary_witness :
  let st :=
    {| Ledger.memory := ∅;
       Ledger.disk :=
         {["eng" :=
            [Ledger.add_error "text"
               {| Ledger.fe_timestamp := "t0";
                  Ledger.fe_error_type := "no_text_available";
                  Ledger.fe_fileset := Some "ENGWEBN_ET";
                  Ledger.fe_distinct_id := None; Ledger.fe_format := None;
                  Ledger.fe_details := None |} "t0"
               (Ledger.new_entry "MAT" 1 "t0")]]} |} in
  Ledger.memory st !! "eng" = None
  ∧ Ledger.get_error_summary st "eng" = Ledger.no_errors
  ∧ Ledger.get_error_summary
      (Ledger.log_download_error "eng" "MAT" 1 "audio" "no_audio_available"
         (Some "ENGWEBN2DA") (Some "ENGWEB") None None "t1" "t2" "t3" st)
      "eng"
    = {| Ledger.total_chapters_with_errors := 1; Ledger.audio_errors := 1;
         Ledger.text_errors := 1; Ledger.timing_errors := 0 |}.
Proof.
  intros st.
  assert (Ledger.memory st !! "eng" = None) as Hnone by by vm_compute.
  split_and!; [exact Hnone| |by vm_compute].
  exact (proj2 (proj2 (proj2 (proj2
    (log_download_error_summary "eng" "MAT" 1 "audio" "no_audio_available"
       (Some "ENGWEBN2DA") (Some "ENGWEB") None None "t1" "t2" "t3" st))))
    Hnone).
Defined.

(** X19. [log_download_error] only ever adds: entry by entry the new log
    of the language is the old one with every error list extended at its
    end, followed by one new entry exactly when the chapter had none; the
    order of the chapters is kept and a log without a repeated chapter
    stays without one. The new log is written to disk as it stands in
    memory, and the logs of other languages are left alone. *)
Theorem log_download_error_appends
    (iso book_id : string) (chapter : Z) (content_type error_type : string)
    (fileset distinct_id format_type details : option string)
    (created now updated : string) (st : Ledger.Ledgers) :
  let before := Ledger.current st iso in
  let st' :=
    Ledger.log_download_error iso book_id chapter content_type error_type
      fileset distinct_id format_type details created now updated st in
  ∃ after added,
    Ledger.memory st' !! iso = Some after
    ∧ Ledger.disk st' !! iso = Some after
    ∧ Forall2 Ledger.grows (before ++ added) after
    ∧ (added = []
       ∨ added = [Ledger.new_entry book_id chapter created]
         ∧ (book_id, chapter) ∉ Ledger.chapter_of <$> before)
    ∧ (book_id, chapter) ∈ Ledger.chapter_of <$> after
    ∧ (NoDup (Ledger.chapter_of <$> before) →
       NoDup (Ledger.chapter_of <$> after))
    ∧ ∀ other, other ≠ iso →
        Ledger.memory st' !! other = Ledger.memory st !! other
        ∧ Ledger.disk st' !! other = Ledger.disk st !! other.
Proof.
  cbn zeta. unfold Ledger.log_download_error.
  cbn [Ledger.memory Ledger.disk].
  set (errors := Ledger.current st iso).
  set (fe := {| Ledger.fe_timestamp := now |}).
  destruct (record_error_grows book_id chapter content_type fe created
              updated errors) as (added & Hgrows & Hadded).
  eexists _, added.
  split_and!; [apply lookup_insert_eq|apply lookup_insert_eq|exact Hgrows
              |exact Hadded| | |].
  - rewrite record_error_chapter_list.
    case_decide; [done|]. apply elem_of_app. right. apply list_elem_of_here.
  - intros Hnd. rewrite record_error_chapter_list.
    case_decide as Hin; [done|].
    apply NoDup_app. split_and!; [done| |apply NoDup_singleton].
    by intros x Hx ->%list_elem_of_singleton.
  - intros other Hne. by rewrite !lookup_insert_ne.
Qed.

(** ** Language categories *)

Section languages.
Import Sorter Languages.

Lemma scan_full_flags (ready : Metadata → bool) (items : list Metadata)
    (has_ot has_nt : bool) :
  scan_full ready items has_ot has_nt
  = (has_ot || scan_any ready ["OT"; "FULL"] items,
     has_nt || scan_any ready ["NT"; "FULL"] items).
Proof.
  revert has_ot has_nt. unfold scan_any.
  induction items as [|m l IH]; intros has_ot has_nt.
  { cbn. by rewrite !orb_false_r. }
  cbn [scan_full existsb]. destruct (ready m); cbn [andb orb]; [|apply IH].
  unfold Py.mem.
  destruct (decide (book_set m = "FULL")) as [->|Hf].
  { rewrite !bool_decide_eq_true_2, !orb_true_r; [done|..];
      apply (bool_decide_unpack _); by vm_compute. }
  destruct (decide (book_set m = "OT")) as [->|Ho].
  { rewrite IH. cbn. rewrite (bool_decide_eq_true_2 ("OT" ∈ _)),
      (bool_decide_eq_false_2 ("OT" ∈ _)); cbn;
      [by rewrite orb_true_r| |];
      [intros Hin|]; [|apply (bool_decide_unpack _); by vm_compute].
    revert Hin. apply (bool_decide_unpack _). by vm_compute. }
  destruct (decide (book_set m = "NT")) as [->|Hn].
  { rewrite IH. cbn. rewrite (bool_decide_eq_false_2 ("NT" ∈ _)),
      (bool_decide_eq_true_2 ("NT" ∈ _)); cbn;
      [by rewrite orb_true_r| |];
      [apply (bool_decide_unpack _); by vm_compute|intros Hin].
    revert Hin. apply (bool_decide_unpack _). by vm_compute. }
  rewrite IH, !bool_decide_eq_false_2; [done|..];
    rewrite !elem_of_cons, elem_of_nil; tauto.
Qed.

Lemma matches_full (metadata_dict : gmap string Metadata) :
  matches "SYNC_FULL" metadata_dict
  = matches "SYNC_OT" metadata_dict && matches "SYNC_NT" metadata_dict
  ∧ matches "TIMING_FULL" metadata_dict
    = matches "TIMING_OT" metadata_dict && matches "TIMING_NT" metadata_dict.
Proof.
  unfold matches. cbn zeta.
  repeat (rewrite decide_False by done).
  rewrite !(decide_True (P := "SYNC_FULL" = "SYNC_FULL")) by done.
  repeat (rewrite decide_False by done).
  rewrite ?decide_True by done.
  rewrite !scan_full_flags. done.
Qed.

Lemma languages_to_check_spec (names : list string) :
  NoDup (languages_to_check names)
  ∧ ∀ iso, iso ∈ languages_to_check names ↔
      String.length iso = 3
      ∧ ∃ name, name ∈ names ∧ before_underscore name = iso.
Proof.
  unfold languages_to_check.
  induction names as [|name l IH] using rev_ind.
  { split; [constructor|]. intros iso. cbn. split.
    - by intros ?%elem_of_nil.
    - by intros (_ & ? & ?%elem_of_nil & _). }
  rewrite foldl_app. cbn [foldl]. destruct IH as [Hnd IH].
  set (acc := foldl _ [] l) in *.
  destruct (decide (String.length (before_underscore name) = 3
                    ∧ before_underscore name ∉ acc)) as [[Hlen Hnew]|Hn].
  - split.
    + apply NoDup_app. split_and!; [done| |apply NoDup_singleton].
      by intros x Hx ->%list_elem_of_singleton.
    + intros iso. rewrite elem_of_app, IH, list_elem_of_singleton. split.
      * intros [(? & n & Hn & ?)| ->].
        -- split; [done|]. exists n. split; [apply elem_of_app; by left|done].
        -- split; [done|]. exists name.
           split; [apply elem_of_app; right; apply list_elem_of_here|done].
      * intros (Hl & n & [Hn| ->%list_elem_of_singleton]%elem_of_app & Hb).
        -- left. split; [done|]. by exists n.
        -- by right.
  - split; [done|]. intros iso. rewrite IH. split.
    + intros (? & n & Hin & ?). split; [done|]. exists n.
      split; [apply elem_of_app; by left|done].
    + intros (Hl & n & [Hin| ->%list_elem_of_singleton]%elem_of_app & Hb).
      * split; [done|]. by exists n.
      * subst iso.
        destruct (decide (before_underscore name ∈ acc)) as [Hin|Hnin].
        -- by apply IH in Hin.
        -- exfalso. apply Hn. by split.
Qed.

Lemma elem_of_get_languages (names : list string)
    (load : string → gmap string Metadata) (book_set : string)
    (languages : list string) (iso : string) :
  get_languages_by_book_set names load book_set = Some languages →
  iso ∈ languages ↔
    iso ∈ languages_to_check names
    ∧ load iso ≠ ∅
    ∧ matches book_set (load iso) = true.
Proof.
  unfold get_languages_by_book_set. cbn zeta.
  destruct (languages_to_check names) as [|x l] eqn:Hl; [done|].
  intros [= <-]. rewrite sorted_Permutation, list_elem_of_filter.
  unfold listed.
  destruct (map_to_list (load iso)) as [|kv kvs] eqn:Hm.
  - apply map_to_list_empty_iff in Hm. rewrite Hm. split; [by intros [[] _]|].
    intros (_ & ? & _). done.
  - assert (load iso ≠ ∅) as Hne.
    { intros He. rewrite He, map_to_list_empty in Hm. done. }
    rewrite Is_true_true. tauto.
Qed.
End languages.

(** X20. A list returned by [get_languages_by_book_set] is sorted and
    free of repetitions; each of its codes has three characters, is the
    part before the first underscore of some directory name, and has
    metadata under its own directory, so a language stored only under a
    country-suffixed name is never listed; every list is contained in the
    list of category ALL; and the function exits exactly when no directory
    yields a three-character code. *)
Theorem get_languages_by_book_set_listing
    (names : list string) (load : string → gmap string Sorter.Metadata)
    (book_set : string) (languages : list string) :
  Languages.get_languages_by_book_set names load book_set = Some languages →
  Sorted String.le languages
  ∧ NoDup languages
  ∧ (∀ iso, iso ∈ languages →
       String.length iso = 3
       ∧ load iso ≠ ∅
       ∧ ∃ name, name ∈ names ∧ Languages.before_underscore name = iso)
  ∧ (∃ all,
       Languages.get_languages_by_book_set names load "ALL" = Some all
       ∧ languages ⊆ all
       ∧ ∀ iso, iso ∈ all ↔
           iso ∈ Languages.languages_to_check names ∧ load iso ≠ ∅)
  ∧ (∀ other,
       Languages.get_languages_by_book_set names load other = None
       ↔ Languages.languages_to_check names = []).
Proof.
  intros Hget.
  destruct (languages_to_check_spec names) as [Hnd Hspec].
  assert (∀ other,
            Languages.get_languages_by_book_set names load other = None
            ↔ Languages.languages_to_check names = []) as Hexit.
  { intros other. unfold Languages.get_languages_by_book_set. cbn zeta.
    by destruct (Languages.languages_to_check names). }
  split_and!; [| | | |exact Hexit].
  - unfold Languages.get_languages_by_book_set in Hget. cbn zeta in Hget.
    destruct (Languages.languages_to_check names); [done|].
    injection Hget as <-. apply sorted_Sorted.
  - unfold Languages.get_languages_by_book_set in Hget. cbn zeta in Hget.
    destruct (Languages.languages_to_check names) eqn:Hl; [done|].
    injection Hget as <-. rewrite sorted_Permutation.
    by apply NoDup_filter.
  - intros iso Hin.
    apply (elem_of_get_languages _ _ _ _ _ Hget) in Hin
      as (Hc%Hspec & Hne & _).
    destruct Hc as [? ?]. done.
  - destruct (Languages.get_languages_by_book_set names load "ALL")
      as [all|] eqn:Hall.
    + exists all. split; [done|]. split.
      * intros iso Hin.
        apply (elem_of_get_languages _ _ _ _ _ Hget) in Hin as (? & ? & _).
        apply (elem_of_get_languages _ _ _ _ _ Hall). done.
      * intros iso. rewrite (elem_of_get_languages _ _ _ _ _ Hall).
        unfold Languages.matches. rewrite decide_True by done. tauto.
    + apply Hexit in Hall. apply (Hexit book_set) in Hall. congruence.
Qed.

Lemma get_languages_by_book_set_listing_witness :
  Languages.get_languages_by_book_set LanguagesExamples.directories
    LanguagesExamples.load "SYNC_NT" = Some ["eng"; "spa"]
  ∧ Languages.languages_to_check LanguagesExamples.directories
    = ["spa"; "eng"; "fra"]
  ∧ Sorted String.le ["eng"; "spa"].
Proof.
  assert (Languages.get_languages_by_book_set LanguagesExamples.directories
            LanguagesExamples.load "SYNC_NT" = Some ["eng"; "spa"]) as Hget
    by by vm_compute.
  split_and!; [exact Hget|by vm_compute|].
  exact (proj1 (get_languages_by_book_set_listing _ _ _ _ Hget)).
Defined.

(** X21. The full-Bible categories are the intersections of the testament
    categories: a language is listed under SYNC_FULL exactly when it is
    listed under SYNC_NT and under SYNC_OT, and likewise for the three
    TIMING categories. *)
Theorem get_languages_by_book_set_full
    (names : list string) (load : string → gmap string Sorter.Metadata)
    (kind : string) (full nt ot : list string) :
  kind = "SYNC" ∨ kind = "TIMING" →
  Languages.get_languages_by_book_set names load (kind +:+ "_FULL")
    = Some full →
  Languages.get_languages_by_book_set names load (kind +:+ "_NT")
    = Some nt →
  Languages.get_languages_by_book_set names load (kind +:+ "_OT")
    = Some ot →
  ∀ iso, iso ∈ full ↔ iso ∈ nt ∧ iso ∈ ot.
Proof.
  intros Hkind Hfull Hnt Hot iso.
  rewrite (elem_of_get_languages _ _ _ _ _ Hfull),
    (elem_of_get_languages _ _ _ _ _ Hnt),
    (elem_of_get_languages _ _ _ _ _ Hot).
  destruct (matches_full (load iso)) as [Hs Ht].
  destruct Hkind as [-> | ->]; cbn.
  - change ("SYNC" +:+ "_FULL") with "SYNC_FULL".
    change ("SYNC" +:+ "_NT") with "SYNC_NT".
    change ("SYNC" +:+ "_OT") with "SYNC_OT".
    rewrite Hs, andb_true_iff. tauto.
  - change ("TIMING" +:+ "_FULL") with "TIMING_FULL".
    change ("TIMING" +:+ "_NT") with "TIMING_NT".
    change ("TIMING" +:+ "_OT") with "TIMING_OT".
    rewrite Ht, andb_true_iff. tauto.
Qed.

Lemma get_languages_by_book_set_full_witness :
  Languages.get_languages_by_book_set LanguagesExamples.directories
    LanguagesExamples.load "SYNC_FULL" = Some ["eng"]
  ∧ Languages.get_languages_by_book_set LanguagesExamples.directories
      LanguagesExamples.load "SYNC_NT" = Some ["eng"; "spa"]
  ∧ Languages.get_languages_by_book_set LanguagesExamples.directories
      LanguagesExamples.load "SYNC_OT" = Some ["eng"]
  ∧ ∀ iso, iso ∈ ["eng"] ↔ iso ∈ ["eng"; "spa"] ∧ iso ∈ ["eng"].
Proof.
  assert (Languages.get_languages_by_book_set LanguagesExamples.directories
            LanguagesExamples.load ("SYNC" +:+ "_FULL") = Some ["eng"])
    as Hfull by by vm_compute.
  assert (Languages.get_languages_by_book_set LanguagesExamples.directories
            LanguagesExamples.load ("SYNC" +:+ "_NT") = Some ["eng"; "spa"])
    as Hnt by by vm_compute.
  assert (Languages.get_languages_by_book_set LanguagesExamples.directories
            LanguagesExamples.load ("SYNC" +:+ "_OT") = Some ["eng"])
    as Hot by by vm_compute.
  split_and!; [exact Hfull|exact Hnt|exact Hot|].
  exact (get_languages_by_book_set_full _ _ "SYNC" _ _ _ (or_introl eq_refl)
           Hfull Hnt Hot).
Defined.

(** ** A book: counts and guards *)

Section book_facts.
Import Sorter Downloader Book.

Lemma audio_step_timing (w : World) (metadata : gmap string Metadata)
    (force : bool) (st : State) (m : Metadata) :
  timing_with_audio st →
  timing_with_audio (audio_step w metadata force st m).
Proof.
  unfold timing_with_audio, audio_step, fetch_audio, timing_for_existing,
    timing_for_download, after_write. cbn zeta. intros Hst.
  repeat (case_decide || case_match); cbn; auto.
Qed.

Lemma text_step_timing (w : World) (force : bool) (st : State)
    (m : Metadata) :
  timing_with_audio st → timing_with_audio (text_step w force st m).
Proof.
  unfold timing_with_audio, text_step, fetch_text, after_write. cbn zeta.
  intros Hst.
  repeat (case_decide || case_match); cbn; auto.
Qed.

Lemma download_book_chapter_timing (w : World)
    (metadata : gmap string Metadata) (force : bool) (fs : list File)
    (audio_filesets text_filesets : list Metadata) :
  timing_with_audio
    (download_book_chapter w metadata force fs audio_filesets
       text_filesets).
Proof.
  unfold download_book_chapter, text_loop, audio_loop.
  assert (timing_with_audio (initial fs)) as H0 by done.
  revert H0. generalize (initial fs).
  induction audio_filesets as [|m l IH]; intros st Hst; cbn [foldl].
  - revert st Hst. induction text_filesets as [|m l IH]; intros st Hst;
      cbn [foldl]; [done|]. by apply IH, text_step_timing.
  - by apply IH, audio_step_timing.
Qed.

Section one_book.
Variable w : nat → World.
Variable metadata : gmap string Metadata.
Variable force : bool.
Variable audio_filesets text_filesets : list Metadata.

Lemma chapter_step_counts (p : Progress) (c : Z) :
  let p' :=
    chapter_step w metadata force audio_filesets text_filesets p c in
  (timing_count p ≤ audio_count p → timing_count p' ≤ audio_count p')%nat
  ∧ (audio_count p ≤ audio_count p' ∧ audio_count p' ≤ S (audio_count p))%nat
  ∧ (text_count p ≤ text_count p' ∧ text_count p' ≤ S (text_count p))%nat
  ∧ (runs p').*1 = (runs p).*1 ++ [c].
Proof.
  cbn zeta. unfold chapter_step.
  cbn [audio_count text_count timing_count runs].
  pose proof (download_book_chapter_timing (w (length (runs p))) metadata
                force (files_of p c) audio_filesets text_filesets) as Hta.
  unfold timing_with_audio in Hta. rewrite fmap_app.
  destruct (any_audio_success _), (any_text_success _),
    (any_timing_success _); try (by specialize (Hta eq_refl));
    split_and!; try done; lia.
Qed.

Lemma chapter_loop_counts (chapters : list Z) (p : Progress) :
  let p' :=
    foldl (chapter_step w metadata force audio_filesets text_filesets)
          p chapters in
  (timing_count p ≤ audio_count p → timing_count p' ≤ audio_count p')%nat
  ∧ (audio_count p' ≤ audio_count p + length chapters)%nat
  ∧ (text_count p' ≤ text_count p + length chapters)%nat
  ∧ (runs p').*1 = (runs p).*1 ++ chapters.
Proof.
  revert p. induction chapters as [|c l IH]; intros p; cbn zeta.
  { cbn. rewrite app_nil_r. split_and!; auto with lia. }
  cbn [foldl length].
  destruct (chapter_step_counts p c) as (Ht1 & Ha1 & Hx1 & Hr1).
  destruct (IH (chapter_step w metadata force audio_filesets
                  text_filesets p c)) as (Ht & Ha & Hx & Hr).
  cbn zeta in *. rewrite Hr, Hr1, <- app_assoc.
  split_and!; [auto|lia|lia|done].
Qed.
End one_book.

Lemma tuple_nil_nil {A B} (l1 : list A) (l2 : list B) :
  l1 = [] ∧ l2 = [] ∨ (l1 ≠ [] ∨ l2 ≠ []).
Proof. destruct l1, l2; auto. Qed.
End book_facts.

(** X22. A tuple returned by [download_book] counts timing successes
    only in chapters that also count an audio success, and no counter
    exceeds the number of chapters given: timing count <= audio count <=
    number of chapters, text count <= number of chapters; when the loop
    runs, [download_book_chapter] is called once per listed chapter, in
    the order of the list. *)
Theorem download_book_counts
    (w : nat → Downloader.World) (excl : Downloader.Exclusions)
    (metadata : gmap string Sorter.Metadata) (force : bool)
    (book_id : string) (chapters : list Z)
    (fs : Z → list Downloader.File)
    (audio_count text_count timing_count : nat) (p : Book.Progress) :
  Book.download_book w excl metadata force book_id (Some chapters) fs
  = (Book.Returned audio_count text_count timing_count, p) →
  (timing_count ≤ audio_count)%nat
  ∧ (audio_count ≤ length chapters)%nat
  ∧ (text_count ≤ length chapters)%nat
  ∧ ((Book.runs p).*1 = chapters ∨ Book.runs p = []).
Proof.
  unfold Book.download_book. cbn zeta.
  destruct (existsb _ chapters).
  { intros [= <- <- <- <-]. cbn. split_and!; auto with lia. }
  pose proof (chapter_loop_counts w metadata force
                (Downloader.get_audio_filesets excl metadata book_id)
                (Downloader.get_text_filesets excl metadata book_id)
                chapters (Book.mkProgress fs [] 0 0 0)) as Hloop.
  cbn zeta in Hloop. cbn [Book.audio_count Book.text_count
    Book.timing_count Book.runs length fmap list_fmap app] in Hloop.
  destruct Hloop as (Ht & Ha & Hx & Hr).
  destruct (Downloader.get_audio_filesets excl metadata book_id),
    (Downloader.get_text_filesets excl metadata book_id);
    [intros [= <- <- <- <-]; cbn; split_and!; auto with lia|..];
    (destruct chapters as [|c cs]; [done|]);
    intros [= <- <- <- <-]; split_and!; auto with lia.
Qed.

Lemma download_book_counts_witness :
  Book.download_book (λ _, Examples.generous) Examples.no_exclusions
    {["ENGESVN1DA" := Examples.nt_audio]} false "MAT" (Some [1; 2]%Z)
    (λ _, [])
  = (Book.Returned 2 0 0,
     (Book.download_book (λ _, Examples.generous) Examples.no_exclusions
        {["ENGESVN1DA" := Examples.nt_audio]} false "MAT" (Some [1; 2]%Z)
        (λ _, [])).2)
  ∧ (0 ≤ 2)%nat ∧ (2 ≤ 2)%nat.
Proof.
  assert (Book.download_book (λ _, Examples.generous)
            Examples.no_exclusions
            {["ENGESVN1DA" := Examples.nt_audio]} false "MAT"
            (Some [1; 2]%Z) (λ _, [])
          = (Book.Returned 2 0 0,
             (Book.download_book (λ _, Examples.generous)
                Examples.no_exclusions
                {["ENGESVN1DA" := Examples.nt_audio]} false "MAT"
                (Some [1; 2]%Z) (λ _, [])).2)) as Hrun by by vm_compute.
  split; [exact Hrun|].
  destruct (download_book_counts _ _ _ _ _ _ _ _ _ _ _ Hrun)
    as (H1 & H2 & _).
  split; [exact H1|exact H2].
Defined.

(** X23. The guards of [download_book]: a chapter below 1 or above the
    book's chapter count anywhere in the list, or a book without any
    candidate fileset, gives (0, 0, 0) without a single chapter run; past
    these guards an empty chapter list raises [ValueError]; so does a book
    outside the table when the chapters are omitted and a candidate
    exists. *)
Theorem download_book_guards
    (w : nat → Downloader.World) (excl : Downloader.Exclusions)
    (metadata : gmap string Sorter.Metadata) (force : bool)
    (book_id : string) (chapters : list Z)
    (fs : Z → list Downloader.File) :
  let max := Book.max_chapters book_id in
  let start := Book.mkProgress fs [] 0 0 0 in
  let candidates :=
    Downloader.get_audio_filesets excl metadata book_id ≠ []
    ∨ Downloader.get_text_filesets excl metadata book_id ≠ [] in
  ((∃ chapter, chapter ∈ chapters ∧ (chapter < 1 ∨ max < chapter)%Z) →
     Book.download_book w excl metadata force book_id (Some chapters) fs
     = (Book.Returned 0 0 0, start))
  ∧ (¬ candidates →
       Book.download_book w excl metadata force book_id (Some chapters) fs
       = (Book.Returned 0 0 0, start))
  ∧ (candidates →
       Book.download_book w excl metadata force book_id (Some []) fs
       = (Book.ValueError, start))
  ∧ (candidates → book_id ∉ Downloader.ALL_BOOKS.*1 →
       Book.download_book w excl metadata force book_id None fs
       = (Book.ValueError, start)).
Proof.
  cbn zeta. unfold Book.download_book. cbn zeta.
  split_and!.
  - intros (chapter & Hin & Hbad).
    assert (existsb (λ c, bool_decide (c < 1 ∨ Book.max_chapters book_id < c)%Z)
              chapters = true) as ->; [|done].
    apply existsb_exists. exists chapter.
    split; [by apply list_elem_of_In|by apply bool_decide_eq_true].
  - intros Hnone. destruct (existsb _ chapters); [done|].
    destruct (tuple_nil_nil
                (Downloader.get_audio_filesets excl metadata book_id)
                (Downloader.get_text_filesets excl metadata book_id))
      as [[-> ->]|?]; [done|tauto].
  - intros Hsome. cbn [existsb].
    destruct (Downloader.get_audio_filesets excl metadata book_id),
      (Downloader.get_text_filesets excl metadata book_id);
      [destruct Hsome; done|done..].
  - intros Hsome Hbook.
    assert (Book.max_chapters book_id = 0%Z) as ->.
    { unfold Book.max_chapters.
      destruct (list_find _ Downloader.ALL_BOOKS) as [[i b]|] eqn:Hf;
        [|done].
      apply list_find_Some in Hf as (Hi & Hb & _). exfalso. apply Hbook.
      apply list_elem_of_fmap. exists b.
      split; [done|]. by apply list_elem_of_lookup_2 in Hi. }
    cbn [seqZ]. change (seqZ 1 0) with (@nil Z). cbn [existsb].
    destruct (Downloader.get_audio_filesets excl metadata book_id),
      (Downloader.get_text_filesets excl metadata book_id);
      [destruct Hsome; done|done..].
Qed.

Lemma download_book_guards_witness :
  (∃ chapter, chapter ∈ [1; 29]%Z
     ∧ (chapter < 1 ∨ Book.max_chapters "MAT" < chapter)%Z)
  ∧ Book.download_book (λ _, Examples.generous) Examples.no_exclusions
      {["ENGESVN1DA" := Examples.nt_audio]} false "MAT" (Some [1; 29]%Z)
      (λ _, [])
    = (Book.Returned 0 0 0, Book.mkProgress (λ _, []) [] 0 0 0)
  ∧ ("XYZ" ∉ Downloader.ALL_BOOKS.*1)
  ∧ Book.download_book (λ _, Examples.generous) Examples.no_exclusions
      {["ENGESVN1DA" := Examples.nt_audio]} false "XYZ" None (λ _, [])
    = (Book.ValueError, Book.mkProgress (λ _, []) [] 0 0 0).
Proof.
  assert (∃ chapter, chapter ∈ [1; 29]%Z
            ∧ (chapter < 1 ∨ Book.max_chapters "MAT" < chapter)%Z) as Hbad.
  { exists 29%Z. split; [apply list_elem_of_further, list_elem_of_here|].
    right. by vm_compute. }
  assert ("XYZ" ∉ Downloader.ALL_BOOKS.*1) as Hbook
    by (apply (bool_decide_unpack _); by vm_compute).
  assert (Downloader.get_audio_filesets Examples.no_exclusions
            {["ENGESVN1DA" := Examples.nt_audio]} "XYZ" ≠ []
          ∨ Downloader.get_text_filesets Examples.no_exclusions
              {["ENGESVN1DA" := Examples.nt_audio]} "XYZ" ≠ []) as Hcand
    by (left; by vm_compute).
  pose proof (download_book_guards (λ _, Examples.generous)
                Examples.no_exclusions {["ENGESVN1DA" := Examples.nt_audio]}
                false "MAT" [1; 29]%Z (λ _, [])) as (H1 & _).
  pose proof (download_book_guards (λ _, Examples.generous)
                Examples.no_exclusions {["ENGESVN1DA" := Examples.nt_audio]}
                false "XYZ" [] (λ _, [])) as (_ & _ & _ & H4).
  split_and!; [exact Hbad|exact (H1 Hbad)|exact Hbook|exact (H4 Hcand Hbook)].
Defined.

(** ** Priority order of the candidates *)

Section priority.
Import Sorter Downloader.

Lemma audio_key_le_total : Total audio_key_le.
Proof.
  intros [[a1 b1] s1] [[a2 b2] s2]. unfold audio_key_le, bool_lt. cbn.
  destruct (total String.le s1 s2); destruct a1, a2, b1, b2; intuition.
Qed.

Lemma audio_key_le_trans : Transitive audio_key_le.
Proof.
  intros [[a1 b1] s1] [[a2 b2] s2] [[a3 b3] s3].
  unfold audio_key_le, bool_lt. cbn. intros H12 H23.
  assert (String.le s1 s2 → String.le s2 s3 → String.le s1 s3) as Htr
    by (intros; by etrans).
  destruct a1, a2, a3, b1, b2, b3; intuition congruence.
Qed.

Lemma text_key_le_total : Total text_key_le.
Proof.
  intros [n1 s1] [n2 s2]. unfold text_key_le. cbn.
  destruct (total String.le s1 s2);
    destruct (lt_eq_lt_dec n1 n2) as [[?|?]|?]; intuition.
Qed.

Lemma text_key_le_trans : Transitive text_key_le.
Proof.
  intros [n1 s1] [n2 s2] [n3 s3]. unfold text_key_le. cbn.
  intros [?|[-> H12]] [?|[-> H23]]; [left; lia..|].
  right. split; [done|]. by etrans.
Qed.

Lemma audio_candidates_sorted excl metadata book_id :
  StronglySorted audio_order (get_audio_filesets excl metadata book_id).
Proof.
  unfold get_audio_filesets. apply StronglySorted_merge_sort.
  - intros d1 d2 d3. unfold audio_order. apply audio_key_le_trans.
  - intros d1 d2. unfold audio_order. apply audio_key_le_total.
Qed.

Lemma text_candidates_sorted excl metadata book_id :
  StronglySorted text_order (get_text_filesets excl metadata book_id).
Proof.
  unfold get_text_filesets. apply StronglySorted_merge_sort.
  - intros d1 d2 d3. unfold text_order. apply text_key_le_trans.
  - intros d1 d2. unfold text_order. apply text_key_le_total.
Qed.

Lemma StronglySorted_later {A} (R : relation A) (l1 l2 : list A) x y :
  StronglySorted R (l1 ++ x :: l2) → y ∈ l2 → R x y.
Proof.
  intros Hs Hy. induction l1 as [|z l1 IH].
  - apply StronglySorted_inv in Hs as [_ Hall].
    rewrite Forall_forall in Hall. by apply Hall.
  - apply IH. by apply StronglySorted_inv in Hs as [? _].
Qed.
End priority.

(** X24. The candidates are tried in the order of their sort keys. Among
    the audio candidates of a book every plain reading comes before every
    dramatized one (identifier containing [2DA]), and among readings of
    the same kind every identifier without [-opus] comes before every one
    with it; among the text candidates the rank of the format never
    decreases; ties are ordered by identifier. *)
Theorem candidates_in_priority_order
    (excl : Downloader.Exclusions) (metadata : gmap string Sorter.Metadata)
    (book_id : string) :
  StronglySorted audio_order
    (Downloader.get_audio_filesets excl metadata book_id)
  ∧ StronglySorted text_order
      (Downloader.get_text_filesets excl metadata book_id)
  ∧ (∀ before x after y,
       Downloader.get_audio_filesets excl metadata book_id
       = before ++ x :: after →
       y ∈ after →
       let dramatized d := Py.contains "2DA" (Sorter.fs_id d) in
       let opus d := Py.contains "-opus" (Sorter.fs_id d) in
       (dramatized x = true → dramatized y = true)
       ∧ (dramatized x = dramatized y → opus x = true → opus y = true)
       ∧ (dramatized x = dramatized y → opus x = opus y →
            String.le (Sorter.fs_id x) (Sorter.fs_id y)))
  ∧ (∀ before x after y,
       Downloader.get_text_filesets excl metadata book_id
       = before ++ x :: after →
       y ∈ after →
       ((Downloader.text_priority x).1 ≤ (Downloader.text_priority y).1)%nat).
Proof.
  pose proof (audio_candidates_sorted excl metadata book_id) as Ha.
  pose proof (text_candidates_sorted excl metadata book_id) as Ht.
  split_and!; [done|done| |].
  - intros before x after y Heq Hy. rewrite Heq in Ha.
    pose proof (StronglySorted_later _ _ _ _ _ Ha Hy) as Hle.
    unfold audio_order, Downloader.audio_key_le, Downloader.audio_priority,
      Downloader.bool_lt in Hle. cbn in Hle. cbn zeta.
    destruct (Py.contains "2DA" (Sorter.fs_id x)),
      (Py.contains "2DA" (Sorter.fs_id y)),
      (Py.contains "-opus" (Sorter.fs_id x)),
      (Py.contains "-opus" (Sorter.fs_id y)); intuition congruence.
  - intros before x after y Heq Hy. rewrite Heq in Ht.
    pose proof (StronglySorted_later _ _ _ _ _ Ht Hy) as Hle.
    unfold text_order, Downloader.text_key_le in Hle. lia.
Qed.

Lemma candidates_in_priority_order_witness :
  let metadata : gmap string Sorter.Metadata :=
    {["ENGESVN2DA" := Examples.audio_of "ENGESV" "ENGESVN2DA";
      "ENGESVN1DA-opus16" := Examples.audio_of "ENGESV" "ENGESVN1DA-opus16";
      "ENGESVN1DA" := Examples.audio_of "ENGESV" "ENGESVN1DA"]} in
  Sorter.fs_id <$>
    Downloader.get_audio_filesets Examples.no_exclusions metadata "MAT"
  = ["ENGESVN1DA"; "ENGESVN1DA-opus16"; "ENGESVN2DA"]
  ∧ StronglySorted audio_order
      (Downloader.get_audio_filesets Examples.no_exclusions metadata "MAT").
Proof.
  intros metadata. split; [by vm_compute|].
  exact (proj1 (candidates_in_priority_order Examples.no_exclusions
                  metadata "MAT")).
Defined.

(** ** Candidate selection on classified filesets *)

Section classified.
Import Sorter Downloader.



End classified.


